(** * The TORCS simulator bridge (environment.py): wire codec, action
      validation, handshake, stepping and off-track policy; the track
      lists and the last network file (track_utilities.py,
      ddpg_torcs.py)

    A shallow embedding of [Environment], [Environment.Client], of the
    track lists of [TrackUtilities] and of the Python built-ins they
    call, followed by the properties claimed for them.  Python values are modelled by [scalar] and [value]; a [dict]
    keeps its insertion order; a [float] is an IEEE 754 binary64 number
    ([spec_float] of the standard library, precision 53, emax 1024),
    read from text and written to text with correct rounding; an [int]
    is unbounded ([Z]); a [str] is a [string] whose characters stand
    for the code points below 256.  A method that updates a dictionary
    in place is a function from the dictionary to the dictionary it
    leaves and its outcome; what a method prints, sends or calls is
    returned as a list of [event]s. *)

From Stdlib Require Import ZArith NArith QArith Qabs List String Ascii Bool Lia.
From Stdlib Require Import SpecFloat.
Import ListNotations.

Open Scope string_scope.
Open Scope Z_scope.

(* ================================================================== *)
(** ** Python [str] methods *)

Module PyStr.

(** Code points below 256 for which [str.isspace] holds. *)
Definition is_space (c : ascii) : bool :=
  let n := N_of_ascii c in
  ((9 <=? n) && (n <=? 13) || (28 <=? n) && (n <=? 32)
   || (n =? 133) || (n =? 160))%N.

Definition is_digit (c : ascii) : bool :=
  let n := N_of_ascii c in ((48 <=? n) && (n <=? 57))%N.

(** [c in chars] for a one-character [c]. *)
Fixpoint mem_char (c : ascii) (chars : string) : bool :=
  match chars with
  | EmptyString => false
  | String d r => Ascii.eqb c d || mem_char c r
  end.

Fixpoint lstrip_by (p : ascii -> bool) (s : string) : string :=
  match s with
  | EmptyString => EmptyString
  | String c r => if p c then lstrip_by p r else s
  end.

Fixpoint rstrip_by (p : ascii -> bool) (s : string) : string :=
  match s with
  | EmptyString => EmptyString
  | String c r =>
      match rstrip_by p r with
      | EmptyString => if p c then EmptyString else String c EmptyString
      | r' => String c r'
      end
  end.

(** [s.strip()] *)
Definition strip (s : string) : string :=
  rstrip_by is_space (lstrip_by is_space s).

(** [s.lstrip(chars)] and [s.rstrip(chars)] *)
Definition lstrip (chars s : string) : string :=
  lstrip_by (fun c => mem_char c chars) s.
Definition rstrip (chars s : string) : string :=
  rstrip_by (fun c => mem_char c chars) s.

(** [s[:-1]] *)
Fixpoint drop_last (s : string) : string :=
  match s with
  | EmptyString => EmptyString
  | String c EmptyString => EmptyString
  | String c r => String c (drop_last r)
  end.

Fixpoint is_prefix (p s : string) : bool :=
  match p, s with
  | EmptyString, _ => true
  | String a p', String b s' => Ascii.eqb a b && is_prefix p' s'
  | String _ _, EmptyString => false
  end.

(** [sub in s] *)
Fixpoint contains (sub s : string) : bool :=
  is_prefix sub s ||
  match s with
  | EmptyString => false
  | String _ r => contains sub r
  end.

(** [s.split(sep)] for a non-empty [sep]: leftmost, non-overlapping
    occurrences; [skip] counts the characters of an occurrence still to
    be passed over. *)
Fixpoint split_go (sep s : string) (skip : nat) : list string :=
  match s with
  | EmptyString => [EmptyString]
  | String c r =>
      match skip with
      | S k => split_go sep r k
      | O =>
          if is_prefix sep s
          then EmptyString :: split_go sep r (pred (String.length sep))
          else match split_go sep r O with
               | h :: t => String c h :: t
               | [] => [String c EmptyString]
               end
      end
  end.

Definition split (sep s : string) : list string := split_go sep s O.

(** [sep.join(l)] *)
Fixpoint join (sep : string) (l : list string) : string :=
  match l with
  | [] => EmptyString
  | [x] => x
  | x :: r => x ++ sep ++ join sep r
  end.

Definition lower (c : ascii) : ascii :=
  let n := N_of_ascii c in
  if ((65 <=? n) && (n <=? 90))%N then ascii_of_N (n + 32) else c.

Fixpoint lower_str (s : string) : string :=
  match s with
  | EmptyString => EmptyString
  | String c r => String (lower c) (lower_str r)
  end.

Fixpoint all_chars (p : ascii -> bool) (s : string) : bool :=
  match s with
  | EmptyString => true
  | String c r => p c && all_chars p r
  end.

Fixpoint repeat_char (c : ascii) (n : nat) : string :=
  match n with
  | O => EmptyString
  | S k => String c (repeat_char c k)
  end.

(** Lexicographic [<] on code points. *)
Fixpoint ltb (a b : string) : bool :=
  match a, b with
  | _, EmptyString => false
  | EmptyString, String _ _ => true
  | String x a', String y b' =>
      if (N_of_ascii x <? N_of_ascii y)%N then true
      else if (N_of_ascii y <? N_of_ascii x)%N then false
      else ltb a' b'
  end.

End PyStr.

(* ================================================================== *)
(** ** Decimal digits *)

Module Dec.

Definition digit_char (d : Z) : ascii := ascii_of_N (Z.to_N (48 + d)).
Definition digit_val (c : ascii) : Z := Z.of_N (N_of_ascii c) - 48.

(** Digits of a non-negative number, most significant first. *)
Fixpoint digits_fuel (fuel : nat) (n : Z) (acc : string) : string :=
  match fuel with
  | O => acc
  | S f =>
      let acc' := String (digit_char (n mod 10)) acc in
      if n <? 10 then acc' else digits_fuel f (n / 10) acc'
  end.

Definition of_Z (n : Z) : string :=
  digits_fuel (S (Z.to_nat (Z.log2 n))) n EmptyString.

(** Value of a run of digits, read after the digits valued [acc]. *)
Fixpoint value_from (acc : Z) (s : string) : Z :=
  match s with
  | EmptyString => acc
  | String c r => value_from (10 * acc + digit_val c) r
  end.

Definition value (s : string) : Z := value_from 0 s.

(** The longest run of digits at the head of [s], and what follows. *)
Fixpoint span_digits (s : string) : string * string :=
  match s with
  | EmptyString => (EmptyString, EmptyString)
  | String c r =>
      if PyStr.is_digit c
      then let (d, rest) := span_digits r in (String c d, rest)
      else (EmptyString, s)
  end.

(** [n] written with exactly three digits ([0 <= n < 1000]). *)
Definition pad3 (n : Z) : string :=
  String (digit_char (n / 100))
    (String (digit_char (n / 10 mod 10))
       (String (digit_char (n mod 10)) EmptyString)).

(** [str(z)] for an [int]. *)
Definition of_int (z : Z) : string :=
  if z <? 0 then String "-" (of_Z (- z)) else of_Z z.

End Dec.

(* ================================================================== *)
(** ** Python [float]: IEEE 754 binary64 *)

Module PyFloat.

Definition prec : Z := 53.
Definition emax : Z := 1024.

Definition sf_eqb (a b : spec_float) : bool :=
  match a, b with
  | S754_zero s, S754_zero t => Bool.eqb s t
  | S754_infinity s, S754_infinity t => Bool.eqb s t
  | S754_nan, S754_nan => true
  | S754_finite s m e, S754_finite t n f =>
      Bool.eqb s t && Pos.eqb m n && Z.eqb e f
  | _, _ => false
  end.

(** The binary64 number nearest to [(-1)^neg * M * 10^E], ties to even. *)
Definition of_decimal (neg : bool) (M E : Z) : spec_float :=
  match M with
  | Zpos m =>
      match E with
      | Zneg k =>
          SFdiv prec emax (S754_finite neg m 0)
                (S754_finite false (Pos.pow 10 k) 0)
      | _ => binary_normalize prec emax (cond_Zopp neg (Zpos m * 10 ^ E)) 0 neg
      end
  | _ => S754_zero neg
  end.

(** [float(z)] for an [int]; [None] stands for [OverflowError]. *)
Definition of_int (z : Z) : option spec_float :=
  match binary_normalize prec emax z 0 false with
  | S754_infinity _ => None
  | f => Some f
  end.

(** *** [float(s)] for a [str] *)

(** The white space [float] passes over at both ends: the ASCII white
    space of C and the white space above code point 127 (not the
    separators 28 to 31, which [str.strip] removes). *)
Definition is_blank (c : ascii) : bool :=
  let n := N_of_ascii c in
  ((9 <=? n) && (n <=? 13) || (n =? 32) || (n =? 133) || (n =? 160))%N.

Definition parse_sign (s : string) : bool * string :=
  match s with
  | String c r =>
      if Ascii.eqb c "-" then (true, r)
      else if Ascii.eqb c "+" then (false, r)
      else (false, s)
  | EmptyString => (false, s)
  end.

(** Underscores may only stand between two digits; they are dropped. *)
Fixpoint drop_underscores (prev : ascii) (s : string) : option string :=
  match s with
  | EmptyString => if Ascii.eqb prev "_" then None else Some EmptyString
  | String c r =>
      if Ascii.eqb c "_" then
        if PyStr.is_digit prev then drop_underscores c r else None
      else if Ascii.eqb prev "_" && negb (PyStr.is_digit c) then None
      else option_map (String c) (drop_underscores c r)
  end.

(** What may follow the mantissa: nothing, or [e], a sign and digits. *)
Definition parse_exponent (s : string) : option Z :=
  match s with
  | EmptyString => Some 0
  | String c r =>
      if Ascii.eqb c "e" || Ascii.eqb c "E" then
        let (neg, r') := parse_sign r in
        let (d, rest) := Dec.span_digits r' in
        match d, rest with
        | String _ _, EmptyString => Some (cond_Zopp neg (Dec.value d))
        | _, _ => None
        end
      else None
  end.

(** An unsigned decimal literal as mantissa and power of ten. *)
Definition parse_decimal (s : string) : option (Z * Z) :=
  let (ip, r1) := Dec.span_digits s in
  let (fp, r2) :=
    match r1 with
    | String c r => if Ascii.eqb c "." then Dec.span_digits r
                    else (EmptyString, r1)
    | EmptyString => (EmptyString, r1)
    end in
  match ip ++ fp with
  | EmptyString => None
  | ds =>
      match parse_exponent r2 with
      | Some x => Some (Dec.value ds, x - Z.of_nat (String.length fp))
      | None => None
      end
  end.

(** [None] stands for [ValueError]. *)
Definition of_string (s : string) : option spec_float :=
  match drop_underscores zero
          (PyStr.rstrip_by is_blank (PyStr.lstrip_by is_blank s)) with
  | None => None
  | Some u =>
      let (neg, body) := parse_sign u in
      let l := PyStr.lower_str body in
      if String.eqb l "inf" || String.eqb l "infinity"
      then Some (S754_infinity neg)
      else if String.eqb l "nan" then Some S754_nan
      else match parse_decimal body with
           | Some (M, E) => Some (of_decimal neg M E)
           | None => None
           end
  end.

(** *** ['%.3f' % f] *)

(** Nearest integer to [num / den], ties to even ([0 <= num], [0 < den]). *)
Definition round_half_even (num den : Z) : Z :=
  let q := num / den in
  match 2 * (num mod den) ?= den with
  | Lt => q
  | Gt => q + 1
  | Eq => if Z.even q then q else q + 1
  end.

(** Nearest integer to [m * 2^e * 1000]. *)
Definition thousandths (m : positive) (e : Z) : Z :=
  match e with
  | Zneg k => round_half_even (Zpos m * 1000) (Zpos (Pos.pow 2 k))
  | _ => Zpos m * 2 ^ e * 1000
  end.

Definition sign_str (neg : bool) : string := if neg then "-" else "".

Definition format_3f (f : spec_float) : string :=
  match f with
  | S754_nan => "nan"
  | S754_infinity s => sign_str s ++ "inf"
  | S754_zero s => sign_str s ++ "0.000"
  | S754_finite s m e =>
      let n := thousandths m e in
      sign_str s ++ Dec.of_Z (n / 1000) ++ "." ++ Dec.pad3 (n mod 1000)
  end.

(** *** [repr(f)]: the shortest decimal that reads back as [f] *)

(** [num / den < 10^p] *)
Definition below_pow10 (num den p : Z) : bool :=
  if 0 <=? p then num <? den * 10 ^ p else num * 10 ^ (- p) <? den.

Fixpoint find_decpt (fuel : nat) (num den p : Z) : Z :=
  match fuel with
  | O => p
  | S f => if below_pow10 num den p then p else find_decpt f num den (p + 1)
  end.

(** The [p] with [10^(p-1) <= num/den < 10^p]. *)
Definition decpt_of (num den : Z) : Z :=
  find_decpt 8 num den ((Z.log2 num - Z.log2 den) * 30103 / 100000 - 1).

(** Quotient, remainder and divisor of [(num/den) / 10^k]. *)
Definition scale_div (num den k : Z) : Z * Z * Z :=
  let (a, b) := if 0 <=? k then (num, den * 10 ^ k)
                else (num * 10 ^ (- k), den) in
  (a / b, a mod b, b).

(** The [n]-digit decimals next to [x = num/den] that read back as [x];
    of two, the nearer. *)
Definition shortest_try (x : spec_float) (num den p n : Z) : option (Z * Z) :=
  let k := p - n in
  let '(q, r, d) := scale_div num den k in
  let lo_ok := sf_eqb (of_decimal false q k) x in
  let hi_ok := sf_eqb (of_decimal false (q + 1) k) x in
  match lo_ok, hi_ok with
  | true, true =>
      match 2 * r ?= d with
      | Lt => Some (q, k)
      | Gt => Some (q + 1, k)
      | Eq => Some (if Z.even q then q else q + 1, k)
      end
  | true, false => Some (q, k)
  | false, true => Some (q + 1, k)
  | false, false => None
  end.

Fixpoint shortest_search (fuel : nat) (x : spec_float) (num den p n : Z)
  : Z * Z :=
  match fuel with
  | O => let '(q, r, d) := scale_div num den (p - n) in
         (match 2 * r ?= d with
          | Lt => q
          | Gt => q + 1
          | Eq => if Z.even q then q else q + 1
          end, p - n)
  | S f =>
      match shortest_try x num den p n with
      | Some r => r
      | None => shortest_search f x num den p (n + 1)
      end
  end.

Fixpoint strip_zeros (fuel : nat) (D k : Z) : Z * Z :=
  match fuel with
  | O => (D, k)
  | S f => if (D mod 10 =? 0) && negb (D =? 0)
           then strip_zeros f (D / 10) (k + 1) else (D, k)
  end.

(** Digits [ds] with the decimal point after [decpt] of them, laid out
    as [repr] does. *)
Definition layout (ds : string) (decpt : Z) : string :=
  let nd := Z.of_nat (String.length ds) in
  if (-4 <? decpt) && (decpt <=? 16) then
    if decpt <=? 0 then
      "0." ++ PyStr.repeat_char "0" (Z.to_nat (- decpt)) ++ ds
    else if nd <=? decpt then
      ds ++ PyStr.repeat_char "0" (Z.to_nat (decpt - nd)) ++ ".0"
    else
      substring 0 (Z.to_nat decpt) ds ++ "." ++
      substring (Z.to_nat decpt) (Z.to_nat (nd - decpt)) ds
  else
    let x := decpt - 1 in
    let ax := Z.abs x in
    substring 0 1 ds ++
    (if 1 <? nd then "." ++ substring 1 (Z.to_nat (nd - 1)) ds else "") ++
    "e" ++ (if x <? 0 then "-" else "+") ++
    (if ax <? 10 then "0" else "") ++ Dec.of_Z ax.

Definition repr (f : spec_float) : string :=
  match f with
  | S754_nan => "nan"
  | S754_infinity s => sign_str s ++ "inf"
  | S754_zero s => sign_str s ++ "0.0"
  | S754_finite s m e =>
      let (num, den) := match e with
                        | Zneg k => (Zpos m, Zpos (Pos.pow 2 k))
                        | _ => (Zpos m * 2 ^ e, 1)
                        end in
      let x := binary_normalize prec emax (Zpos m) e false in
      let p := decpt_of num den in
      let (D, k) := shortest_search 17 x num den p 1 in
      let (D', k') := strip_zeros 20 D k in
      let ds := Dec.of_Z D' in
      sign_str s ++ layout ds (Z.of_nat (String.length ds) + k')
  end.

(** *** Exact values and order *)

(** The rational a finite float stands for. *)
Definition to_Q (f : spec_float) : Q :=
  match f with
  | S754_finite s m e =>
      match e with
      | Zneg k => Qmake (cond_Zopp s (Zpos m)) (Pos.pow 2 k)
      | _ => inject_Z (cond_Zopp s (Zpos m) * 2 ^ e)
      end
  | _ => 0%Q
  end.

Definition is_finite (f : spec_float) : bool :=
  match f with
  | S754_zero _ | S754_finite _ _ _ => true
  | _ => false
  end.

End PyFloat.

(* ================================================================== *)
(** ** Python values, exceptions and dictionaries *)

(** Scalars; the lists of this program hold scalars only (the decoder
    builds lists of floats and strings, the action record's [focus] is a
    list of numbers). *)
Inductive scalar :=
| ANone
| ABool (b : bool)
| AInt (z : Z)
| AFloat (f : spec_float)
| AStr (s : string).

Inductive value :=
| VScalar (a : scalar)
| VList (l : list scalar).

Coercion VScalar : scalar >-> value.

Inductive exn :=
| KeyError (k : string)
| TypeError
| ValueError
| OverflowError
| IndexError
| UnicodeDecodeError.

Inductive result (A : Type) :=
| Ok (a : A)
| Raise (e : exn).
Arguments Ok {A} a.
Arguments Raise {A} e.

Definition rbind {A B} (r : result A) (k : A -> result B) : result B :=
  match r with
  | Ok a => k a
  | Raise e => Raise e
  end.

Declare Scope py_scope.
Delimit Scope py_scope with py.
Notation "x <~ c ; k" := (rbind c (fun x => k))
  (at level 61, c at next level, right associativity) : py_scope.

Module Py.

(** *** Numbers: exact values and comparisons *)

Inductive xnum :=
| XNan
| XInf (neg : bool)
| XFin (q : Q).

Definition num_of (a : scalar) : option xnum :=
  match a with
  | ABool b => Some (XFin (if b then 1 else 0)%Q)
  | AInt z => Some (XFin (inject_Z z))
  | AFloat S754_nan => Some XNan
  | AFloat (S754_infinity s) => Some (XInf s)
  | AFloat f => Some (XFin (PyFloat.to_Q f))
  | ANone | AStr _ => None
  end.

(** [None] when a NaN is involved: every ordering test is then false. *)
Definition xcompare (a b : xnum) : option comparison :=
  match a, b with
  | XNan, _ | _, XNan => None
  | XInf s, XInf t =>
      Some (match s, t with
            | true, false => Lt
            | false, true => Gt
            | _, _ => Eq
            end)
  | XInf s, XFin _ => Some (if s then Lt else Gt)
  | XFin _, XInf t => Some (if t then Gt else Lt)
  | XFin p, XFin q => Some (p ?= q)%Q
  end.

(** [a < b] on scalars *)
Definition scalar_lt (a b : scalar) : result bool :=
  match num_of a, num_of b with
  | Some x, Some y =>
      Ok (match xcompare x y with Some Lt => true | _ => false end)
  | _, _ =>
      match a, b with
      | AStr s, AStr t => Ok (PyStr.ltb s t)
      | _, _ => Raise TypeError
      end
  end.

(** [a > b] on scalars *)
Definition scalar_gt (a b : scalar) : result bool := scalar_lt b a.

(** [a == b] on scalars *)
Definition scalar_eq (a b : scalar) : bool :=
  match num_of a, num_of b with
  | Some x, Some y => match xcompare x y with Some Eq => true | _ => false end
  | _, _ =>
      match a, b with
      | AStr s, AStr t => String.eqb s t
      | ANone, ANone => true
      | _, _ => false
      end
  end.

(** [v < b] and [v > b] against a scalar bound; a list does not compare
    with a scalar. *)
Definition lt (v : value) (b : scalar) : result bool :=
  match v with
  | VScalar a => scalar_lt a b
  | VList _ => Raise TypeError
  end.

Definition gt (v : value) (b : scalar) : result bool :=
  match v with
  | VScalar a => scalar_gt a b
  | VList _ => Raise TypeError
  end.

(** [v in [z1, z2, ...]] for a list of [int] literals *)
Definition in_ints (v : value) (l : list Z) : bool :=
  match v with
  | VScalar a => existsb (fun z => scalar_eq (AInt z) a) l
  | VList _ => false
  end.

(** [min(v)] and [max(v)]: the first element is kept until a later one
    is smaller (greater). *)
Fixpoint min_from (best : scalar) (l : list scalar) : result scalar :=
  match l with
  | [] => Ok best
  | x :: r =>
      (b <~ scalar_lt x best ;
       min_from (if b then x else best) r)%py
  end.

Fixpoint max_from (best : scalar) (l : list scalar) : result scalar :=
  match l with
  | [] => Ok best
  | x :: r =>
      (b <~ scalar_gt x best ;
       max_from (if b then x else best) r)%py
  end.

Definition min (v : value) : result scalar :=
  match v with
  | VList [] => Raise ValueError
  | VList (x :: r) => min_from x r
  | VScalar _ => Raise TypeError
  end.

Definition max (v : value) : result scalar :=
  match v with
  | VList [] => Raise ValueError
  | VList (x :: r) => max_from x r
  | VScalar _ => Raise TypeError
  end.

(** [abs(v)] *)
Definition abs (v : value) : result scalar :=
  match v with
  | VScalar (ABool b) => Ok (AInt (if b then 1 else 0))
  | VScalar (AInt z) => Ok (AInt (Z.abs z))
  | VScalar (AFloat f) => Ok (AFloat (SFabs f))
  | _ => Raise TypeError
  end.

(** [str(a)].  For an int this is the text of every version of Python
    as long as the int has at most 4300 digits; CPython from 3.11 on
    raises [ValueError] for a longer one, so the properties that go
    through [str] are stated for ints within that bound. *)
Definition str (a : scalar) : string :=
  match a with
  | ANone => "None"
  | ABool b => if b then "True" else "False"
  | AInt z => Dec.of_int z
  | AFloat f => PyFloat.repr f
  | AStr s => s
  end.

(** ['%.3f' % a] *)
Definition format_3f (a : scalar) : result string :=
  match a with
  | AFloat f => Ok (PyFloat.format_3f f)
  | AInt z =>
      match PyFloat.of_int z with
      | Some f => Ok (PyFloat.format_3f f)
      | None => Raise OverflowError
      end
  | ABool b =>
      match PyFloat.of_int (if b then 1 else 0) with
      | Some f => Ok (PyFloat.format_3f f)
      | None => Raise OverflowError
      end
  | ANone | AStr _ => Raise TypeError
  end.

(** *** [dict] with [str] keys, in insertion order *)

Definition dict := list (string * value).

Fixpoint get (k : string) (d : dict) : option value :=
  match d with
  | [] => None
  | (k', v) :: r => if String.eqb k k' then Some v else get k r
  end.

(** [d[k] = v]: an existing key keeps its place, a new one goes last. *)
Fixpoint set (k : string) (v : value) (d : dict) : dict :=
  match d with
  | [] => [(k, v)]
  | (k', v') :: r =>
      if String.eqb k k' then (k', v) :: r else (k', v') :: set k v r
  end.

Definition keys (d : dict) : list string := List.map fst d.

(** *** Methods that update one dictionary in place

    The dictionary as it stands when the method returns or raises, and
    the outcome. *)

Definition M (A : Type) := dict -> dict * result A.

Definition ret {A} (a : A) : M A := fun d => (d, Ok a).

Definition bind {A B} (c : M A) (k : A -> M B) : M B :=
  fun d =>
    match c d with
    | (d', Ok a) => k a d'
    | (d', Raise e) => (d', Raise e)
    end.

Definition lift {A} (r : result A) : M A := fun d => (d, r).

(** [d[k]] *)
Definition getitem (k : string) : M value :=
  fun d =>
    match get k d with
    | Some v => (d, Ok v)
    | None => (d, Raise (KeyError k))
    end.

(** [d[k] = v] *)
Definition setitem (k : string) (v : value) : M unit :=
  fun d => (set k v d, Ok tt).

End Py.

Notation "x <- c ;; k" := (Py.bind c (fun x => k))
  (at level 61, c at next level, right associativity) : py_scope.
Notation "c ;; k" := (Py.bind c (fun _ => k))
  (at level 61, right associativity) : py_scope.

(* ================================================================== *)
(** ** What the bridge does to the outside world *)

Inductive event :=
| Print (line : string)
| Sendto (message : string)
| ServerRestart              (* self.server.restart() *)
| ClientSendRestartRequest   (* self.client.send_restart_request() *)
| ClientRestart.             (* self.client.restart() *)

(* ================================================================== *)
(** ** class Environment.Client *)

Module Client.

Import Py.
Local Open Scope py_scope.

(** *** encode_actions *)

(** The body of [for k in actions], with [out] as it stands. *)
Fixpoint encode_loop (items : dict) (out : string) : result string :=
  match items with
  | [] => Ok out
  | (k, v) :: rest =>
      let out := out ++ (("(" ++ k) ++ " ") in
      match v with
      | VScalar a =>
          s <~ format_3f a ;
          let out := out ++ s in
          encode_loop rest (out ++ ")")
      | VList l =>
          let out := out ++ PyStr.join " " (map str l) in
          encode_loop rest (out ++ ")")
      end
  end.

Definition encode_actions (actions : dict) : result string :=
  encode_loop actions "".

(** *** limit_action, limit_actions *)

Definition limit_action (v : value) (lo hi : scalar) : result value :=
  b <~ lt v lo ;
  if b then Ok (VScalar lo)
  else
    c <~ gt v hi ;
    if c then Ok (VScalar hi) else Ok v.

(** The test of the last [if] of [limit_actions]. *)
Definition focus_rejected : M bool :=
  f <- getitem "focus" ;;
  match f with
  | VScalar _ => ret true
  | VList _ =>
      f <- getitem "focus" ;;
      lo <- lift (min f) ;;
      b <- lift (scalar_lt lo (AInt (-180))) ;;
      if b then ret true
      else
        f <- getitem "focus" ;;
        hi <- lift (max f) ;;
        lift (scalar_gt hi (AInt 180))
  end.

Definition limit_actions : M unit :=
  v <- getitem "steer" ;;
  v <- lift (limit_action v (AInt (-1)) (AInt 1)) ;;
  setitem "steer" v ;;
  v <- getitem "brake" ;;
  v <- lift (limit_action v (AInt 0) (AInt 1)) ;;
  setitem "brake" v ;;
  v <- getitem "accel" ;;
  v <- lift (limit_action v (AInt 0) (AInt 1)) ;;
  setitem "accel" v ;;
  v <- getitem "clutch" ;;
  v <- lift (limit_action v (AInt 0) (AInt 1)) ;;
  setitem "clutch" v ;;
  g <- getitem "gear" ;;
  (if negb (in_ints g [-1; 0; 1; 2; 3; 4; 5; 6])
   then setitem "gear" (AInt 0) else ret tt) ;;
  m <- getitem "meta" ;;
  (if negb (in_ints m [0; 1])
   then setitem "meta" (AInt 0) else ret tt) ;;
  r <- focus_rejected ;;
  if r then setitem "focus" (AInt 0) else ret tt.

(** *** destringify, parse_server_string

    [destringify] takes a [str] or a list of [str]; what it prints is
    returned with its value. *)

Inductive raw :=
| RStr (s : string)
| RList (l : list string).

Definition destringify_str (s : string) : scalar * list event :=
  match s with
  | EmptyString => (AStr s, [])
  | _ =>
      match PyFloat.of_string s with
      | Some f => (AFloat f, [])
      | None => (AStr s, [Print ("Could not find a value in " ++ s)])
      end
  end.

Fixpoint destringify_each (l : list string) : list scalar * list event :=
  match l with
  | [] => ([], [])
  | i :: r =>
      let (a, p) := destringify_str i in
      let (b, q) := destringify_each r in
      (a :: b, (p ++ q)%list)
  end.

Definition destringify (x : raw) : result (value * list event) :=
  match x with
  | RStr s => let (a, p) := destringify_str s in Ok (VScalar a, p)
  | RList [] => Ok (VList [], [])
  | RList l =>
      if (List.length l <? 2)%nat then
        match nth_error l 0 with
        | Some s => let (a, p) := destringify_str s in Ok (VScalar a, p)
        | None => Raise IndexError
        end
      else
        let (b, q) := destringify_each l in Ok (VList b, q)
  end.

(** The body of [for i in server_string_list]. *)
Fixpoint parse_loop (segments : list string) (track_data : dict)
  : result (dict * list event) :=
  match segments with
  | [] => Ok (track_data, [])
  | i :: rest =>
      let w := PyStr.split " " i in
      r <~ destringify (RList (tl w)) ;
      match nth_error w 0 with
      | Some k =>
          t <~ parse_loop rest (set k (fst r) track_data) ;
          Ok (fst t, (snd r ++ snd t)%list)
      | None => Raise IndexError
      end
  end.

Definition parse_server_string (server_string : string)
  : result (dict * list event) :=
  let server_string := PyStr.drop_last (PyStr.strip server_string) in
  let server_string_list :=
    PyStr.split ")(" (PyStr.rstrip ")" (PyStr.lstrip "(" (PyStr.strip server_string))) in
  parse_loop server_string_list [].

(** *** connect_to_server

    One turn of the [while True] loop meets one answer of the outside
    world: the send fails or not, and the receive times out (or fails
    otherwise: [socket.error]), or delivers a datagram that decodes as
    UTF-8 or does not. *)

Inductive received :=
| RecvError
| RecvData (sockdata : string)
| RecvUndecodable.

Record turn := { send_fails : bool; recv : received }.

Inductive status :=
| Connected               (* [break]: the method returns *)
| Exited (code : Z)       (* [sys.exit] *)
| Raised (e : exn)
| Waiting (tries : Z).    (* still in the loop when the answers end *)

Definition sensor_angles : string :=
  "-45 -19 -12 -7 -4 -2.5 -1.7 -1 -.5 0 .5 1 1.7 2.5 4 7 12 19 45".

Definition identify : string := "***identified***".

Fixpoint connect_loop (sid : string) (port : Z) (tries : Z)
         (answers : list turn) : list event * status :=
  match answers with
  | [] => ([], Waiting tries)
  | a :: rest =>
      let initmsg := sid ++ "(init " ++ sensor_angles ++ ")" in
      if send_fails a then ([], Exited (-1))
      else
        match recv a with
        | RecvError =>
            let tries := tries - 1 in
            let restart :=
              if tries =? 0
              then [Print "Server didn't answer, sending restart signal";
                    ServerRestart]
              else [] in
            (* identify in "" is false: next turn *)
            let (ev, st) := connect_loop sid port tries rest in
            (Sendto initmsg
               :: Print ("Waiting for server on port " ++ Dec.of_int port)
               :: (restart ++ ev)%list, st)
        | RecvData sockdata =>
            if PyStr.contains identify sockdata
            then ([Sendto initmsg;
                   Print ("Client connected on port " ++ Dec.of_int port)],
                  Connected)
            else
              let (ev, st) := connect_loop sid port tries rest in
              (Sendto initmsg :: ev, st)
        | RecvUndecodable => ([Sendto initmsg], Raised UnicodeDecodeError)
        end
  end.

Definition connect_to_server (sid : string) (port : Z)
           (answers : list turn) : list event * status :=
  connect_loop sid port 3 answers.

(** *** send_message

    [socket.error] is [OSError], which has no item access: when
    [sendto] fails, [emsg[1]] raises [TypeError] inside the handler,
    before anything is printed and before [sys.exit] is reached. *)
Definition send_message (send_fails : bool) (message : string)
  : list event * result unit :=
  if send_fails then ([], Raise TypeError)
  else ([Sendto message], Ok tt).

(** *** send_restart_request

    [utils.get_empty_actions] is not part of these sources: the record
    it returns is the argument [empty_actions].  The record is encoded
    as it is, [limit_actions] is not called. *)
Definition send_restart_request (empty_actions : dict) (send_fails : bool)
  : list event * result unit :=
  let actions := set "meta" (ABool true) empty_actions in
  match encode_actions actions with
  | Ok message => send_message send_fails message
  | Raise e => ([], Raise e)
  end.

(** *** get_server_input

    How a call that may wait for ever ends. *)
Inductive outcome (A : Type) :=
| Returns (a : A)
| Raises (e : exn)
| Blocks.                 (* still in the loop when the answers end *)
Arguments Returns {A} a.
Arguments Raises {A} e.
Arguments Blocks {A}.

(** The [while True] loop, with [sockdata] as it stands; one turn meets
    one answer.  A receive that fails leaves [sockdata] as it was, and
    [print('', end='')] writes nothing. *)
Fixpoint server_input_loop (sockdata : string) (answers : list received)
  : outcome (dict * list event) :=
  match answers with
  | [] => Blocks
  | a :: rest =>
      match a with
      | RecvUndecodable => Raises UnicodeDecodeError
      | _ =>
          let sockdata := match a with
                          | RecvData s => s
                          | _ => sockdata
                          end in
          match sockdata with
          | EmptyString => server_input_loop sockdata rest
          | _ =>
              match parse_server_string sockdata with
              | Ok r => Returns r
              | Raise e => Raises e
              end
          end
      end
  end.

Definition get_server_input (answers : list received)
  : outcome (dict * list event) :=
  server_input_loop "" answers.

(** *** step

    [actions] is [None] or the caller's record, which [limit_actions]
    updates in place; [socket] tells whether [self.socket] is set.
    The result is the record as the call leaves it, what the call
    prints and sends, and how it ends: with [None], or with the record
    and the sensors decoded from the server's answer. *)
Definition step (empty_actions : dict) (socket : bool)
           (actions : option dict) (send_fails : bool)
           (answers : list received)
  : dict * list event * outcome (option (dict * dict)) :=
  let actions := match actions with
                 | None => empty_actions
                 | Some d => d
                 end in
  if negb socket
  then (actions, [Print "Client socket problem!"], Returns None)
  else
    let (actions, r) := limit_actions actions in
    match r with
    | Raise e => (actions, [], Raises e)
    | Ok _ =>
        match encode_actions actions with
        | Raise e => (actions, [], Raises e)
        | Ok message =>
            match send_message send_fails message with
            | (ev, Raise e) => (actions, ev, Raises e)
            | (ev, Ok _) =>
                match get_server_input answers with
                | Returns (sensors, log) =>
                    (actions, (ev ++ log)%list,
                     Returns (Some (actions, sensors)))
                | Raises e => (actions, ev, Raises e)
                | Blocks => (actions, ev, Blocks)
                end
            end
        end
    end.

End Client.

(* ================================================================== *)
(** ** class Environment *)

Module Environment.

Import Py.
Local Open Scope py_scope.

(** The methods below are given by the calls they make, in order: an
    event such as [ClientRestart] says that the call is made, not
    that it returns ([Client.send_message] and
    [Client.connect_to_server] tell how the callees can end). *)

Definition restart_environment : list event :=
  [ServerRestart; ClientRestart].

Definition restart_race (gui : bool) : list event :=
  if gui then [ClientSendRestartRequest; ClientRestart]
  else restart_environment.

Definition check_sensors (gui : bool) (sensors : dict)
  : result (list event) :=
  match get "trackPos" sensors with
  | None => Raise (KeyError "trackPos")
  | Some v =>
      a <~ abs v ;
      b <~ scalar_gt a (AInt 1) ;
      if b then Ok (Print "out of track!" :: restart_race gui)
      else Ok []
  end.

Definition step := Client.step.

End Environment.


(* ================================================================== *)
(** ** Python [int(s)] for a [str] *)

Module PyInt.

(** White space at both ends is passed over, underscores may stand
    between two digits, a sign may come first; [None] stands for
    [ValueError]. *)
Definition of_string (s : string) : option Z :=
  match PyFloat.drop_underscores zero
          (PyStr.rstrip_by PyFloat.is_blank
             (PyStr.lstrip_by PyFloat.is_blank s)) with
  | None => None
  | Some u =>
      let (neg, body) := PyFloat.parse_sign u in
      match body with
      | EmptyString => None
      | _ =>
          if PyStr.all_chars PyStr.is_digit body
          then Some (cond_Zopp neg (Dec.value body))
          else None
      end
  end.

End PyInt.

(* ================================================================== *)
(** ** class TrackUtilities (track_utilities.py) *)

Module TrackUtilities.

Import Py.
Local Open Scope py_scope.

Definition TRACK_LIST : list (string * string) :=
  [("aalborg", "road");
   ("alpine-1", "road");
   ("alpine-2", "road");
   ("brondehach", "road");
   ("corkscrew", "road");
   ("eroad", "road");
   ("e-track-1", "road");
   ("e-track-2", "road");
   ("e-track-3", "road");
   ("e-track-4", "road");
   ("e-track-6", "road");
   ("forza", "road");
   ("g-track-1", "road");
   ("g-track-2", "road");
   ("g-track-3", "road");
   ("ole-road-1", "road");
   ("ruudskogen", "road");
   ("spring", "road");
   ("street-1", "road");
   ("wheel-1", "road");
   ("wheel-2", "road");
   ("a-speedway", "oval");
   ("b-speedway", "oval");
   ("c-speedway", "oval");
   ("d-speedway", "oval");
   ("e-speedway", "oval");
   ("e-track-5", "oval");
   ("f-speedway", "oval");
   ("g-speedway", "oval");
   ("michigan", "oval");
   ("dirt-1", "dirt");
   ("dirt-2", "dirt");
   ("dirt-3", "dirt");
   ("dirt-4", "dirt");
   ("dirt-5", "dirt");
   ("dirt-6", "dirt");
   ("mixed-1", "dirt");
   ("mixed-2", "dirt")].

(** [TRACK_LIST[track]] *)
Fixpoint category_in (l : list (string * string)) (track : string)
  : result string :=
  match l with
  | [] => Raise (KeyError track)
  | (k, c) :: r => if String.eqb track k then Ok c else category_in r track
  end.

(** *** The [tracks] dictionary: from the [str] of an epsilon to a list

    In insertion order, as [Py.dict]. *)
Definition tracks := list (string * list scalar).

Fixpoint lookup (k : string) (t : tracks) : option (list scalar) :=
  match t with
  | [] => None
  | (k', l) :: r => if String.eqb k k' then Some l else lookup k r
  end.

(** [tracks[k] = l] *)
Fixpoint assign (k : string) (l : list scalar) (t : tracks) : tracks :=
  match t with
  | [] => [(k, l)]
  | (k', l') :: r =>
      if String.eqb k k' then (k', l) :: r else (k', l') :: assign k l r
  end.

(** [tracks[k].append(x)]: the list held under [k] grows in place. *)
Definition append (k : string) (x : scalar) (t : tracks) : result tracks :=
  match lookup k t with
  | Some l => Ok (assign k (l ++ [x])%list t)
  | None => Raise (KeyError k)
  end.

(** *** create_complete_tracks_list *)

(** The first loop: [tracks[str(epsilon)] = []]. *)
Fixpoint reset_each (epsilons : list scalar) (t : tracks) : tracks :=
  match epsilons with
  | [] => t
  | epsilon :: rest => reset_each rest (assign (str epsilon) [] t)
  end.

(** [for track in TRACK_LIST.keys()], under the key [k]. *)
Fixpoint append_selected (k : string) (names : list string) (t : tracks)
  : result tracks :=
  match names with
  | [] => Ok t
  | track :: rest =>
      c <~ category_in TRACK_LIST track ;
      if negb (String.eqb c "dirt") then
        if negb (String.eqb track "b-speedway")
           && negb (String.eqb track "c-speedway")
           && negb (String.eqb track "d-speedway")
           && negb (String.eqb track "e-speedway")
           && negb (String.eqb track "f-speedway")
           && negb (String.eqb track "g-speedway")
        then t' <~ append k (AStr track) t ; append_selected k rest t'
        else append_selected k rest t
      else append_selected k rest t
  end.

(** The second loop. *)
Fixpoint complete_loop (epsilons : list scalar) (t : tracks)
  : result tracks :=
  match epsilons with
  | [] => Ok t
  | epsilon :: rest =>
      t' <~ append_selected (str epsilon) (map fst TRACK_LIST) t ;
      complete_loop rest t'
  end.

Definition create_complete_tracks_list (epsilons : list scalar)
  : result tracks :=
  complete_loop epsilons (reset_each epsilons []).

(** *** create_tracks_list *)

(** [for track in chosen_tracks], under the key [k]. *)
Fixpoint append_all (k : string) (chosen_tracks : list scalar) (t : tracks)
  : result tracks :=
  match chosen_tracks with
  | [] => Ok t
  | track :: rest => t' <~ append k track t ; append_all k rest t'
  end.

Fixpoint tracks_loop (chosen_tracks epsilons : list scalar) (t : tracks)
  : result tracks :=
  match epsilons with
  | [] => Ok t
  | epsilon :: rest =>
      t' <~ append_all (str epsilon) chosen_tracks
                       (assign (str epsilon) [] t) ;
      tracks_loop chosen_tracks rest t'
  end.

Definition create_tracks_list (chosen_tracks epsilons : list scalar)
  : result tracks :=
  tracks_loop chosen_tracks epsilons [].

(** *** save_last_network_path, load_last_network_path

    The files are a map from paths to their text; a file opened for
    writing is created or emptied, and the text is written as it is
    (the line end is a newline).  One path is followed at a time:
    the map says nothing of two paths that name the same file. *)
Definition files := list (string * string).

Fixpoint read (path : string) (fs : files) : option string :=
  match fs with
  | [] => None
  | (p, text) :: r => if String.eqb path p then Some text else read path r
  end.

Fixpoint write (path text : string) (fs : files) : files :=
  match fs with
  | [] => [(path, text)]
  | (p, old) :: r =>
      if String.eqb path p then (p, text) :: r
      else (p, old) :: write path text r
  end.

Definition newline : ascii := ascii_of_nat 10.
Definition carriage_return : ascii := ascii_of_nat 13.

(** [f.readline()] on a file opened as text: the line with its end,
    and what is left to read.  A carriage return, alone or before a
    newline, ends a line as a newline does and is read as one. *)
Fixpoint readline (text : string) : string * string :=
  match text with
  | EmptyString => (EmptyString, EmptyString)
  | String c r =>
      if Ascii.eqb c newline then (String newline "", r)
      else if Ascii.eqb c carriage_return then
        (String newline "",
         match r with
         | String c' r' => if Ascii.eqb c' newline then r' else r
         | EmptyString => r
         end)
      else let (line, rest) := readline r in (String c line, rest)
  end.

(** [line.replace('\n', '')] *)
Fixpoint remove_newlines (s : string) : string :=
  match s with
  | EmptyString => EmptyString
  | String c r =>
      if Ascii.eqb c newline then remove_newlines r
      else String c (remove_newlines r)
  end.

(** [print(save_file_path, file=f)] and [print(str(i), file=f)] *)
Definition save_last_network_path
           (last_network_file_path save_file_path : string) (i : Z)
           (fs : files) : files :=
  write last_network_file_path
        (save_file_path ++ String newline ""
           ++ Dec.of_int i ++ String newline "") fs.

Definition load_last_network_path (track_filename : string) (fs : files)
  : result (string * Z) :=
  match read track_filename fs with
  | Some text =>
      let (line, rest) := readline text in
      let network_name := remove_newlines line in
      let (i, _) := readline rest in
      match PyInt.of_string i with
      | Some z => Ok (network_name, z)
      | None => Raise ValueError
      end
  | None => Ok (EmptyString, 0)
  end.

End TrackUtilities.

(* ================================================================== *)
(** ** ddpg_torcs.py: create_tracks_list

    [TRACK_LIST] comes from [torcs_gym], which is not part of these
    sources: the dictionary is the argument [TRACK_LIST], its items in
    their order. *)

Module DdpgTorcs.

Import Py TrackUtilities.
Local Open Scope py_scope.

(** [for track in TRACK_LIST.keys()], under the key [k]. *)
Fixpoint append_not_dirt (TRACK_LIST : list (string * string))
         (k : string) (names : list string) (t : tracks) : result tracks :=
  match names with
  | [] => Ok t
  | track :: rest =>
      c <~ category_in TRACK_LIST track ;
      if negb (String.eqb c "dirt")
      then t' <~ append k (AStr track) t ;
           append_not_dirt TRACK_LIST k rest t'
      else append_not_dirt TRACK_LIST k rest t
  end.

(** The second loop. *)
Fixpoint tracks_loop (TRACK_LIST : list (string * string))
         (epsilons : list scalar) (t : tracks) : result tracks :=
  match epsilons with
  | [] => Ok t
  | epsilon :: rest =>
      t' <~ append_not_dirt TRACK_LIST (str epsilon)
                            (map fst TRACK_LIST) t ;
      tracks_loop TRACK_LIST rest t'
  end.

Definition create_tracks_list (TRACK_LIST : list (string * string))
           (epsilons : list scalar) : result tracks :=
  tracks_loop TRACK_LIST epsilons (reset_each epsilons []).

End DdpgTorcs.
(* ================================================================== *)
(** * Vocabulary of the properties *)

(** ** Handshake *)

Section HandshakeVocabulary.

Import Client.

Definition is_restart (e : event) : bool :=
  match e with ServerRestart => true | _ => false end.

(** How often [self.server.restart()] is called. *)
Definition restarts (ev : list event) : nat :=
  List.length (filter is_restart ev).

Definition identifies (a : turn) : bool :=
  match recv a with
  | RecvData s => PyStr.contains identify s
  | _ => false
  end.

Definition undecodable (a : turn) : bool :=
  match recv a with RecvUndecodable => true | _ => false end.

(** The turn ends the loop. *)
Definition ends (a : turn) : bool :=
  send_fails a || identifies a || undecodable a.

(** The receive timeouts the loop meets before it ends. *)
Fixpoint timeouts (answers : list turn) : nat :=
  match answers with
  | [] => O
  | a :: rest =>
      if ends a then O
      else match recv a with
           | RecvError => S (timeouts rest)
           | _ => timeouts rest
           end
  end.

Definition timeout : turn := {| send_fails := false; recv := RecvError |}.

End HandshakeVocabulary.

(** ** Validation *)

Section ValidationVocabulary.

Import Py Client.
Local Open Scope py_scope.

Definition action_fields : list string :=
  ["steer"; "brake"; "accel"; "clutch"; "gear"; "meta"; "focus"].

(** [d[k] = f(d[k])] *)
Definition update (k : string) (f : value -> result value) : M unit :=
  fun d =>
    match get k d with
    | None => (d, Raise (KeyError k))
    | Some v =>
        match f v with
        | Ok v' => (set k v' d, Ok tt)
        | Raise e => (d, Raise e)
        end
    end.

Fixpoint updates (us : list (string * (value -> result value))) : M unit :=
  match us with
  | [] => ret tt
  | (k, f) :: r => update k f ;; updates r
  end.

Definition keep_if_in (l : list Z) (v : value) : result value :=
  Ok (if in_ints v l then v else VScalar (AInt 0)).

Definition keep_focus (v : value) : result value :=
  match v with
  | VScalar _ => Ok (VScalar (AInt 0))
  | VList _ =>
      lo <~ min v ;
      b <~ scalar_lt lo (AInt (-180)) ;
      if b then Ok (VScalar (AInt 0))
      else
        hi <~ max v ;
        c <~ scalar_gt hi (AInt 180) ;
        if c then Ok (VScalar (AInt 0)) else Ok v
  end.

(** What [limit_actions] does to each field, in its order. *)
Definition field_rules : list (string * (value -> result value)) :=
  [("steer", fun v => limit_action v (AInt (-1)) (AInt 1));
   ("brake", fun v => limit_action v (AInt 0) (AInt 1));
   ("accel", fun v => limit_action v (AInt 0) (AInt 1));
   ("clutch", fun v => limit_action v (AInt 0) (AInt 1));
   ("gear", keep_if_in [-1; 0; 1; 2; 3; 4; 5; 6]);
   ("meta", keep_if_in [0; 1]);
   ("focus", keep_focus)].

End ValidationVocabulary.

(** ** Records used in the statements *)

Section Records.

Import Py.

(** [v] is a number whose exact value lies between [lo] and [hi]. *)
Definition within (lo hi : Q) (v : value) : bool :=
  match v with
  | VScalar a =>
      match num_of a with
      | Some (XFin q) => Qle_bool lo q && Qle_bool q hi
      | _ => false
      end
  | VList _ => false
  end.

(** The bounds [limit_actions] clamps to. *)
Definition clamp_bounds : list (string * (Z * Z)) :=
  [("steer", (-1, 1)); ("brake", (0, 1)); ("accel", (0, 1));
   ("clutch", (0, 1))].

(** An action record with an empty [focus] list. *)
Definition actions_empty_focus : dict :=
  [("steer", VScalar (AFloat (S754_zero false)));
   ("brake", VScalar (AFloat (S754_zero false)));
   ("accel", VScalar (AFloat (S754_zero false)));
   ("clutch", VScalar (AFloat (S754_zero false)));
   ("gear", VScalar (AInt 1));
   ("meta", VScalar (AInt 0));
   ("focus", VList [])].

(** [{steer: 5, gear: 9, meta: 2, focus: [200]}], the other fields 0. *)
Definition actions_out_of_range : dict :=
  [("steer", VScalar (AInt 5));
   ("brake", VScalar (AInt 0));
   ("accel", VScalar (AInt 0));
   ("clutch", VScalar (AInt 0));
   ("gear", VScalar (AInt 9));
   ("meta", VScalar (AInt 2));
   ("focus", VList [AInt 200])].

(** The absolute value of the number exceeds 1. *)
Definition exceeds_one (x : xnum) : Prop :=
  match x with
  | XNan => False
  | XInf _ => True
  | XFin q => (1 < Qabs q)%Q
  end.

(** The floats 1.5 and 0.9. *)
Definition float_1_5 : spec_float := S754_finite false 6755399441055744 (-52).
Definition float_0_9 : spec_float := S754_finite false 8106479329266893 (-53).

End Records.

(** ** Wire text *)

Section WireVocabulary.

Import Py PyStr.

(** Characters that neither [strip] nor the splitting on [")("] and on
    [" "] touches. *)
Definition plain (c : ascii) : bool :=
  negb (is_space c) && negb (Ascii.eqb c "(") && negb (Ascii.eqb c ")").

(** A non-empty run of plain characters. *)
Definition token (s : string) : bool :=
  all_chars plain s && negb (String.eqb s "").

(** What a digit is not. *)
Definition digit_like (c : ascii) : bool :=
  plain c && negb (Ascii.eqb c "_") && negb (Ascii.eqb c "-")
  && negb (Ascii.eqb c "+") && negb (Ascii.eqb c ".")
  && Ascii.eqb (lower c) c
  && negb (Ascii.eqb c "i") && negb (Ascii.eqb c "n")
  && negb (Ascii.eqb c "e") && negb (Ascii.eqb c "E").

(** The characters of a formatted number. *)
Definition numeric_char (c : ascii) : bool :=
  is_digit c || mem_char c "-+.einfa".

(** [s] reads [-]digits[.]ddd. *)
Definition three_decimals (s : string) : bool :=
  let body := match s with
              | String c r => if Ascii.eqb c "-" then r else s
              | EmptyString => s
              end in
  let (ip, r) := Dec.span_digits body in
  match ip, r with
  | String _ _, String c fr =>
      Ascii.eqb c "." && all_chars is_digit fr
      && (String.length fr =? 3)%nat
  | _, _ => false
  end.

(** [(name value)] *)
Definition group (name text : string) : string :=
  "(" ++ name ++ " " ++ text ++ ")".

(** The text of a field's value. *)
Definition field_text (v : value) : result string :=
  match v with
  | VScalar a => format_3f a
  | VList l => Ok (join " " (map str l))
  end.

(** The groups of the fields, in the record's order, one after the
    other; the first field that cannot be formatted raises. *)
Fixpoint groups (d : dict) : result string :=
  match d with
  | [] => Ok ""
  | (k, v) :: rest =>
      (t <~ field_text v ;
       r <~ groups rest ;
       Ok (group k t ++ r))%py
  end.

(** The float that ['%.3f'] formats. *)
Definition as_float (a : scalar) : option spec_float :=
  match a with
  | AFloat f => Some f
  | AInt z => PyFloat.of_int z
  | ABool b => PyFloat.of_int (if b then 1 else 0)
  | ANone | AStr _ => None
  end.

(** A number that ['%.3f'] writes with digits. *)
Definition finite_number (a : scalar) : bool :=
  match as_float a with
  | Some f => PyFloat.is_finite f
  | None => false
  end.

End WireVocabulary.

(** ** Decoding *)

Section DecodingVocabulary.

Import Py PyStr Client.
Local Open Scope py_scope.

(** What [destringify] makes of a list of tokens, and what it prints. *)
Definition destringify_list (l : list string) : value * list event :=
  match l with
  | [] => (VList [], [])
  | [s] => let (a, p) := destringify_str s in (VScalar a, p)
  | _ => let (b, q) := destringify_each l in (VList b, q)
  end.

(** A key and the tokens after it, as one segment of the wire text. *)
Definition segment (kt : string * list string) : string :=
  join " " (fst kt :: snd kt).

(** The entry decoded from a segment, and what decoding it prints. *)
Definition decoded (kt : string * list string) : string * value :=
  (fst kt, fst (destringify_list (snd kt))).

Definition decoded_log (kt : string * list string) : list event :=
  snd (destringify_list (snd kt)).

Fixpoint last_char (s : string) : option ascii :=
  match s with
  | EmptyString => None
  | String c EmptyString => Some c
  | String _ r => last_char r
  end.

Definition first_char (s : string) : option ascii :=
  match s with
  | EmptyString => None
  | String c _ => Some c
  end.

Definition ends_plain (s : string) : bool :=
  match last_char s with Some c => plain c | None => false end.

(** The tokens the decoder finds after the key of each field of an
    encoded record: the text of a scalar, the [str] of the elements of
    a list; for an empty list one empty token, or none when the field
    is the last (the space after its key is then stripped). *)
Fixpoint read_fields (d : dict) : result (list (string * list string)) :=
  match d with
  | [] => Ok []
  | (k, v) :: rest =>
      toks <~ match v with
              | VScalar a => t <~ format_3f a ; Ok [t]
              | VList [] => Ok (match rest with [] => [] | _ => [""] end)
              | VList l => Ok (map str l)
              end ;
      r <~ read_fields rest ;
      Ok ((k, toks) :: r)
  end.

(** The space left before the closing parenthesis by an empty list in
    the last field. *)
Fixpoint tail_of (d : dict) : string :=
  match d with
  | [] => ""
  | [(_, VList [])] => " "
  | _ :: rest => tail_of rest
  end.

End DecodingVocabulary.

(** ** Datagrams used in the statements *)

Section Datagrams.

Import Py PyStr Client.

Fixpoint distinct (l : list string) : bool :=
  match l with
  | [] => true
  | x :: r => negb (existsb (String.eqb x) r) && distinct r
  end.

(** Fields whose text the decoder takes apart without loss: there is
    one at least, the keys are distinct tokens, the tokens after them
    hold plain characters only, and the last segment ends with one. *)
Definition wire_fields (fields : list (string * list string)) : bool :=
  match fields with [] => false | _ => true end
  && distinct (map fst fields)
  && forallb (fun kt => token (fst kt)
                        && forallb (all_chars plain) (snd kt)) fields
  && ends_plain (join ")(" (map segment fields)).

(** The floats 0.1, 1.0, 2.0 and 3.0. *)
Definition float_0_1 : spec_float := S754_finite false 7205759403792794 (-56).
Definition float_1 : spec_float := S754_finite false 4503599627370496 (-52).
Definition float_2 : spec_float := S754_finite false 4503599627370496 (-51).
Definition float_3 : spec_float := S754_finite false 6755399441055744 (-51).

(** [{angle: 0.1, track: [1.0, 2.0, 3.0]}] *)
Definition sensors_example : dict :=
  [("angle", VScalar (AFloat float_0_1));
   ("track", VList [AFloat float_1; AFloat float_2; AFloat float_3])].

Definition newline : ascii := ascii_of_nat 10.

(** The datagram of the example followed by the identification marker
    and a newline. *)
Definition datagram_with_marker : string :=
  "(angle 0.1)(track 1.0 2.0 3.0)***identified***" ++ String newline "".

End Datagrams.

(** ** Valid action records *)

Section ValidRecords.

Import Py PyStr Client.

(** A float or an int whose value lies between [lo] and [hi]. *)
Definition real_within (lo hi : Z) (a : scalar) : bool :=
  match a with
  | AFloat f =>
      PyFloat.is_finite f
      && Qle_bool (inject_Z lo) (PyFloat.to_Q f)
      && Qle_bool (PyFloat.to_Q f) (inject_Z hi)
  | AInt z => (lo <=? z) && (z <=? hi)
  | _ => false
  end.

(** The ranges of the data model: steer in [-1,1]; brake, accel and
    clutch in [0,1]; gear an integer from -1 to 6; meta a flag; focus
    the scalar 0 or a list of numbers in [-180,180]. *)
Definition valid_field (k : string) (v : value) : bool :=
  if String.eqb k "steer" then
    match v with VScalar a => real_within (-1) 1 a | VList _ => false end
  else if String.eqb k "brake" || String.eqb k "accel"
          || String.eqb k "clutch" then
    match v with VScalar a => real_within 0 1 a | VList _ => false end
  else if String.eqb k "gear" then
    match v with
    | VScalar (AInt z) => (-1 <=? z) && (z <=? 6)
    | _ => false
    end
  else if String.eqb k "meta" then
    match v with
    | VScalar (ABool _) => true
    | VScalar (AInt z) => (0 <=? z) && (z <=? 1)
    | _ => false
    end
  else if String.eqb k "focus" then
    match v with
    | VScalar a => real_within 0 0 a
    | VList l => forallb (real_within (-180) 180) l
    end
  else false.

(** A record of exactly the seven fields, in any order, each in its
    range. *)
Definition valid_actions (d : dict) : bool :=
  Nat.eqb (List.length d) 7
  && forallb (fun k => match get k d with
                       | Some v => valid_field k v
                       | None => false
                       end) action_fields.

(** The scalar read back from the text of [x]. *)
Definition reread (x : scalar) : scalar := fst (destringify_str (str x)).

(** A valid record whose [focus] is the one-element list [90.0]. *)
Definition actions_single_focus : dict :=
  [("steer", VScalar (AFloat (S754_zero false)));
   ("brake", VScalar (AFloat (S754_zero false)));
   ("accel", VScalar (AFloat float_1));
   ("clutch", VScalar (AFloat (S754_zero false)));
   ("gear", VScalar (AInt 1));
   ("meta", VScalar (AInt 0));
   ("focus", VList [AFloat (S754_finite false 6333186975989760 (-46))])].

(** A valid record whose [focus] is the list [-90.0, 0.0, 90.0]. *)
Definition actions_three_focus : dict :=
  [("steer", VScalar (AFloat float_0_1));
   ("brake", VScalar (AFloat (S754_zero false)));
   ("accel", VScalar (AFloat float_1));
   ("clutch", VScalar (AFloat (S754_zero false)));
   ("gear", VScalar (AInt 1));
   ("meta", VScalar (AInt 0));
   ("focus", VList [AFloat (S754_finite true 6333186975989760 (-46));
                    AFloat (S754_zero false);
                    AFloat (S754_finite false 6333186975989760 (-46))])].

(** The scalars of a valid record: floats with a value, ints from -1
    to 6, flags. *)
Definition small_scalar (a : scalar) : Prop :=
  match a with
  | AInt z => -1 <= z <= 6
  | AFloat f => PyFloat.is_finite f = true
  | ABool _ => True
  | _ => False
  end.

(** A field that can be written and taken apart again. *)
Definition entry_ok (kv : string * value) : Prop :=
  token (fst kv) = true
  /\ match snd kv with
     | VScalar a => finite_number a = true
     | VList l => Forall (fun x => token (str x) = true) l
     end.

(** The tokens read for a field's value. *)
Definition field_reads (v : value) (toks : list string) : Prop :=
  match v with
  | VScalar a => exists t, format_3f a = Ok t /\ toks = [t]
  | VList l => toks = map str l \/ (l = [] /\ toks = [""])
  end.

End ValidRecords.


(** ** Numbers in records *)

Section NumberVocabulary.

Import Py.

(** A bool, an int or a float. *)
Definition number (a : scalar) : bool :=
  match num_of a with Some _ => true | None => false end.

Definition is_nan (a : scalar) : bool :=
  match num_of a with Some XNan => true | _ => false end.

(** A number, not a NaN, whose value lies between [lo] and [hi]. *)
Definition in_range (lo hi : Z) (a : scalar) : bool :=
  within (inject_Z lo) (inject_Z hi) (VScalar a).

(** A value [limit_action] can compare with its bounds. *)
Definition number_value (v : value) : bool :=
  match v with
  | VScalar a => number a
  | VList _ => false
  end.

(** The value ['%.3f'] can format, or a list. *)
Definition writable (v : value) : bool :=
  match v with
  | VScalar a => match as_float a with Some _ => true | None => false end
  | VList _ => true
  end.

(** What a [focus] is after [limit_actions] has kept it. *)
Definition focus_kept (v : value) : bool :=
  match v with
  | VScalar (AInt 0) => true
  | VList (_ :: _) => true
  | _ => false
  end.

Definition float_nan : scalar := AFloat S754_nan.

(** [x < y] on exact values; false when a NaN is involved. *)
Definition xlt (x y : xnum) : bool :=
  match xcompare x y with Some Lt => true | _ => false end.

Definition not_nan (x : xnum) : bool :=
  match x with XNan => false | _ => true end.

(** What [limit_action] returns for a number [a] and the int bounds
    [lo] and [hi]: [lo] when [a < lo], else [hi] when [a > hi], else
    [a] itself. *)
Definition clamped (lo hi : Z) (a : scalar) : scalar :=
  match num_of a with
  | Some x =>
      if xlt x (XFin (inject_Z lo)) then AInt lo
      else if xlt (XFin (inject_Z hi)) x then AInt hi
           else a
  | None => a
  end.

(** Not an int of more than 4300 digits: what [str] turns into text
    in every version of Python. *)
Definition short_int (a : scalar) : bool :=
  match a with
  | AInt z => Z.abs z <? 10 ^ 4300
  | _ => true
  end.

(** The lists of the record hold no int of more than 4300 digits. *)
Definition short_lists (d : dict) : bool :=
  forallb (fun kv => match snd kv with
                     | VList l => forallb short_int l
                     | VScalar _ => true
                     end) d.

(** A number that is not a NaN. *)
Definition ordered (a : scalar) : bool :=
  match num_of a with Some x => not_nan x | None => false end.

(** A record whose [steer] is a NaN and whose [focus] is the list
    [nan, 500.0]; the other fields are valid. *)
Definition actions_nan : dict :=
  [("steer", VScalar float_nan);
   ("brake", VScalar (AFloat (S754_zero false)));
   ("accel", VScalar (AFloat float_1));
   ("clutch", VScalar (AFloat (S754_zero false)));
   ("gear", VScalar (AInt 1));
   ("meta", VScalar (AInt 0));
   ("focus", VList [float_nan;
                    AFloat (S754_finite false 8796093022208000 (-44))])].

End NumberVocabulary.

(** ** Decoded records *)

Section DecodedVocabulary.

Import Py PyStr Client.

(** What [destringify] makes of a token: a float, or the token itself
    when [float] rejects it. *)
Definition decoded_scalar (a : scalar) : bool :=
  match a with
  | AFloat _ => true
  | AStr t => match PyFloat.of_string t with
              | None => true
              | Some _ => false
              end
  | _ => false
  end.

(** A scalar, or a list that has not exactly one element. *)
Definition decoded_value (v : value) : bool :=
  match v with
  | VScalar a => decoded_scalar a
  | VList l => negb (Nat.eqb (List.length l) 1) && forallb decoded_scalar l
  end.

(** A float or the empty string. *)
Definition quiet_scalar (a : scalar) : bool :=
  match a with
  | AFloat _ => true
  | AStr EmptyString => true
  | _ => false
  end.

Definition quiet_value (v : value) : bool :=
  match v with
  | VScalar a => quiet_scalar a
  | VList l => forallb quiet_scalar l
  end.

(** The line printed for a token that is not a number. *)
Definition complaint (t : string) : event :=
  Print ("Could not find a value in " ++ t).

(** Segments that the decoder takes apart without loss; a key may
    come more than once. *)
Definition wire_segments (fields : list (string * list string)) : bool :=
  match fields with [] => false | _ => true end
  && forallb (fun kt => token (fst kt)
                        && forallb (all_chars plain) (snd kt)) fields
  && ends_plain (join ")(" (map segment fields)).

(** The record built from the segments, one assignment after the
    other. *)
Definition record_of (fields : list (string * list string)) : dict :=
  fold_left (fun a kt => set (fst kt) (snd (decoded kt)) a) fields [].

(** The keys of [l] that are not in [seen], each once, in the order
    in which they first come. *)
Fixpoint first_keys (seen l : list string) : list string :=
  match l with
  | [] => []
  | k :: r =>
      if existsb (String.eqb k) seen then first_keys seen r
      else k :: first_keys (k :: seen) r
  end.

(** The wire text of the segments, with one closing character. *)
Definition datagram (fields : list (string * list string)) (c : ascii)
  : string :=
  "(" ++ join ")(" (map segment fields) ++ ")" ++ String c "".

End DecodedVocabulary.

(** ** Traces *)

Section TraceVocabulary.

Import Py Client.

(** The datagrams sent, in order. *)
Definition sent (ev : list event) : list string :=
  flat_map (fun e => match e with Sendto m => [m] | _ => [] end) ev.

(** The lines printed, in order. *)
Definition printed (ev : list event) : list string :=
  flat_map (fun e => match e with Print l => [l] | _ => [] end) ev.

(** The turns of the handshake loop in which the init datagram goes
    out: all those before the loop ends, and the last one unless its
    send fails. *)
Fixpoint turns (answers : list turn) : nat :=
  match answers with
  | [] => O
  | a :: rest =>
      if send_fails a then O
      else if identifies a || undecodable a then 1%nat
           else S (turns rest)
  end.

(** An answer that [get_server_input] passes over: a receive that
    fails, or an empty datagram. *)
Definition passed_over (a : received) : bool :=
  match a with
  | RecvError => true
  | RecvData EmptyString => true
  | _ => false
  end.

End TraceVocabulary.

(** ** Track lists *)

Section TrackVocabulary.

Import Py TrackUtilities.

(** The tracks that are not dirt tracks and not one of the speedways
    b to g. *)
Definition eligible_tracks : list string :=
  ["aalborg"; "alpine-1"; "alpine-2"; "brondehach"; "corkscrew"; "eroad";
   "e-track-1"; "e-track-2"; "e-track-3"; "e-track-4"; "e-track-6";
   "forza"; "g-track-1"; "g-track-2"; "g-track-3"; "ole-road-1";
   "ruudskogen"; "spring"; "street-1"; "wheel-1"; "wheel-2";
   "a-speedway"; "e-track-5"; "michigan"].

(** The test of the two [if]s of [create_complete_tracks_list]. *)
Definition selected (track : string) : bool :=
  match category_in TRACK_LIST track with
  | Ok c =>
      negb (String.eqb c "dirt")
      && (negb (String.eqb track "b-speedway")
          && negb (String.eqb track "c-speedway")
          && negb (String.eqb track "d-speedway")
          && negb (String.eqb track "e-speedway")
          && negb (String.eqb track "f-speedway")
          && negb (String.eqb track "g-speedway"))
  | Raise _ => false
  end.

(** How often the text [k] is the [str] of an epsilon. *)
Definition times (k : string) (epsilons : list scalar) : nat :=
  count_occ string_dec (map str epsilons) k.

(** Neither a newline nor a carriage return. *)
Definition in_line (c : ascii) : bool :=
  negb (Ascii.eqb c TrackUtilities.newline)
  && negb (Ascii.eqb c carriage_return).

End TrackVocabulary.

Section MoreTrackVocabulary.

Import Py TrackUtilities.

(** The names of the tracks whose category is not "dirt", in the order
    of the dictionary. *)
Definition not_dirt (TRACK_LIST : list (string * string)) : list string :=
  map fst (filter (fun kc => negb (String.eqb (snd kc) "dirt")) TRACK_LIST).

End MoreTrackVocabulary.
(* ================================================================== *)
(** * Properties *)

Ltac zbool :=
  repeat match goal with
         | |- context [?a <=? ?b] => destruct (Z.leb_spec a b)
         | |- context [?a =? ?b] => destruct (Z.eqb_spec a b)
         end; simpl; try reflexivity; try lia.

(** ** Dictionaries *)

Section DictFacts.

Import Py.

Lemma get_set_same k v d : get k (set k v d) = Some v.
Proof.
  induction d as [|[k' v'] r IH]; simpl.
  - now rewrite String.eqb_refl.
  - destruct (String.eqb k k') eqn:E; simpl; rewrite E; auto.
Qed.

Lemma get_set_other k k' v d : k <> k' -> get k (set k' v d) = get k d.
Proof.
  intro N. induction d as [|[k2 v2] r IH]; simpl.
  - destruct (String.eqb k k') eqn:E; auto.
    apply String.eqb_eq in E. contradiction.
  - destruct (String.eqb k' k2) eqn:E; simpl.
    + apply String.eqb_eq in E. subst k2.
      apply String.eqb_neq in N. now rewrite N.
    + now rewrite IH.
Qed.

Lemma set_get_id k v d : get k d = Some v -> set k v d = d.
Proof.
  induction d as [|[k' v'] r IH]; simpl; [discriminate|].
  destruct (String.eqb k k') eqn:E.
  - intros [= ->]. reflexivity.
  - intro H. now rewrite IH.
Qed.

Lemma keys_set_present k v v0 d :
  get k d = Some v0 -> keys (set k v d) = keys d.
Proof.
  unfold keys.
  induction d as [|[k' v'] r IH]; simpl; [discriminate|].
  destruct (String.eqb k k') eqn:E; simpl; auto.
  intro H. now rewrite IH.
Qed.

Lemma get_none_not_in k d : get k d = None <-> ~ In k (keys d).
Proof.
  unfold keys.
  induction d as [|[k' v'] r IH]; simpl.
  - tauto.
  - destruct (String.eqb k k') eqn:E.
    + apply String.eqb_eq in E. subst. split; [discriminate|tauto].
    + apply String.eqb_neq in E. rewrite IH. split.
      * intros H [H1|H1]; [congruence|tauto].
      * tauto.
Qed.

Lemma set_absent k v d : get k d = None -> set k v d = (d ++ [(k, v)])%list.
Proof.
  induction d as [|[k' v'] r IH]; simpl; auto.
  destruct (String.eqb k k') eqn:E; [discriminate|].
  intro H. now rewrite IH.
Qed.

End DictFacts.

(** ** Handshake *)

Section Handshake.

Import Client.

Lemma restarts_app a b : restarts (a ++ b) = (restarts a + restarts b)%nat.
Proof. unfold restarts. now rewrite filter_app, length_app. Qed.

(** The loop entered with [tries] left: one restart if the counter
    passes through zero, none otherwise. *)
Lemma connect_loop_restarts sid port answers : forall tries,
  restarts (fst (connect_loop sid port tries answers)) =
  if (1 <=? tries) && (tries <=? Z.of_nat (timeouts answers))
  then 1%nat else 0%nat.
Proof.
  induction answers as [|a rest IH]; intro tries.
  - simpl. zbool.
  - cbn [connect_loop timeouts]. unfold ends, identifies, undecodable.
    destruct (send_fails a); cbn [orb fst].
    { change (restarts []) with 0%nat. zbool. }
    destruct (recv a) as [|s|]; cbn [orb].
    + specialize (IH (tries - 1)).
      destruct (connect_loop sid port (tries - 1) rest) as [ev st].
      cbn [fst] in *.
      change (Sendto ?m :: Print ?p :: ?r ++ ev)%list
        with ([Sendto m; Print p] ++ r ++ ev)%list.
      rewrite !restarts_app, IH, Nat2Z.inj_succ.
      change (restarts [Sendto _; Print _]) with 0%nat.
      destruct (Z.eqb_spec (tries - 1) 0).
      * change (restarts [Print _; ServerRestart]) with 1%nat. zbool.
      * change (restarts []) with 0%nat. zbool.
    + destruct (PyStr.contains identify s) eqn:C; cbn [orb fst].
      * change (restarts [_; _]) with 0%nat. zbool.
      * specialize (IH tries).
        destruct (connect_loop sid port tries rest) as [ev st].
        cbn [fst] in *.
        change (Sendto ?m :: ev) with ([Sendto m] ++ ev)%list.
        rewrite restarts_app, IH. reflexivity.
    + change (restarts [_]) with 0%nat. zbool.
Qed.

(** How the loop stands after the answers: it goes on waiting with the
    counter lowered once per timeout, returns on an identifying reply,
    and ends otherwise only on a failed send or an undecodable
    datagram. *)
Lemma connect_loop_status sid port answers : forall tries,
  match snd (connect_loop sid port tries answers) with
  | Connected => existsb identifies answers = true
  | Waiting t => t = tries - Z.of_nat (timeouts answers)
                 /\ existsb ends answers = false
  | Exited c => c = -1 /\ existsb send_fails answers = true
  | Raised e => e = UnicodeDecodeError /\ existsb undecodable answers = true
  end.
Proof.
  induction answers as [|a rest IH]; intro tries; simpl.
  - split; [lia|reflexivity].
  - unfold ends, identifies, undecodable.
    destruct (send_fails a); simpl; [split; reflexivity|].
    destruct (recv a) as [|s|]; simpl.
    + specialize (IH (tries - 1)).
      destruct (connect_loop sid port (tries - 1) rest) as [ev st]; simpl in *.
      destruct st; auto. destruct IH as [-> E]. split; [lia|exact E].
    + destruct (PyStr.contains identify s) eqn:C; simpl; auto.
      specialize (IH tries).
      destruct (connect_loop sid port tries rest) as [ev st]; simpl in *.
      destruct st; auto.
    + split; reflexivity.
Qed.

Lemma timeouts_repeat n : timeouts (repeat timeout n) = n.
Proof. induction n; simpl; auto. Qed.

End Handshake.

(** ** Validation *)

Section Validation.

Import Py Client.
Local Open Scope py_scope.

Lemma step_assign k f (rest1 rest2 : M unit) :
  (forall d, rest1 d = rest2 d) ->
  forall d,
    (v <- getitem k ;; v <- lift (f v) ;; setitem k v ;; rest1) d
    = (update k f ;; rest2) d.
Proof.
  intros E d. unfold bind, getitem, lift, setitem, update.
  destruct (get k d) as [v|]; auto.
  destruct (f v) as [v'|e]; auto.
Qed.

Lemma step_reset k l (rest1 rest2 : M unit) :
  (forall d, rest1 d = rest2 d) ->
  forall d,
    (g <- getitem k ;;
     (if negb (in_ints g l) then setitem k (AInt 0) else ret tt) ;; rest1) d
    = (update k (keep_if_in l) ;; rest2) d.
Proof.
  intros E d. unfold bind, getitem, setitem, update, keep_if_in, ret.
  destruct (get k d) as [v|] eqn:G; auto.
  destruct (in_ints v l); simpl; auto.
  now rewrite (set_get_id _ _ _ G).
Qed.

Lemma bind_getitem {B} k v d (f : value -> M B) :
  get k d = Some v -> (x <- getitem k ;; f x) d = f v d.
Proof. intro G. unfold bind, getitem. now rewrite G. Qed.

Lemma bind_lift {A B} (r : result A) (f : A -> M B) d :
  (x <- lift r ;; f x) d
  = match r with Ok a => f a d | Raise e => (d, Raise e) end.
Proof. unfold bind, lift. destruct r; reflexivity. Qed.

(** The test on [focus] leaves the record as it is. *)
Lemma focus_rejected_eq d l :
  get "focus" d = Some (VList l) ->
  focus_rejected d
  = (d, lo <~ min (VList l) ;
        b <~ scalar_lt lo (AInt (-180)) ;
        if b then Ok true
        else hi <~ max (VList l) ; scalar_gt hi (AInt 180))%py.
Proof.
  intro G. unfold focus_rejected.
  rewrite (bind_getitem _ _ _ _ G). cbv beta iota.
  rewrite (bind_getitem _ _ _ _ G), bind_lift.
  destruct (min (VList l)) as [lo|e]; [|reflexivity].
  rewrite bind_lift. cbn [rbind].
  destruct (scalar_lt lo (AInt (-180))) as [[|]|e]; try reflexivity.
  rewrite (bind_getitem _ _ _ _ G), bind_lift.
  destruct (max (VList l)) as [hi|e]; reflexivity.
Qed.

Lemma step_focus d :
  (r <- focus_rejected ;; if r then setitem "focus" (AInt 0) else ret tt) d
  = update "focus" keep_focus d.
Proof.
  unfold update, keep_focus.
  destruct (get "focus" d) as [v|] eqn:G.
  - destruct v as [a|l].
    + unfold bind at 1. unfold focus_rejected.
      rewrite (bind_getitem _ _ _ _ G). reflexivity.
    + unfold bind at 1. rewrite (focus_rejected_eq _ _ G).
      destruct (min (VList l)) as [lo|e]; [|reflexivity]. cbn [rbind].
      destruct (scalar_lt lo (AInt (-180))) as [[|]|e]; try reflexivity.
      destruct (max (VList l)) as [hi|e]; [|reflexivity]. cbn [rbind].
      destruct (scalar_gt hi (AInt 180)) as [[|]|e]; try reflexivity.
      unfold ret. cbn [rbind]. now rewrite (set_get_id _ _ _ G).
  - unfold bind, focus_rejected, bind, getitem. now rewrite G.
Qed.

(** [limit_actions] rewrites its seven fields one after the other. *)
Lemma limit_actions_updates d : limit_actions d = updates field_rules d.
Proof.
  unfold limit_actions, field_rules. cbn [updates].
  revert d.
  do 4 apply step_assign.
  do 2 apply step_reset.
  intro d. rewrite step_focus.
  unfold bind, ret. destruct (update "focus" keep_focus d) as [d' [[]|e]]; auto.
Qed.

Lemma update_get_other k f k' d :
  k' <> k -> get k' (fst (update k f d)) = get k' d.
Proof.
  intro N. unfold update.
  destruct (get k d) as [v|]; auto.
  destruct (f v) as [v'|e]; auto. simpl. now apply get_set_other.
Qed.

Lemma update_keys k f d : keys (fst (update k f d)) = keys d.
Proof.
  unfold update.
  destruct (get k d) as [v|] eqn:G; auto.
  destruct (f v) as [v'|e]; auto. simpl. eapply keys_set_present; eauto.
Qed.

Lemma updates_get_other us : forall d k,
  ~ In k (map fst us) -> get k (fst (updates us d)) = get k d.
Proof.
  induction us as [|[k0 f] r IH]; intros d k N; simpl; auto.
  unfold bind.
  destruct (update k0 f d) as [d1 [[]|e]] eqn:U.
  - rewrite IH by (simpl in N; tauto).
    change d1 with (fst (d1, @Ok unit tt)). rewrite <- U.
    apply update_get_other. simpl in N. intro; subst; tauto.
  - simpl. change d1 with (fst (d1, @Raise unit e)). rewrite <- U.
    apply update_get_other. simpl in N. intro; subst; tauto.
Qed.

Lemma updates_keys us : forall d, keys (fst (updates us d)) = keys d.
Proof.
  induction us as [|[k0 f] r IH]; intro d; simpl; auto.
  unfold bind.
  destruct (update k0 f d) as [d1 [[]|e]] eqn:U.
  - rewrite IH. change d1 with (fst (d1, @Ok unit tt)). rewrite <- U.
    apply update_keys.
  - simpl. change d1 with (fst (d1, @Raise unit e)). rewrite <- U.
    apply update_keys.
Qed.

Lemma updates_cons k f r d :
  updates ((k, f) :: r) d
  = match get k d with
    | None => (d, Raise (KeyError k))
    | Some v =>
        match f v with
        | Ok v' => updates r (set k v' d)
        | Raise e => (d, Raise e)
        end
    end.
Proof.
  cbn [updates]. unfold bind, update.
  destruct (get k d) as [v|]; auto. destruct (f v); auto.
Qed.

(** Rewriting the fields a second time changes nothing, whether the
    first pass returned or raised. *)
Lemma updates_idempotent us :
  NoDup (map fst us) ->
  (forall k f v v', In (k, f) us -> f v = Ok v' -> f v' = Ok v') ->
  forall d, updates us (fst (updates us d)) = updates us d.
Proof.
  induction us as [|[k f] r IH]; intros ND I d; [reflexivity|].
  inversion ND as [|? ? NI ND']; subst.
  assert (I' : forall k f v v', In (k, f) r -> f v = Ok v' -> f v' = Ok v')
    by (intros; eapply I; [right|]; eauto).
  rewrite (updates_cons k f r d).
  destruct (get k d) as [v|] eqn:G.
  - destruct (f v) as [v'|e] eqn:F.
    + assert (G2 : get k (fst (updates r (set k v' d))) = Some v').
      { rewrite updates_get_other by exact NI. apply get_set_same. }
      rewrite updates_cons, G2.
      rewrite (I k f v v' (or_introl eq_refl) F).
      rewrite (set_get_id _ _ _ G2). apply IH; assumption.
    + cbn [fst]. now rewrite updates_cons, G, F.
  - cbn [fst]. now rewrite updates_cons, G.
Qed.

(** When every rule accepts its field, the pass returns and each field
    holds what its rule made of it. *)
Lemma updates_ok us :
  NoDup (map fst us) ->
  forall d,
    Forall (fun kf => exists v v', get (fst kf) d = Some v
                                   /\ snd kf v = Ok v') us ->
    snd (updates us d) = Ok tt /\
    forall k f, In (k, f) us ->
      exists v v', get k d = Some v /\ f v = Ok v'
                   /\ get k (fst (updates us d)) = Some v'.
Proof.
  induction us as [|[k f] r IH]; intros ND d A.
  - split; [reflexivity|intros ? ? []].
  - inversion ND as [|? ? NI ND']; subst.
    inversion A as [|? ? [v [v' [G F]]] A']; subst. cbn [fst snd] in G, F.
    rewrite updates_cons, G, F.
    assert (NK : forall k1 f1, In (k1, f1) r -> k1 <> k).
    { intros k1 f1 H1 ->. apply NI. apply in_map_iff. now exists (k, f1). }
    assert (A1 : Forall (fun kf => exists v v0,
                             get (fst kf) (set k v' d) = Some v
                             /\ snd kf v = Ok v0) r).
    { rewrite Forall_forall in *. intros [k1 f1] H1.
      destruct (A' _ H1) as [w [w' [G1 F1]]]. exists w, w'. split; auto.
      cbn [fst] in *. rewrite get_set_other; eauto. }
    destruct (IH ND' (set k v' d) A1) as [S1 R1].
    split; [exact S1|].
    intros k1 f1 [E|H1].
    + inversion E; subst. exists v, v'. repeat split; auto.
      rewrite updates_get_other by exact NI. apply get_set_same.
    + destruct (R1 _ _ H1) as [w [w' [G1 [F1 G2]]]].
      exists w, w'.
      rewrite get_set_other in G1 by eauto. repeat split; auto.
Qed.

(** When the pass has returned, every rule has accepted its field and
    the field holds what the rule made of it. *)
Lemma updates_inv us :
  NoDup (map fst us) ->
  forall d,
    snd (updates us d) = Ok tt ->
    forall k f, In (k, f) us ->
      exists v v', get k d = Some v /\ f v = Ok v'
                   /\ get k (fst (updates us d)) = Some v'.
Proof.
  induction us as [|[k f] r IH]; intros ND d S k1 f1 H1; [destruct H1|].
  inversion ND as [|? ? NI ND']; subst.
  rewrite updates_cons in S |- *.
  destruct (get k d) as [v|] eqn:G; [|discriminate].
  destruct (f v) as [v'|e] eqn:F; [|discriminate].
  destruct H1 as [E|H1].
  - inversion E; subst. exists v, v'. repeat split; auto.
    rewrite updates_get_other by exact NI. apply get_set_same.
  - destruct (IH ND' _ S _ _ H1) as [w [w' [G1 [F1 G2]]]].
    exists w, w'.
    assert (k1 <> k).
    { intros ->. apply NI. apply in_map_iff. now exists (k, f1). }
    rewrite get_set_other in G1 by auto. repeat split; auto.
Qed.

End Validation.

(** ** Numbers *)

Section Numbers.

Import Py Client.
Local Open Scope py_scope.

Lemma Qcompare_inject_Z a b : (inject_Z a ?= inject_Z b)%Q = (a ?= b).
Proof. unfold Qcompare, inject_Z; simpl. now rewrite !Z.mul_1_r. Qed.

Lemma scalar_lt_int a b : scalar_lt (AInt a) (AInt b) = Ok (a <? b).
Proof.
  unfold scalar_lt; simpl. rewrite Qcompare_inject_Z. unfold Z.ltb.
  destruct (a ?= b); reflexivity.
Qed.

Lemma limit_action_idempotent lo hi v v' :
  lo <= hi ->
  limit_action v (AInt lo) (AInt hi) = Ok v' ->
  limit_action v' (AInt lo) (AInt hi) = Ok v'.
Proof.
  intros L. unfold limit_action.
  assert (E1 : lt (AInt lo) (AInt lo) = Ok false)
    by (cbn [lt]; rewrite scalar_lt_int, Z.ltb_irrefl; reflexivity).
  assert (E2 : gt (AInt lo) (AInt hi) = Ok false).
  { cbn [gt]. unfold scalar_gt. rewrite scalar_lt_int.
    destruct (Z.ltb_spec hi lo); [lia|reflexivity]. }
  assert (E3 : lt (AInt hi) (AInt lo) = Ok false).
  { cbn [lt]. rewrite scalar_lt_int.
    destruct (Z.ltb_spec hi lo); [lia|reflexivity]. }
  assert (E4 : gt (AInt hi) (AInt hi) = Ok false)
    by (cbn [gt]; unfold scalar_gt; rewrite scalar_lt_int, Z.ltb_irrefl;
        reflexivity).
  destruct (lt v (AInt lo)) as [[|]|e] eqn:A; cbn [rbind]; try discriminate.
  - intros [= <-]. now rewrite E1, E2.
  - destruct (gt v (AInt hi)) as [[|]|e] eqn:B; cbn [rbind]; try discriminate.
    + intros [= <-]. now rewrite E3, E4.
    + intros [= <-]. now rewrite A, B.
Qed.

Lemma keep_if_in_idempotent l v v' :
  existsb (Z.eqb 0) l = true ->
  keep_if_in l v = Ok v' -> keep_if_in l v' = Ok v'.
Proof.
  intros Z0. unfold keep_if_in. intros [= <-].
  destruct (in_ints v l) eqn:E.
  - now rewrite E.
  - assert (in_ints (AInt 0) l = true) as ->; [|reflexivity].
    simpl. rewrite existsb_exists in *. destruct Z0 as [z [I Ez]].
    exists z. split; auto. apply Z.eqb_eq in Ez. subst z. reflexivity.
Qed.

Lemma keep_focus_idempotent v v' :
  keep_focus v = Ok v' -> keep_focus v' = Ok v'.
Proof.
  unfold keep_focus. destruct v as [a|l].
  - intros [= <-]. reflexivity.
  - destruct (min (VList l)) as [lo|e] eqn:A; cbn [rbind]; try discriminate.
    destruct (scalar_lt lo (AInt (-180))) as [[|]|e] eqn:B; cbn [rbind];
      try discriminate.
    + intros [= <-]. reflexivity.
    + destruct (max (VList l)) as [hi|e] eqn:C; cbn [rbind]; try discriminate.
      destruct (scalar_gt hi (AInt 180)) as [[|]|e] eqn:D; cbn [rbind];
        try discriminate.
      * intros [= <-]. reflexivity.
      * intros [= <-]. rewrite A. cbn [rbind]. rewrite B. cbn [rbind].
        rewrite C. cbn [rbind]. now rewrite D.
Qed.

Lemma field_rules_keys : map fst field_rules = action_fields.
Proof. reflexivity. Qed.

Lemma action_fields_NoDup : NoDup action_fields.
Proof.
  unfold action_fields.
  repeat (constructor; [simpl; intuition discriminate|]). constructor.
Qed.

Lemma field_rules_idempotent k f v v' :
  In (k, f) field_rules -> f v = Ok v' -> f v' = Ok v'.
Proof.
  unfold field_rules. simpl.
  intros [E|[E|[E|[E|[E|[E|[E|[]]]]]]]]; inversion E; subst; clear E.
  - apply limit_action_idempotent; lia.
  - apply limit_action_idempotent; lia.
  - apply limit_action_idempotent; lia.
  - apply limit_action_idempotent; lia.
  - apply keep_if_in_idempotent; reflexivity.
  - apply keep_if_in_idempotent; reflexivity.
  - apply keep_focus_idempotent.
Qed.

Lemma Qle_bool_compare_lt p q : Qle_bool p q = true -> (q ?= p)%Q <> Lt.
Proof.
  intros H C. apply Qle_bool_iff in H.
  exact (Qlt_not_le _ _ (proj2 (Qlt_alt _ _) C) H).
Qed.

(** A number within the bounds is left as it is. *)
Lemma limit_action_within lo hi v :
  within (inject_Z lo) (inject_Z hi) v = true ->
  limit_action v (AInt lo) (AInt hi) = Ok v.
Proof.
  unfold within, limit_action. destruct v as [a|l]; [|discriminate].
  destruct (num_of a) as [[| |q]|] eqn:N; try discriminate.
  intro H. apply andb_prop in H. destruct H as [H1 H2].
  apply Qle_bool_compare_lt in H1, H2.
  cbn [lt gt]. unfold scalar_gt, scalar_lt. rewrite N. cbn [num_of xcompare].
  destruct (q ?= inject_Z lo)%Q eqn:A; try congruence;
    destruct (inject_Z hi ?= q)%Q eqn:B; try congruence; reflexivity.
Qed.

(** What [limit_action] returns is a number within the bounds, if a
    number with a value at all. *)
Lemma limit_action_range lo hi v a q :
  lo <= hi ->
  limit_action v (AInt lo) (AInt hi) = Ok (VScalar a) ->
  num_of a = Some (XFin q) ->
  (inject_Z lo <= q <= inject_Z hi)%Q.
Proof.
  intros L. unfold limit_action.
  destruct (lt v (AInt lo)) as [[|]|e] eqn:A; cbn [rbind]; try discriminate.
  - intros [= <-]. cbn [num_of]. intros [= <-].
    split; [apply Qle_refl|]. rewrite <- Zle_Qle. exact L.
  - destruct (gt v (AInt hi)) as [[|]|e] eqn:B; cbn [rbind]; try discriminate.
    + intros [= <-]. cbn [num_of]. intros [= <-].
      split; [|apply Qle_refl]. rewrite <- Zle_Qle. exact L.
    + intros [= ->] N. cbn [lt gt] in A, B.
      unfold scalar_gt, scalar_lt in A, B. rewrite N in A, B.
      cbn [num_of xcompare] in A, B.
      split; apply Qnot_lt_le; intro C;
        pose proof (proj1 (Qlt_alt _ _) C) as C'; rewrite C' in *;
        discriminate.
Qed.

End Numbers.

(** ** Off-track test *)

Section OffTrack.

Import Py.

Lemma to_Q_abs f :
  PyFloat.to_Q (SFabs f) = Qabs (PyFloat.to_Q f).
Proof.
  destruct f as [s|s| |s m e]; try reflexivity.
  unfold PyFloat.to_Q, SFabs. destruct e as [|p|p].
  - destruct s; reflexivity.
  - unfold Qabs, inject_Z. f_equal. cbn [cond_Zopp].
    assert (0 <= 2 ^ Z.pos p) by (apply Z.pow_nonneg; lia).
    destruct s; cbn [cond_Zopp]; rewrite Z.abs_mul, (Z.abs_eq (2 ^ _)) by lia;
      reflexivity.
  - destruct s; reflexivity.
Qed.

(** [abs] of a number is the number with the absolute value. *)
Lemma abs_value a x :
  num_of a = Some x ->
  exists a', abs (VScalar a) = Ok a'
             /\ num_of a' = Some match x with
                                 | XNan => XNan
                                 | XInf _ => XInf false
                                 | XFin q => XFin (Qabs q)
                                 end.
Proof.
  destruct a as [|b|z|f|s]; cbn [num_of]; try discriminate.
  - intros [= <-]. exists (AInt (if b then 1 else 0)). split; [reflexivity|].
    destruct b; reflexivity.
  - intros [= <-]. exists (AInt (Z.abs z)). split; reflexivity.
  - intro H. exists (AFloat (SFabs f)). split; [reflexivity|].
    destruct f as [s|s| |s m e]; injection H as <-.
    + change (Some (XFin (PyFloat.to_Q (SFabs (S754_zero s))))
              = Some (XFin (Qabs (PyFloat.to_Q (S754_zero s))))).
      now rewrite to_Q_abs.
    + reflexivity.
    + reflexivity.
    + change (Some (XFin (PyFloat.to_Q (SFabs (S754_finite s m e))))
              = Some (XFin (Qabs (PyFloat.to_Q (S754_finite s m e))))).
      now rewrite to_Q_abs.
Qed.

(** On a numeric [trackPos], [check_sensors] restarts the race exactly
    when its absolute value exceeds 1. *)
Lemma check_sensors_numeric gui sensors a x :
  get "trackPos" sensors = Some (VScalar a) ->
  num_of a = Some x ->
  (Environment.check_sensors gui sensors
   = Ok (Print "out of track!" :: Environment.restart_race gui)
   <-> exceeds_one x)
  /\ (Environment.check_sensors gui sensors = Ok [] <-> ~ exceeds_one x).
Proof.
  intros G N. unfold Environment.check_sensors. rewrite G.
  destruct (abs_value a x N) as [a' [A N']]. rewrite A. cbn [rbind].
  unfold scalar_gt, scalar_lt. rewrite N'. cbn [num_of].
  destruct x as [|s|q]; cbn [xcompare rbind exceeds_one].
  - split; split; intros; try discriminate; tauto.
  - split; split; intros; try discriminate; tauto.
  - assert (L : (1 < Qabs q)%Q <-> (inject_Z 1 ?= Qabs q)%Q = Lt)
      by apply Qlt_alt.
    rewrite L.
    destruct (inject_Z 1 ?= Qabs q)%Q; split; split; intros;
      try discriminate; try reflexivity; try congruence.
Qed.

End OffTrack.

(** ** Strings *)

Section Strings.

Import PyStr.

Lemma sapp_assoc (a b c : string) : (a ++ b) ++ c = a ++ (b ++ c).
Proof. induction a; simpl; congruence. Qed.

Lemma sapp_nil_r (a : string) : a ++ "" = a.
Proof. induction a; simpl; congruence. Qed.

Lemma slength_app (a b : string) :
  String.length (a ++ b) = (String.length a + String.length b)%nat.
Proof. induction a; simpl; congruence. Qed.

Lemma all_chars_app p a b :
  all_chars p (a ++ b) = all_chars p a && all_chars p b.
Proof.
  induction a; simpl; auto. rewrite IHa. now rewrite andb_assoc.
Qed.

Lemma all_chars_impl (p q : ascii -> bool) s :
  (forall c, p c = true -> q c = true) ->
  all_chars p s = true -> all_chars q s = true.
Proof.
  intro I. induction s; simpl; auto.
  intro H. apply andb_prop in H. destruct H as [H1 H2].
  rewrite (I _ H1). simpl. auto.
Qed.

Lemma all_chars_repeat p c n :
  p c = true -> all_chars p (repeat_char c n) = true.
Proof. intro H. induction n; simpl; auto. now rewrite H. Qed.

(** *** [split] *)

Lemma is_prefix_app p r : is_prefix p (p ++ r) = true.
Proof. induction p; simpl; auto. now rewrite Ascii.eqb_refl. Qed.

Lemma split_go_skip sep s : forall rest,
  split_go sep (s ++ rest) (String.length s) = split_go sep rest 0.
Proof. induction s; intro rest; simpl; auto. Qed.

Lemma split_go_nonempty sep s : forall k, split_go sep s k <> [].
Proof.
  induction s as [|c r IH]; intro k; simpl; [discriminate|].
  destruct k; [|apply IH].
  destruct (is_prefix sep (String c r)); [discriminate|].
  destruct (split_go sep r 0); discriminate.
Qed.

(** A segment free of the separator's first character is split off
    whole. *)
Lemma split_segment c0 sep' seg :
  all_chars (fun c => negb (Ascii.eqb c c0)) seg = true ->
  split (String c0 sep') seg = [seg]
  /\ forall more,
       split (String c0 sep') (seg ++ String c0 sep' ++ more)
       = seg :: split (String c0 sep') more.
Proof.
  unfold split. induction seg as [|c r IH]; intro H.
  - split; [reflexivity|]. intro more.
    change ("" ++ String c0 sep' ++ more) with (String c0 (sep' ++ more)).
    cbn [split_go is_prefix]. rewrite Ascii.eqb_refl, is_prefix_app.
    cbn [andb String.length pred]. now rewrite split_go_skip.
  - simpl in H. apply andb_prop in H. destruct H as [H1 H2].
    destruct (IH H2) as [IH1 IH2].
    assert (E : Ascii.eqb c0 c = false).
    { rewrite Ascii.eqb_sym. now apply negb_true_iff. }
    split.
    + cbn [split_go is_prefix]. rewrite E. cbn [andb]. now rewrite IH1.
    + intro more. specialize (IH2 more).
      set (Y := String c0 sep' ++ more) in *.
      change (String c r ++ Y) with (String c (r ++ Y)).
      cbn [split_go is_prefix]. rewrite E. cbn [andb].
      now rewrite IH2.
Qed.

Lemma split_join c0 sep' segs :
  segs <> [] ->
  Forall (fun seg => all_chars (fun c => negb (Ascii.eqb c c0)) seg = true)
         segs ->
  split (String c0 sep') (join (String c0 sep') segs) = segs.
Proof.
  induction segs as [|seg r IH]; intros NE F; [congruence|].
  inversion F as [|? ? H1 H2]; subst.
  destruct (split_segment c0 sep' seg H1) as [S1 S2].
  destruct r as [|seg2 r'].
  - exact S1.
  - change (join (String c0 sep') (seg :: seg2 :: r'))
      with (seg ++ String c0 sep' ++ join (String c0 sep') (seg2 :: r')).
    rewrite S2, IH; [reflexivity|discriminate|assumption].
Qed.

(** *** [strip], [lstrip], [rstrip], [s[:-1]] *)

Lemma rstrip_by_empty_iff p s :
  rstrip_by p s = "" <-> all_chars p s = true.
Proof.
  induction s as [|c r IH]; simpl; [tauto|].
  destruct (rstrip_by p r) eqn:E.
  - destruct (p c); simpl.
    + rewrite <- IH. tauto.
    + split; discriminate.
  - split; [discriminate|].
    intro H. apply andb_prop in H. destruct H as [_ H].
    apply IH in H. discriminate.
Qed.

Lemma rstrip_by_app p a b :
  rstrip_by p (a ++ b)
  = match rstrip_by p b with
    | "" => rstrip_by p a
    | r => a ++ r
    end.
Proof.
  induction a as [|c a IH]; simpl.
  - destruct (rstrip_by p b); reflexivity.
  - rewrite IH. destruct (rstrip_by p b) as [|x r]; [reflexivity|].
    destruct a; reflexivity.
Qed.

(** Nothing is stripped after a character that is kept. *)
Lemma rstrip_by_keep p a c :
  p c = false -> rstrip_by p (a ++ String c "") = a ++ String c "".
Proof.
  intro H. rewrite rstrip_by_app. simpl. now rewrite H.
Qed.

Lemma rstrip_by_drop p a c :
  p c = true -> rstrip_by p (a ++ String c "") = rstrip_by p a.
Proof.
  intro H. rewrite rstrip_by_app. simpl. now rewrite H.
Qed.

Lemma drop_last_app a c : drop_last (a ++ String c "") = a.
Proof.
  induction a as [|x a IH]; simpl; auto.
  rewrite IH. destruct a; reflexivity.
Qed.

Lemma lstrip_by_keep p c r : p c = false -> lstrip_by p (String c r) = String c r.
Proof. intro H. simpl. now rewrite H. Qed.

(** A string ends with a character or is empty. *)
Lemma string_last_cases (s : string) :
  s = "" \/ exists a c, s = a ++ String c "".
Proof.
  induction s as [|x r IH]; [now left|right].
  destruct IH as [->|[a [c ->]]].
  - now exists "", x.
  - now exists (String x a), c.
Qed.

Lemma all_chars_last p a c :
  all_chars p (a ++ String c "") = true -> p c = true.
Proof.
  rewrite all_chars_app. simpl. intro H.
  apply andb_prop in H. destruct H as [_ H].
  now rewrite andb_true_r in H.
Qed.

End Strings.

(** ** Characters and decimal digits *)

Ltac ascii_cases c :=
  destruct c as [[] [] [] [] [] [] [] []].

Section Digits.

Import PyStr Dec.

Lemma is_digit_spec c :
  is_digit c = true ->
  c = digit_char (digit_val c) /\ 0 <= digit_val c <= 9.
Proof.
  ascii_cases c; intro H; try discriminate H;
    (split; [reflexivity|vm_compute; split; discriminate]).
Qed.

Lemma digit_is_digit_like c : is_digit c = true -> digit_like c = true.
Proof. ascii_cases c; intro H; try discriminate H; reflexivity. Qed.

Lemma digit_char_spec d :
  0 <= d <= 9 ->
  is_digit (digit_char d) = true /\ digit_val (digit_char d) = d.
Proof.
  intro H.
  assert (d = 0 \/ d = 1 \/ d = 2 \/ d = 3 \/ d = 4 \/ d = 5 \/ d = 6
          \/ d = 7 \/ d = 8 \/ d = 9) as C by lia.
  repeat (destruct C as [->|C]; [split; reflexivity|]).
  subst; split; reflexivity.
Qed.

Lemma value_from_app a x y :
  value_from a (x ++ y) = value_from (value_from a x) y.
Proof. revert a. induction x as [|c x IH]; intro b; simpl; auto. Qed.

Lemma digits_fuel_S f n accs :
  digits_fuel (S f) n accs
  = if n <? 10 then String (digit_char (n mod 10)) accs
    else digits_fuel f (n / 10) (String (digit_char (n mod 10)) accs).
Proof. reflexivity. Qed.

(** The digits written for [n] are digits, at least one, and are worth
    [n]. *)
Lemma digits_fuel_spec f : forall n accs,
  0 <= n < 2 ^ Z.of_nat (S f) ->
  exists ds,
    digits_fuel (S f) n accs = ds ++ accs
    /\ ds <> ""
    /\ all_chars is_digit ds = true
    /\ forall a, value_from a ds
                 = a * 10 ^ Z.of_nat (String.length ds) + n.
Proof.
  induction f as [|f IH]; intros n accs H.
  - assert (n < 10) by (change (2 ^ Z.of_nat 1) with 2 in H; lia).
    rewrite digits_fuel_S. destruct (Z.ltb_spec n 10); [|lia].
    rewrite Z.mod_small by lia.
    exists (String (digit_char n) "").
    destruct (digit_char_spec n) as [D V]; [lia|].
    split; [reflexivity|]. split; [discriminate|].
    split; [simpl; now rewrite D|].
    intro a. cbn [value_from String.length]. rewrite V.
      change (10 ^ Z.of_nat 1) with 10. lia.
  - rewrite digits_fuel_S. destruct (Z.ltb_spec n 10).
    + rewrite Z.mod_small by lia.
      exists (String (digit_char n) "").
      destruct (digit_char_spec n) as [D V]; [lia|].
      split; [reflexivity|]. split; [discriminate|].
      split; [simpl; now rewrite D|].
      intro a. cbn [value_from String.length]. rewrite V.
      change (10 ^ Z.of_nat 1) with 10. lia.
    + assert (B : 0 <= n / 10 < 2 ^ Z.of_nat (S f)).
      { split; [apply Z.div_pos; lia|].
        apply Z.div_lt_upper_bound; [lia|].
        rewrite (Nat2Z.inj_succ (S f)), Z.pow_succ_r in H by lia. lia. }
      destruct (IH (n / 10) (String (digit_char (n mod 10)) accs) B)
        as [ds [E [NE [D V]]]].
      exists (ds ++ String (digit_char (n mod 10)) "").
      assert (M : 0 <= n mod 10 <= 9)
        by (pose proof (Z.mod_pos_bound n 10); lia).
      destruct (digit_char_spec _ M) as [Dd Vd].
      split; [|split; [|split]].
      * rewrite E, sapp_assoc. reflexivity.
      * destruct ds; discriminate.
      * rewrite all_chars_app, D. simpl. now rewrite Dd.
      * intro a. rewrite value_from_app, V. cbn [value_from]. rewrite Vd.
        rewrite slength_app. cbn [String.length].
        rewrite Nat2Z.inj_add, Z.pow_add_r by lia.
        change (10 ^ Z.of_nat 1) with 10.
        pose proof (Z.div_mod n 10). lia.
Qed.

Lemma of_Z_spec n :
  0 <= n ->
  of_Z n <> ""
  /\ all_chars is_digit (of_Z n) = true
  /\ value (of_Z n) = n.
Proof.
  intro H. unfold of_Z, value.
  destruct (digits_fuel_spec (Z.to_nat (Z.log2 n)) n "") as [ds [E [NE [D V]]]].
  - split; [lia|].
    rewrite Nat2Z.inj_succ, Z2Nat.id by apply Z.log2_nonneg.
    destruct (Z.eq_dec n 0) as [->|]; [reflexivity|].
    apply Z.log2_spec. lia.
  - rewrite E, sapp_nil_r. split; [exact NE|]. split; [exact D|].
    rewrite V. lia.
Qed.

Lemma span_digits_app ds rest :
  all_chars is_digit ds = true ->
  match rest with
  | "" => True
  | String c _ => is_digit c = false
  end ->
  span_digits (ds ++ rest) = (ds, rest).
Proof.
  intros D R. induction ds as [|c r IH]; simpl.
  - destruct rest as [|c r]; [reflexivity|]. simpl. now rewrite R.
  - simpl in D. apply andb_prop in D. destruct D as [D1 D2].
    rewrite D1, (IH D2). reflexivity.
Qed.

Lemma span_digits_all ds :
  all_chars is_digit ds = true -> span_digits ds = (ds, "").
Proof.
  intro D. pose proof (span_digits_app ds "" D I) as H.
  now rewrite sapp_nil_r in H.
Qed.

Lemma pad3_spec n :
  0 <= n < 1000 ->
  all_chars is_digit (pad3 n) = true
  /\ String.length (pad3 n) = 3%nat
  /\ forall a, value_from a (pad3 n) = a * 1000 + n.
Proof.
  intro H. unfold pad3.
  assert (B1 : 0 <= n / 100 <= 9).
  { split; [apply Z.div_pos; lia|].
    assert (n / 100 < 10) by (apply Z.div_lt_upper_bound; lia). lia. }
  assert (B2 : 0 <= n / 10 mod 10 <= 9)
    by (pose proof (Z.mod_pos_bound (n / 10) 10); lia).
  assert (B3 : 0 <= n mod 10 <= 9)
    by (pose proof (Z.mod_pos_bound n 10); lia).
  destruct (digit_char_spec _ B1) as [D1 V1].
  destruct (digit_char_spec _ B2) as [D2 V2].
  destruct (digit_char_spec _ B3) as [D3 V3].
  split; [|split].
  - simpl. now rewrite D1, D2, D3.
  - reflexivity.
  - intro a. cbn [value_from]. rewrite V1, V2, V3.
    pose proof (Z.div_mod n 10). pose proof (Z.div_mod (n / 10) 10).
    assert (n / 10 / 10 = n / 100) by (rewrite Z.div_div by lia; reflexivity).
    lia.
Qed.

End Digits.

(** ** Reading a formatted number back *)

Section FloatText.

Import PyStr Dec PyFloat.

Lemma rstrip_by_id p s :
  all_chars (fun c => negb (p c)) s = true -> rstrip_by p s = s.
Proof.
  induction s as [|c r IH]; simpl; auto.
  intro H. apply andb_prop in H. destruct H as [H1 H2].
  rewrite (IH H2). apply negb_true_iff in H1. rewrite H1.
  destruct r; reflexivity.
Qed.

Lemma lstrip_by_id p s :
  all_chars (fun c => negb (p c)) s = true -> lstrip_by p s = s.
Proof.
  destruct s as [|c r]; simpl; auto.
  intro H. apply andb_prop in H. destruct H as [H1 _].
  apply negb_true_iff in H1. now rewrite H1.
Qed.

Lemma strip_id s :
  all_chars (fun c => negb (is_space c)) s = true -> strip s = s.
Proof.
  intro H. unfold strip. rewrite lstrip_by_id by exact H.
  now apply rstrip_by_id.
Qed.

Lemma drop_underscores_id s : forall prev,
  Ascii.eqb prev "_" = false ->
  all_chars (fun c => negb (Ascii.eqb c "_")) s = true ->
  drop_underscores prev s = Some s.
Proof.
  induction s as [|c r IH]; intros prev P H; simpl.
  - now rewrite P.
  - simpl in H. apply andb_prop in H. destruct H as [H1 H2].
    apply negb_true_iff in H1. rewrite H1, P. cbn [andb].
    now rewrite (IH c H1 H2).
Qed.

Lemma digits_digit_like s :
  all_chars is_digit s = true -> all_chars digit_like s = true.
Proof. apply all_chars_impl. exact digit_is_digit_like. Qed.

Lemma digit_like_facts c :
  digit_like c = true ->
  plain c = true /\ Ascii.eqb c "_" = false /\ Ascii.eqb c "-" = false
  /\ Ascii.eqb c "+" = false /\ Ascii.eqb c "." = false /\ lower c = c
  /\ Ascii.eqb c "i" = false /\ Ascii.eqb c "n" = false
  /\ Ascii.eqb c "e" = false /\ Ascii.eqb c "E" = false.
Proof.
  unfold digit_like. remember (plain c) as pc. intro H.
  repeat (apply andb_prop in H; destruct H as [H ?]).
  repeat match goal with
         | X : negb _ = true |- _ => apply negb_true_iff in X
         | X : Ascii.eqb (lower _) _ = true |- _ => apply Ascii.eqb_eq in X
         end.
  repeat split; assumption.
Qed.

Lemma plain_facts c :
  plain c = true ->
  is_space c = false /\ Ascii.eqb c "(" = false /\ Ascii.eqb c ")" = false
  /\ Ascii.eqb c " " = false.
Proof.
  unfold plain. intro H.
  repeat (apply andb_prop in H; destruct H as [H ?]).
  repeat match goal with
         | X : negb _ = true |- _ => apply negb_true_iff in X
         end.
  repeat split; try assumption.
  destruct (Ascii.eqb_spec c " ") as [->|]; [discriminate|reflexivity].
Qed.

(** A sign, digits, possibly a point and more digits, and possibly an
    exponent read as the decimal they write. *)
Lemma of_string_decimal_exp neg ip fp (point : bool) expo x :
  ip <> "" ->
  all_chars is_digit ip = true ->
  all_chars is_digit fp = true ->
  (point = false -> fp = "") ->
  all_chars (fun c => negb (is_space c) && negb (Ascii.eqb c "_")) expo = true ->
  match expo with
  | "" => True
  | String c _ => is_digit c = false /\ Ascii.eqb c "." = false
  end ->
  parse_exponent expo = Some x ->
  of_string (sign_str neg ++ ip ++ (if point then "." ++ fp else "") ++ expo)
  = Some (of_decimal neg (value (ip ++ fp))
                     (x - Z.of_nat (String.length fp))).
Proof.
  intros NE Di Df Pf Ce He Px.
  set (tail := if point then "." ++ fp else "").
  assert (Q : forall c, is_digit c || Ascii.eqb c "." = true ->
                        negb (is_space c) && negb (Ascii.eqb c "_") = true).
  { intros c H. apply orb_prop in H. destruct H as [H|H].
    - apply digit_is_digit_like, digit_like_facts in H.
      destruct H as [P [U _]]. apply plain_facts in P.
      destruct P as [-> _]. now rewrite U.
    - apply Ascii.eqb_eq in H. subst. reflexivity. }
  assert (Dt : all_chars (fun c => is_digit c || Ascii.eqb c ".") tail = true).
  { unfold tail. destruct point; [|reflexivity]. simpl.
    eapply all_chars_impl; [|exact Df]. intros c ->. reflexivity. }
  assert (Cb : all_chars (fun c => negb (is_space c) && negb (Ascii.eqb c "_"))
                 (sign_str neg ++ ip ++ tail ++ expo) = true).
  { rewrite !all_chars_app, Ce, andb_true_r.
    apply andb_true_intro. split; [destruct neg; reflexivity|].
    apply andb_true_intro. split.
    - eapply all_chars_impl; [|exact Di]. intros c H. apply Q. now rewrite H.
    - eapply all_chars_impl; [|exact Dt]. exact Q. }
  assert (St : all_chars (fun c => negb (is_space c))
                 (sign_str neg ++ ip ++ tail ++ expo) = true).
  { eapply all_chars_impl; [|exact Cb]. intros c H.
    apply andb_prop in H. tauto. }
  assert (Ut : all_chars (fun c => negb (Ascii.eqb c "_"))
                 (sign_str neg ++ ip ++ tail ++ expo) = true).
  { eapply all_chars_impl; [|exact Cb]. intros c H.
    apply andb_prop in H. tauto. }
  assert (Sf : all_chars (fun c => negb (is_blank c))
                 (sign_str neg ++ ip ++ tail ++ expo) = true).
  { eapply all_chars_impl; [|exact St]. intro c.
    ascii_cases c; intro H; try discriminate H; reflexivity. }
  unfold of_string. rewrite (lstrip_by_id _ _ Sf), (rstrip_by_id _ _ Sf).
  rewrite (drop_underscores_id _ zero eq_refl Ut).
  destruct ip as [|d ip']; [congruence|].
  simpl in Di. apply andb_prop in Di. destruct Di as [Dd Di'].
  pose proof (digit_like_facts d (digit_is_digit_like d Dd))
    as [_ [_ [Fm [Fp [_ [Fl [Fi [Fn _]]]]]]]].
  assert (PS : parse_sign (sign_str neg ++ String d ip' ++ tail ++ expo)
               = (neg, String d ip' ++ tail ++ expo)).
  { destruct neg; [reflexivity|]. simpl. now rewrite Fm, Fp. }
  rewrite PS.
  assert (L1 : String.eqb (lower_str (String d ip' ++ tail ++ expo)) "inf"
               = false) by (simpl; now rewrite Fl, Fi).
  assert (L2 : String.eqb (lower_str (String d ip' ++ tail ++ expo)) "infinity"
               = false) by (simpl; now rewrite Fl, Fi).
  assert (L3 : String.eqb (lower_str (String d ip' ++ tail ++ expo)) "nan"
               = false) by (simpl; now rewrite Fl, Fn).
  rewrite L1, L2, L3. cbn [orb].
  assert (PD : parse_decimal (String d ip' ++ tail ++ expo)
               = Some (value (String d ip' ++ fp),
                       x - Z.of_nat (String.length fp))).
  { unfold parse_decimal.
    assert (Dip : all_chars is_digit (String d ip') = true)
      by (simpl; now rewrite Dd, Di').
    assert (He' : match expo with
                  | "" => True
                  | String c _ => is_digit c = false
                  end) by (destruct expo; tauto).
    unfold tail. destruct point.
    - rewrite (span_digits_app (String d ip') (("." ++ fp) ++ expo) Dip eq_refl).
      cbn [append]. rewrite Ascii.eqb_refl.
      rewrite (span_digits_app fp expo Df He').
      cbn [append]. now rewrite Px.
    - rewrite (Pf eq_refl). cbn [append].
      change (String d (ip' ++ expo)) with (String d ip' ++ expo).
      rewrite (span_digits_app (String d ip') expo Dip He').
      assert (R : match expo with
                  | String c r => if Ascii.eqb c "." then span_digits r
                                  else ("", expo)
                  | "" => ("", expo)
                  end = ("", expo)).
      { destruct expo as [|c r]; [reflexivity|]. destruct He as [_ ->].
        reflexivity. }
      rewrite R. rewrite sapp_nil_r.
      cbn [append String.length Z.of_nat]. rewrite Px.
      now rewrite ?sapp_nil_r. }
  rewrite PD. reflexivity.
Qed.

(** A sign, digits, and possibly a point and more digits read as the
    decimal they write. *)
Lemma of_string_decimal neg ip fp (point : bool) :
  ip <> "" ->
  all_chars is_digit ip = true ->
  all_chars is_digit fp = true ->
  (point = false -> fp = "") ->
  of_string (sign_str neg ++ ip ++ (if point then "." ++ fp else ""))
  = Some (of_decimal neg (value (ip ++ fp)) (- Z.of_nat (String.length fp))).
Proof.
  intros NE Di Df Pf.
  pose proof (of_string_decimal_exp neg ip fp point "" 0 NE Di Df Pf
                eq_refl I eq_refl) as H.
  rewrite sapp_nil_r in H. exact H.
Qed.

End FloatText.

(** ** ['%.3f'] *)

Section Format3f.

Import PyStr Dec PyFloat.

Lemma round_half_even_spec num den :
  0 <= num -> 0 < den ->
  0 <= round_half_even num den
  /\ 2 * Z.abs (round_half_even num den * den - num) <= den.
Proof.
  intros Hn Hd. unfold round_half_even.
  pose proof (Z.div_mod num den ltac:(lia)) as E.
  pose proof (Z.mod_pos_bound num den Hd) as B.
  assert (Q : 0 <= num / den) by (apply Z.div_pos; lia).
  set (q := num / den) in *. set (r := num mod den) in *.
  assert (E1 : q * den - num = - r) by lia.
  assert (E2 : (q + 1) * den - num = den - r) by lia.
  clearbody q r.
  destruct (Z.compare_spec (2 * r) den) as [C|C|C].
  - destruct (Z.even q).
    + rewrite E1. split; lia.
    + rewrite E2. split; lia.
  - rewrite E1. split; lia.
  - rewrite E2. split; lia.
Qed.

Lemma thousandths_nonneg m e : 0 <= thousandths m e.
Proof.
  unfold thousandths. destruct e as [|p|p].
  - lia.
  - assert (0 <= 2 ^ Z.pos p) by (apply Z.pow_nonneg; lia). nia.
  - apply round_half_even_spec; lia.
Qed.

(** The thousandths written for a finite float are its value rounded
    to the nearest thousandth. *)
Lemma thousandths_close s m e :
  (Qabs (Qmake (cond_Zopp s (thousandths m e)) 1000
         - to_Q (S754_finite s m e)) <= 1 # 2000)%Q.
Proof.
  unfold to_Q, thousandths. destruct e as [|p|p].
  - assert (0 <= 2 ^ 0) by (apply Z.pow_nonneg; lia).
    set (w := 2 ^ 0) in *. clearbody w.
    unfold Qle, Qabs, Qminus, Qplus, Qopp, inject_Z. cbn [Qnum Qden].
    destruct s; cbn [cond_Zopp];
      match goal with
      | |- Z.abs ?x * _ <= _ => replace x with 0 by lia
      end; simpl; lia.
  - assert (0 <= 2 ^ Z.pos p) by (apply Z.pow_nonneg; lia).
    set (w := 2 ^ Z.pos p) in *. clearbody w.
    unfold Qle, Qabs, Qminus, Qplus, Qopp, inject_Z. cbn [Qnum Qden].
    destruct s; cbn [cond_Zopp];
      match goal with
      | |- Z.abs ?x * _ <= _ => replace x with 0 by lia
      end; simpl; lia.
  - destruct (round_half_even_spec (Z.pos m * 1000) (Z.pos (2 ^ p))
                ltac:(lia) ltac:(lia)) as [N0 N1].
    set (n := round_half_even (Z.pos m * 1000) (Z.pos (2 ^ p))) in *.
    set (w := Z.pos (2 ^ p)) in *.
    unfold Qle, Qabs, Qminus, Qplus, Qopp. cbn [Qnum Qden].
    change (Z.pos (1000 * 2 ^ p)) with (1000 * w).
    assert (0 < w) by (unfold w; lia).
    destruct s; cbn [cond_Zopp]; change (Z.pos (2 ^ p)) with w;
      clearbody n w; lia.
Qed.

(** The text of a finite float: a sign, digits, a point, three digits,
    for the thousandths nearest to its value. *)
Lemma format_3f_finite f :
  is_finite f = true ->
  exists neg n,
    0 <= n
    /\ format_3f f = sign_str neg ++ of_Z (n / 1000) ++ "." ++ pad3 (n mod 1000)
    /\ (Qabs (Qmake (cond_Zopp neg n) 1000 - to_Q f) <= 1 # 2000)%Q.
Proof.
  destruct f as [s|s| |s m e]; try discriminate; intros _.
  - exists s, 0. split; [lia|]. split; [reflexivity|].
    destruct s; vm_compute; discriminate.
  - exists s, (thousandths m e). split; [apply thousandths_nonneg|].
    split; [reflexivity|apply thousandths_close].
Qed.

Lemma thousandths_parts n :
  0 <= n ->
  of_Z (n / 1000) <> ""
  /\ all_chars is_digit (of_Z (n / 1000)) = true
  /\ all_chars is_digit (pad3 (n mod 1000)) = true
  /\ String.length (pad3 (n mod 1000)) = 3%nat
  /\ value (of_Z (n / 1000) ++ pad3 (n mod 1000)) = n.
Proof.
  intro H.
  assert (Q : 0 <= n / 1000) by (apply Z.div_pos; lia).
  pose proof (Z.mod_pos_bound n 1000 ltac:(lia)) as B.
  destruct (of_Z_spec _ Q) as [NE [D V]].
  destruct (pad3_spec _ B) as [D3 [L3 V3]].
  repeat split; auto.
  unfold value in *. rewrite value_from_app, V, V3.
  pose proof (Z.div_mod n 1000). lia.
Qed.

(** Read back, the text gives the float nearest to those thousandths. *)
Lemma of_string_format_3f neg n :
  0 <= n ->
  of_string (sign_str neg ++ of_Z (n / 1000) ++ "." ++ pad3 (n mod 1000))
  = Some (of_decimal neg n (-3)).
Proof.
  intro H. destruct (thousandths_parts n H) as [NE [D [D3 [L3 V]]]].
  pose proof (of_string_decimal neg (of_Z (n / 1000)) (pad3 (n mod 1000)) true
                NE D D3 ltac:(discriminate)) as P.
  cbv beta iota in P. rewrite P, V, L3. reflexivity.
Qed.

Lemma numeric_text_plain s :
  all_chars numeric_char s = true -> all_chars plain s = true.
Proof.
  apply all_chars_impl. intro c. ascii_cases c; intro H;
    try discriminate H; reflexivity.
Qed.

Lemma digits_numeric s :
  all_chars is_digit s = true -> all_chars numeric_char s = true.
Proof.
  apply all_chars_impl. intros c H. unfold numeric_char. now rewrite H.
Qed.

Lemma sign_str_numeric neg : all_chars numeric_char (sign_str neg) = true.
Proof. destruct neg; reflexivity. Qed.

Lemma format_3f_text neg n :
  0 <= n ->
  let s := sign_str neg ++ of_Z (n / 1000) ++ "." ++ pad3 (n mod 1000) in
  all_chars numeric_char s = true /\ s <> "" /\ three_decimals s = true.
Proof.
  intros H s. destruct (thousandths_parts n H) as [NE [D [D3 [L3 V]]]].
  split; [|split].
  - unfold s. rewrite !all_chars_app, sign_str_numeric.
    rewrite (digits_numeric _ D), (digits_numeric _ D3). reflexivity.
  - unfold s. destruct neg; [discriminate|]. simpl.
    destruct (of_Z (n / 1000)); [congruence|discriminate].
  - unfold three_decimals, s.
    assert (B : match sign_str neg ++ of_Z (n / 1000) ++ "." ++ pad3 (n mod 1000) with
                | String c r => if Ascii.eqb c "-" then r
                                else sign_str neg ++ of_Z (n / 1000) ++ "." ++ pad3 (n mod 1000)
                | EmptyString => sign_str neg ++ of_Z (n / 1000) ++ "." ++ pad3 (n mod 1000)
                end = of_Z (n / 1000) ++ "." ++ pad3 (n mod 1000)).
    { destruct neg; [reflexivity|]. simpl.
      destruct (of_Z (n / 1000)) as [|d r] eqn:E; [congruence|].
      simpl in D. apply andb_prop in D. destruct D as [Dd _].
      pose proof (digit_like_facts d (digit_is_digit_like d Dd))
        as [_ [_ [Fm _]]].
      simpl. now rewrite Fm. }
    rewrite B.
    rewrite (span_digits_app (of_Z (n / 1000)) ("." ++ pad3 (n mod 1000)) D eq_refl).
    destruct (of_Z (n / 1000)) as [|d r]; [congruence|].
    cbn [append]. rewrite Ascii.eqb_refl, D3, L3. reflexivity.
Qed.

End Format3f.

(** ** Encoding *)

Section Encoding.

Import Py PyStr Client.
Local Open Scope py_scope.

(** The loop appends the groups of the fields to what it has. *)
Lemma encode_loop_groups items : forall out,
  encode_loop items out = (r <~ groups items ; Ok (out ++ r)).
Proof.
  induction items as [|[k v] rest IH]; intro out.
  - simpl. now rewrite sapp_nil_r.
  - cbn [encode_loop groups]. destruct v as [a|l]; cbn [field_text].
    + destruct (format_3f a) as [s|e]; cbn [rbind]; [|reflexivity].
      rewrite IH. destruct (groups rest) as [r|e]; cbn [rbind]; [|reflexivity].
      unfold group. now rewrite !sapp_assoc.
    + cbn [rbind]. rewrite IH.
      destruct (groups rest) as [r|e]; cbn [rbind]; [|reflexivity].
      unfold group. now rewrite !sapp_assoc.
Qed.

Lemma encode_actions_groups d : encode_actions d = groups d.
Proof.
  unfold encode_actions. rewrite encode_loop_groups.
  destruct (groups d); reflexivity.
Qed.


(** A number with a finite value is written with three decimals. *)
Lemma format_3f_number a :
  finite_number a = true ->
  exists f neg n,
    as_float a = Some f /\ 0 <= n
    /\ format_3f a
       = Ok (PyFloat.sign_str neg ++ Dec.of_Z (n / 1000) ++ "."
             ++ Dec.pad3 (n mod 1000))
    /\ (Qabs (Qmake (cond_Zopp neg n) 1000 - PyFloat.to_Q f) <= 1 # 2000)%Q.
Proof.
  unfold finite_number. destruct (as_float a) as [f|] eqn:A; [|discriminate].
  intro F. destruct (format_3f_finite f F) as [neg [n [N [E C]]]].
  exists f, neg, n. repeat split; auto.
  destruct a as [|b|z|g|s]; try discriminate; cbn [as_float format_3f] in *.
  - now rewrite A, E.
  - now rewrite A, E.
  - injection A as ->. now rewrite E.
Qed.

End Encoding.

(** ** Decoding *)

Section Decoding.

Import Py PyStr Client.
Local Open Scope py_scope.

Lemma destringify_RList l : destringify (RList l) = Ok (destringify_list l).
Proof.
  destruct l as [|s [|t r]]; cbn [destringify destringify_list].
  - reflexivity.
  - cbn. destruct (destringify_str s). reflexivity.
  - cbn [List.length Nat.ltb Nat.leb].
    destruct (destringify_each (s :: t :: r)). reflexivity.
Qed.

Lemma all_chars_join p sep l :
  all_chars p sep = true ->
  Forall (fun s => all_chars p s = true) l ->
  all_chars p (join sep l) = true.
Proof.
  intros Hs F. induction F as [|x r Hx F IH]; [reflexivity|].
  destruct r as [|y r']; [exact Hx|].
  change (join sep (x :: y :: r')) with (x ++ sep ++ join sep (y :: r')).
  now rewrite !all_chars_app, Hx, Hs, IH.
Qed.

Lemma plain_no_space s :
  all_chars plain s = true ->
  all_chars (fun c => negb (Ascii.eqb c " ")) s = true.
Proof.
  apply all_chars_impl. intros c H.
  destruct (plain_facts c H) as [_ [_ [_ ->]]]. reflexivity.
Qed.

(** A segment of plain tokens splits on spaces into its key and its
    tokens, and holds no parenthesis. *)
Lemma split_segment_tokens kt :
  Forall (fun t => all_chars plain t = true) (fst kt :: snd kt) ->
  split " " (segment kt) = fst kt :: snd kt
  /\ all_chars (fun c => negb (Ascii.eqb c ")")) (segment kt) = true.
Proof.
  intro F. split.
  - apply split_join; [discriminate|].
    eapply Forall_impl; [|exact F]. intros t. apply plain_no_space.
  - apply all_chars_join; [reflexivity|].
    eapply Forall_impl; [|exact F]. intros t. apply all_chars_impl.
    intros c H. destruct (plain_facts c H) as [_ [_ [-> _]]]. reflexivity.
Qed.

(** The loop over the segments sets each key to what its tokens
    decode to. *)
Lemma parse_loop_segments fields : forall acc,
  Forall (fun kt => Forall (fun t => all_chars plain t = true)
                           (fst kt :: snd kt)) fields ->
  parse_loop (map segment fields) acc
  = Ok (fold_left (fun a kt => set (fst kt) (snd (decoded kt)) a) fields acc,
        flat_map decoded_log fields).
Proof.
  induction fields as [|kt r IH]; intros acc F; [reflexivity|].
  inversion F as [|? ? F1 F2]; subst.
  cbn [map parse_loop]. destruct (split_segment_tokens kt F1) as [-> _].
  cbn [tl nth_error]. rewrite destringify_RList. cbn [rbind].
  rewrite (IH _ F2). cbn [rbind fst snd fold_left flat_map].
  reflexivity.
Qed.

Lemma fold_set_fresh fields : forall acc,
  NoDup (map fst fields) ->
  (forall k, In k (map fst fields) -> get k acc = None) ->
  fold_left (fun a kt => set (fst kt) (snd (decoded kt)) a) fields acc
  = (acc ++ map decoded fields)%list.
Proof.
  induction fields as [|kt r IH]; intros acc ND Fr.
  - simpl. now rewrite app_nil_r.
  - inversion ND as [|? ? NI ND']; subst. cbn [fold_left map].
    rewrite set_absent by (apply Fr; left; reflexivity).
    rewrite IH; [now rewrite <- app_assoc|exact ND'|].
    intros k I.
    assert (G : get k acc = None) by (apply Fr; right; exact I).
    apply get_none_not_in. apply get_none_not_in in G.
    unfold keys in *. rewrite map_app, in_app_iff. cbn [map fst In].
    intros [H|[H|[]]]; [tauto|]. subst k. tauto.
Qed.

(** *** The frame of a datagram *)

Lemma last_char_none s : last_char s = None -> s = "".
Proof.
  induction s as [|c r IH]; [reflexivity|]. simpl.
  destruct r; [discriminate|]. intro H. apply IH in H. discriminate.
Qed.

Lemma last_char_app a b :
  last_char (a ++ b)
  = match last_char b with Some c => Some c | None => last_char a end.
Proof.
  induction a as [|x a IH]; simpl.
  - destruct (last_char b); reflexivity.
  - destruct (a ++ b) eqn:E.
    + destruct a; [|discriminate]. simpl in E. subst b. reflexivity.
    + rewrite IH. destruct (last_char b) eqn:B; [reflexivity|].
      destruct a; [|reflexivity].
      simpl in E. subst b. apply last_char_none in B. discriminate.
Qed.

Lemma last_char_split s c :
  last_char s = Some c -> exists a, s = a ++ String c "".
Proof.
  destruct (string_last_cases s) as [->|[a [x ->]]]; [discriminate|].
  rewrite last_char_app. simpl. intros [= ->]. now exists a.
Qed.

Lemma ends_plain_split s :
  ends_plain s = true -> exists a c, s = a ++ String c "" /\ plain c = true.
Proof.
  unfold ends_plain. destruct (last_char s) as [c|] eqn:E; [|discriminate].
  intro P. destruct (last_char_split s c E) as [a ->]. now exists a, c.
Qed.

Lemma strip_open X c :
  is_space c = false ->
  strip (String "(" (X ++ String c "")) = String "(" (X ++ String c "").
Proof.
  intro H. unfold strip. rewrite lstrip_by_keep by reflexivity.
  change (String "(" (X ++ String c "")) with (String "(" X ++ String c "").
  now apply rstrip_by_keep.
Qed.

Lemma lstrip_open c0 Y :
  Ascii.eqb c0 "(" = false ->
  lstrip "(" (String "(" (String c0 Y)) = String c0 Y.
Proof.
  intro H. unfold lstrip. cbn [lstrip_by mem_char].
  rewrite Ascii.eqb_refl. cbn [orb]. now rewrite H.
Qed.

(** The text between the outer parentheses, when it begins and ends
    with a plain character and at most one space follows it, is what
    [parse_server_string] splits into segments. *)
Lemma parse_frame c0 Y tail :
  plain c0 = true ->
  ends_plain (String c0 Y) = true ->
  tail = "" \/ tail = " " ->
  parse_server_string ("(" ++ String c0 Y ++ tail ++ ")")
  = parse_loop (split ")(" (String c0 Y)) [].
Proof.
  intros P0 E T. unfold parse_server_string.
  destruct (ends_plain_split _ E) as [a [c1 [EY P1]]].
  destruct (plain_facts c0 P0) as [S0 [L0 _]].
  destruct (plain_facts c1 P1) as [S1 [_ [R1 _]]].
  replace ("(" ++ String c0 Y ++ tail ++ ")")
    with (String "(" ((String c0 Y ++ tail) ++ String ")" ""))
    by (cbn [append]; rewrite ?sapp_assoc; reflexivity).
  rewrite strip_open by reflexivity.
  change (String "(" ((String c0 Y ++ tail) ++ String ")" ""))
    with (String "(" (String c0 Y ++ tail) ++ String ")" "").
  rewrite drop_last_app.
  assert (St2 : strip (String "(" (String c0 Y ++ tail))
                = String "(" (String c0 Y)).
  { unfold strip. rewrite lstrip_by_keep by reflexivity.
    change (String "(" (String c0 Y ++ tail))
      with (String "(" (String c0 Y) ++ tail).
    rewrite rstrip_by_app.
    assert (rstrip_by is_space tail = "") as ->
        by (destruct T; subst; reflexivity).
    rewrite EY.
    change (String "(" (a ++ String c1 "")) with (String "(" a ++ String c1 "").
    now apply rstrip_by_keep. }
  rewrite St2, (lstrip_open _ _ L0).
  assert (Rs : rstrip ")" (String c0 Y) = String c0 Y).
  { unfold rstrip. rewrite EY. apply rstrip_by_keep. cbn [mem_char].
    now rewrite R1. }
  now rewrite Rs.
Qed.

Lemma parse_server_string_strip s t :
  strip s = strip t -> parse_server_string s = parse_server_string t.
Proof. intro H. unfold parse_server_string. now rewrite H. Qed.

(** The same text followed by one more character of any kind: that
    character is what [s[:-1]] (or [strip]) removes. *)
Lemma parse_frame_terminated c0 Y c :
  plain c0 = true ->
  ends_plain (String c0 Y) = true ->
  parse_server_string ("(" ++ String c0 Y ++ ")" ++ String c "")
  = parse_loop (split ")(" (String c0 Y)) [].
Proof.
  intros P0 E.
  replace ("(" ++ String c0 Y ++ ")" ++ String c "")
    with (String "(" (String c0 Y ++ String ")" "") ++ String c "")
    by (cbn [append]; rewrite ?sapp_assoc; reflexivity).
  destruct (is_space c) eqn:Sc.
  - rewrite <- (parse_frame c0 Y "" P0 E (or_introl eq_refl)).
    apply parse_server_string_strip.
    replace ("(" ++ String c0 Y ++ "" ++ ")")
      with (String "(" (String c0 Y ++ String ")" ""))
      by (cbn [append]; rewrite ?sapp_assoc; reflexivity).
    rewrite (strip_open _ ")") by reflexivity.
    unfold strip.
    change (String "(" (String c0 Y ++ String ")" "") ++ String c "")
      with (String "(" ((String c0 Y ++ String ")" "") ++ String c "")).
    rewrite lstrip_by_keep by reflexivity.
    change (String "(" ((String c0 Y ++ String ")" "") ++ String c ""))
      with (String "(" (String c0 Y ++ String ")" "") ++ String c "").
    rewrite (rstrip_by_drop _ _ _ Sc).
    change (String "(" (String c0 Y ++ String ")" ""))
      with (String "(" (String c0 Y) ++ String ")" "").
    now apply rstrip_by_keep.
  - unfold parse_server_string.
    destruct (ends_plain_split _ E) as [a [c1 [EY P1]]].
    destruct (plain_facts c0 P0) as [S0 [L0 _]].
    destruct (plain_facts c1 P1) as [S1 [_ [R1 _]]].
    change (String "(" (String c0 Y ++ String ")" "") ++ String c "")
      with (String "(" ((String c0 Y ++ String ")" "") ++ String c "")).
    rewrite strip_open by exact Sc.
    change (String "(" ((String c0 Y ++ String ")" "") ++ String c ""))
      with (String "(" (String c0 Y ++ String ")" "") ++ String c "").
    rewrite drop_last_app.
    rewrite strip_open by reflexivity.
    change (String c0 Y ++ String ")" "") with (String c0 (Y ++ String ")" "")).
    rewrite (lstrip_open _ _ L0).
    change (String c0 (Y ++ String ")" "")) with (String c0 Y ++ String ")" "").
    assert (Rs : rstrip ")" (String c0 Y ++ String ")" "") = String c0 Y).
    { unfold rstrip. rewrite rstrip_by_drop by reflexivity.
      rewrite EY. apply rstrip_by_keep. cbn [mem_char]. now rewrite R1. }
    now rewrite Rs.
Qed.

Lemma first_char_cons s c : first_char s = Some c -> exists r, s = String c r.
Proof. destruct s; simpl; [discriminate|]. intros [= ->]. eauto. Qed.

Lemma first_char_join sep x r c :
  first_char x = Some c -> first_char (join sep (x :: r)) = Some c.
Proof.
  intro H. destruct (first_char_cons _ _ H) as [x' ->].
  destruct r; reflexivity.
Qed.

Lemma token_facts k :
  token k = true ->
  all_chars plain k = true /\ exists c r, k = String c r /\ plain c = true.
Proof.
  unfold token. intro H. apply andb_prop in H. destruct H as [P N].
  split; [exact P|]. destruct k as [|c r]; [discriminate|].
  exists c, r. split; [reflexivity|]. simpl in P.
  apply andb_prop in P. tauto.
Qed.

(** The text of fields with distinct token keys and plain tokens decodes
    to those fields, in their order. *)
Lemma decode_fields fields tail :
  fields <> [] ->
  tail = "" \/ tail = " " ->
  NoDup (map fst fields) ->
  Forall (fun kt => token (fst kt) = true
                    /\ Forall (fun t => all_chars plain t = true) (snd kt))
         fields ->
  ends_plain (join ")(" (map segment fields)) = true ->
  parse_server_string ("(" ++ join ")(" (map segment fields) ++ tail ++ ")")
  = Ok (map decoded fields, flat_map decoded_log fields)
  /\ forall c,
       parse_server_string ("(" ++ join ")(" (map segment fields) ++ ")"
                                ++ String c "")
       = Ok (map decoded fields, flat_map decoded_log fields).
Proof.
  intros NE T ND F E.
  assert (F' : Forall (fun kt => Forall (fun t => all_chars plain t = true)
                                        (fst kt :: snd kt)) fields).
  { eapply Forall_impl; [|exact F]. intros kt [K R].
    constructor; [apply token_facts; exact K|exact R]. }
  assert (Sp : split ")(" (join ")(" (map segment fields)) = map segment fields).
  { apply split_join.
    - destruct fields; [congruence|discriminate].
    - rewrite Forall_map. eapply Forall_impl; [|exact F'].
      intros kt H. now apply split_segment_tokens. }
  assert (Hd : exists c0 Y, join ")(" (map segment fields) = String c0 Y
                            /\ plain c0 = true).
  { destruct fields as [|kt r]; [congruence|].
    inversion F as [|? ? [K _] _]; subst.
    destruct (token_facts _ K) as [_ [c [k' [Ek Pc]]]].
    assert (H : first_char (join ")(" (map segment (kt :: r))) = Some c).
    { cbn [map]. apply first_char_join. unfold segment.
      apply first_char_join. now rewrite Ek. }
    destruct (first_char_cons _ _ H) as [Y EY]. now exists c, Y. }
  destruct Hd as [c0 [Y [EY P0]]].
  assert (R : parse_loop (map segment fields) []
              = Ok (map decoded fields, flat_map decoded_log fields)).
  { rewrite parse_loop_segments by exact F'.
    rewrite fold_set_fresh; [reflexivity|exact ND|reflexivity]. }
  rewrite EY in *. split.
  - rewrite (parse_frame c0 Y tail P0 E T), Sp. exact R.
  - intro c. rewrite (parse_frame_terminated c0 Y c P0 E), Sp. exact R.
Qed.

Lemma segment_text k toks :
  toks <> [] -> segment (k, toks) = k ++ " " ++ join " " toks.
Proof. destruct toks; [congruence|reflexivity]. Qed.

Lemma read_fields_cons k v rest :
  read_fields ((k, v) :: rest)
  = (toks <~ match v with
             | VScalar a => t <~ format_3f a ; Ok [t]
             | VList [] => Ok (match rest with [] => [] | _ => [""] end)
             | VList l => Ok (map str l)
             end ;
     r <~ read_fields rest ;
     Ok ((k, toks) :: r)).
Proof. reflexivity. Qed.

(** The text of an encoded record, as the decoder frames it. *)
Lemma groups_wire d : forall s,
  d <> [] ->
  groups d = Ok s ->
  exists fields,
    read_fields d = Ok fields
    /\ map fst fields = keys d
    /\ s = "(" ++ join ")(" (map segment fields) ++ tail_of d ++ ")".
Proof.
  induction d as [|[k v] rest IH]; intros s NE G; [congruence|].
  cbn [groups] in G.
  destruct (field_text v) as [t|e] eqn:Ft; cbn [rbind] in G; [|discriminate].
  destruct (groups rest) as [s'|e] eqn:Gr; cbn [rbind] in G; [|discriminate].
  injection G as <-.
  destruct rest as [|kv2 rest'].
  - (* the last field *)
    simpl in Gr. injection Gr as <-. cbn [read_fields].
    destruct v as [a|[|x l]]; cbn [field_text] in Ft.
    + rewrite Ft. cbn [rbind]. eexists. split; [reflexivity|].
      split; [reflexivity|]. unfold group. cbn [map join tail_of segment fst snd append].
      now rewrite !sapp_assoc, ?sapp_nil_r.
    + injection Ft as <-. cbn [rbind]. eexists. split; [reflexivity|].
      split; [reflexivity|]. unfold group.
      cbn [map join tail_of segment fst snd append].
      now rewrite !sapp_assoc, ?sapp_nil_r.
    + injection Ft as <-. cbn [rbind]. eexists. split; [reflexivity|].
      split; [reflexivity|]. unfold group.
      cbn [tail_of]. cbn [map join]. rewrite segment_text by discriminate.
      cbn [append]. now rewrite !sapp_assoc, ?sapp_nil_r.
  - destruct (IH s' ltac:(discriminate) eq_refl) as [fs [Rf [Kf Es]]].
    rewrite read_fields_cons.
    assert (T : tail_of ((k, v) :: kv2 :: rest') = tail_of (kv2 :: rest')).
    { destruct v as [a|[|x l]]; reflexivity. }
    rewrite T.
    assert (exists toks,
               match v with
               | VScalar a => (t0 <~ format_3f a; Ok [t0])
               | VList [] => Ok [""]
               | VList ((_ :: _) as l) => Ok (map str l)
               end = Ok toks
               /\ toks <> []
               /\ t = join " " toks) as [toks [Et [Nt Jt]]].
    { destruct v as [a|[|x l]]; cbn [field_text] in Ft.
      - rewrite Ft. cbn [rbind]. exists [t].
        split; [reflexivity|]. split; [discriminate|reflexivity].
      - injection Ft as <-. exists [""].
        split; [reflexivity|]. split; [discriminate|reflexivity].
      - injection Ft as <-. exists (map str (x :: l)).
        split; [reflexivity|]. split; [discriminate|reflexivity]. }
    replace (match v with
             | VScalar a => (t0 <~ format_3f a; Ok [t0])
             | VList [] => Ok match kv2 :: rest' with [] => [] | _ => [""] end
             | VList ((_ :: _) as l) => Ok (map str l)
             end) with (Ok toks : result (list string))
      by (rewrite <- Et; destruct v as [a|[|x l]]; reflexivity).
    cbn [rbind]. rewrite Rf. cbn [rbind].
    exists ((k, toks) :: fs). split; [reflexivity|].
    split; [cbn [map fst keys] in *; unfold keys in *; cbn [map fst]; now rewrite Kf|].
    rewrite Es. unfold group.
    destruct fs as [|f1 fs1]; [discriminate|].
    change (join ")(" (map segment ((k, toks) :: f1 :: fs1)))
      with (segment (k, toks) ++ ")(" ++ join ")(" (map segment (f1 :: fs1))).
    rewrite segment_text by exact Nt. subst t.
    repeat (rewrite ?sapp_assoc; cbn [append]). reflexivity.
Qed.

End Decoding.

(** ** Checked conditions *)

Section Checked.

Import Py PyStr Client.

Lemma distinct_NoDup l : distinct l = true -> NoDup l.
Proof.
  induction l as [|x r IH]; simpl; [constructor|].
  intro H. apply andb_prop in H. destruct H as [H1 H2].
  constructor; [|auto].
  intro I. apply negb_true_iff in H1.
  assert (existsb (String.eqb x) r = true); [|congruence].
  apply existsb_exists. exists x. split; [exact I|apply String.eqb_refl].
Qed.

Lemma wire_fields_spec fields :
  wire_fields fields = true ->
  fields <> []
  /\ NoDup (map fst fields)
  /\ Forall (fun kt => token (fst kt) = true
                       /\ Forall (fun t => all_chars plain t = true) (snd kt))
            fields
  /\ ends_plain (join ")(" (map segment fields)) = true.
Proof.
  unfold wire_fields. intro H.
  apply andb_prop in H. destruct H as [H E].
  apply andb_prop in H. destruct H as [H F].
  apply andb_prop in H. destruct H as [N D].
  split; [destruct fields; [discriminate|discriminate]|].
  split; [now apply distinct_NoDup|]. split; [|exact E].
  rewrite forallb_forall in F. apply Forall_forall. intros kt I.
  specialize (F kt I). apply andb_prop in F. destruct F as [K T].
  split; [exact K|]. rewrite forallb_forall in T. now apply Forall_forall.
Qed.

(** Decoding never raises. *)
Lemma parse_loop_total segs : forall acc,
  exists r, parse_loop segs acc = Ok r.
Proof.
  induction segs as [|i rest IH]; intro acc; [eexists; reflexivity|].
  cbn [parse_loop]. rewrite destringify_RList. cbn [rbind].
  destruct (split " " i) as [|k w] eqn:S.
  - exfalso. exact (split_go_nonempty _ _ _ S).
  - cbn [nth_error].
    destruct (IH (set k (fst (destringify_list (tl (k :: w)))) acc)) as [r ->].
    eexists. reflexivity.
Qed.

(** Text that writes wire fields between parentheses, followed by one
    more character, decodes to those fields. *)
Lemma decode_wire_fields fields c :
  wire_fields fields = true ->
  parse_server_string
    ("(" ++ join ")(" (map segment fields) ++ ")" ++ String c "")
  = Ok (map decoded fields, flat_map decoded_log fields).
Proof.
  intro W. destruct (wire_fields_spec fields W) as [NE [ND [F E]]].
  apply (decode_fields fields "" NE (or_introl eq_refl) ND F E).
Qed.

End Checked.

(** ** The text of numbers *)

Section NumberText.

Import Py PyStr Dec PyFloat.

Lemma digits_fuel_digits f : forall n accs,
  exists ds,
    digits_fuel (S f) n accs = ds ++ accs
    /\ ds <> "" /\ all_chars is_digit ds = true.
Proof.
  induction f as [|f IH]; intros n accs; rewrite digits_fuel_S;
    assert (M : 0 <= n mod 10 <= 9)
      by (pose proof (Z.mod_pos_bound n 10); lia);
    destruct (digit_char_spec _ M) as [Dd _].
  - exists (String (digit_char (n mod 10)) "").
    split; [destruct (n <? 10); reflexivity|].
    split; [discriminate|]. simpl. now rewrite Dd.
  - destruct (n <? 10).
    + exists (String (digit_char (n mod 10)) "").
      split; [reflexivity|]. split; [discriminate|]. simpl. now rewrite Dd.
    + destruct (IH (n / 10) (String (digit_char (n mod 10)) accs))
        as [ds [E [NE D]]].
      exists (ds ++ String (digit_char (n mod 10)) "").
      split; [rewrite E, sapp_assoc; reflexivity|].
      split; [destruct ds; discriminate|].
      rewrite all_chars_app, D. simpl. now rewrite Dd.
Qed.

Lemma of_Z_digits n : of_Z n <> "" /\ all_chars is_digit (of_Z n) = true.
Proof.
  unfold of_Z.
  destruct (digits_fuel_digits (Z.to_nat (Z.log2 n)) n "") as [ds [E [NE D]]].
  rewrite E, sapp_nil_r. auto.
Qed.

Lemma all_chars_substring p s : forall n m,
  all_chars p s = true -> all_chars p (substring n m s) = true.
Proof.
  induction s as [|c r IH]; intros n m H.
  - destruct n, m; reflexivity.
  - simpl in H. apply andb_prop in H. destruct H as [H1 H2].
    destruct n as [|n]; simpl.
    + destruct m as [|m]; [reflexivity|]. simpl. rewrite H1. now apply IH.
    + now apply IH.
Qed.

Lemma numeric_nonempty_token s :
  all_chars numeric_char s = true -> s <> "" -> token s = true.
Proof.
  intros H N. unfold token. rewrite (numeric_text_plain _ H).
  destruct s; [congruence|reflexivity].
Qed.

Lemma layout_numeric ds decpt :
  all_chars is_digit ds = true ->
  all_chars numeric_char (layout ds decpt) = true /\ layout ds decpt <> "".
Proof.
  intro D. pose proof (digits_numeric _ D) as N.
  assert (Z0 : forall n, all_chars numeric_char (repeat_char "0" n) = true)
    by (intro n; apply all_chars_repeat; reflexivity).
  assert (Sb : forall n m, all_chars numeric_char (substring n m ds) = true)
    by (intros; now apply all_chars_substring).
  destruct (of_Z_digits (Z.abs (decpt - 1))) as [_ Dx].
  apply digits_numeric in Dx.
  unfold layout.
  destruct ((-4 <? decpt) && (decpt <=? 16)).
  - destruct (decpt <=? 0).
    + split; [|discriminate]. cbn [append all_chars numeric_char].
      rewrite all_chars_app, Z0, N. reflexivity.
    + destruct (Z.of_nat (String.length ds) <=? decpt).
      * split.
        -- rewrite !all_chars_app, N, Z0. reflexivity.
        -- destruct ds; simpl; [|discriminate].
           destruct (repeat_char "0" _); discriminate.
      * split.
        -- rewrite !all_chars_app, !Sb. reflexivity.
        -- destruct (substring 0 (Z.to_nat decpt) ds); discriminate.
  - split.
    + rewrite !all_chars_app, Sb, Dx.
      destruct (1 <? Z.of_nat (String.length ds));
        destruct (decpt - 1 <? 0);
        destruct (Z.abs (decpt - 1) <? 10);
        rewrite ?all_chars_app, ?Sb; reflexivity.
    + destruct (substring 0 1 ds); [|discriminate].
      destruct (1 <? Z.of_nat (String.length ds)); discriminate.
Qed.

(** [repr] of a float is a token of digits, signs, a point and
    letters. *)
Lemma repr_numeric f :
  all_chars numeric_char (repr f) = true /\ repr f <> "".
Proof.
  destruct f as [s|s| |s m e].
  - destruct s; split; first [reflexivity|discriminate].
  - destruct s; split; first [reflexivity|discriminate].
  - split; first [reflexivity|discriminate].
  - unfold repr.
    destruct (match e with
              | Z.neg k => (Z.pos m, Z.pos (2 ^ k))
              | _ => (Z.pos m * 2 ^ e, 1)
              end) as [num den].
    destruct (shortest_search 17 _ num den (decpt_of num den) 1) as [D k].
    destruct (strip_zeros 20 D k) as [D' k'].
    destruct (of_Z_digits D') as [_ Dd].
    destruct (layout_numeric (of_Z D') (Z.of_nat (String.length (of_Z D')) + k') Dd)
      as [L1 L2].
    split.
    + now rewrite all_chars_app, sign_str_numeric, L1.
    + destruct s; [discriminate|exact L2].
Qed.

Lemma of_int_numeric z :
  all_chars numeric_char (Dec.of_int z) = true /\ Dec.of_int z <> "".
Proof.
  unfold Dec.of_int. destruct (z <? 0).
  - destruct (of_Z_digits (- z)) as [_ D].
    split; [|discriminate]. simpl. now rewrite (digits_numeric _ D).
  - destruct (of_Z_digits z) as [N D]. split; [now apply digits_numeric|exact N].
Qed.

Lemma numeric_char_solid c :
  numeric_char c = true ->
  negb (is_space c) && negb (Ascii.eqb c "_") = true.
Proof. ascii_cases c; intro H; try discriminate H; reflexivity. Qed.

Lemma substring_head n c r :
  substring 0 (S n) (String c r) = String c (substring 0 n r).
Proof. reflexivity. Qed.

(** The exponent [repr] writes is one [float] reads. *)
Lemma exponent_text x :
  let expo := "e" ++ (if x <? 0 then "-" else "+")
                  ++ (if Z.abs x <? 10 then "0" else "") ++ of_Z (Z.abs x) in
  all_chars (fun c => negb (is_space c) && negb (Ascii.eqb c "_")) expo = true
  /\ exists v, parse_exponent expo = Some v.
Proof.
  intro expo. destruct (of_Z_digits (Z.abs x)) as [NE D].
  set (ds := (if Z.abs x <? 10 then "0" else "") ++ of_Z (Z.abs x)).
  assert (Dd : all_chars is_digit ds = true).
  { unfold ds. rewrite all_chars_app, D.
    destruct (Z.abs x <? 10); reflexivity. }
  assert (Nd : ds <> "").
  { unfold ds. destruct (Z.abs x <? 10); [discriminate|exact NE]. }
  split.
  - eapply all_chars_impl; [exact numeric_char_solid|].
    unfold expo. fold ds. rewrite !all_chars_app, (digits_numeric _ Dd).
    destruct (x <? 0); reflexivity.
  - unfold expo. fold ds. cbn [append parse_exponent].
    rewrite Ascii.eqb_refl. cbn [orb].
    assert (PS : parse_sign ((if x <? 0 then "-" else "+") ++ ds)
                 = (x <? 0, ds)) by (destruct (x <? 0); reflexivity).
    rewrite PS. rewrite (span_digits_all ds Dd).
    destruct ds; [congruence|]. eexists. reflexivity.
Qed.

(** What [repr] lays out is a decimal literal. *)
Lemma layout_parts ds decpt :
  ds <> "" -> all_chars is_digit ds = true ->
  exists ip fp (point : bool) expo x,
    layout ds decpt = ip ++ (if point then "." ++ fp else "") ++ expo
    /\ ip <> "" /\ all_chars is_digit ip = true
    /\ all_chars is_digit fp = true
    /\ (point = false -> fp = "")
    /\ all_chars (fun c => negb (is_space c) && negb (Ascii.eqb c "_")) expo
       = true
    /\ match expo with
       | "" => True
       | String c _ => is_digit c = false /\ Ascii.eqb c "." = false
       end
    /\ parse_exponent expo = Some x.
Proof.
  intros NE D.
  assert (Z0 : forall n, all_chars is_digit (repeat_char "0" n) = true)
    by (intro n; apply all_chars_repeat; reflexivity).
  assert (Sb : forall n m, all_chars is_digit (substring n m ds) = true)
    by (intros; now apply all_chars_substring).
  unfold layout.
  destruct ((-4 <? decpt) && (decpt <=? 16)).
  - destruct (Z.leb_spec decpt 0).
    + exists "0", (repeat_char "0" (Z.to_nat (- decpt)) ++ ds), true, "", 0.
      split; [now rewrite sapp_nil_r|]. split; [discriminate|].
      split; [reflexivity|]. split; [now rewrite all_chars_app, Z0, D|].
      repeat split. discriminate.
    + destruct (Z.leb_spec (Z.of_nat (String.length ds)) decpt).
      * exists (ds ++ repeat_char "0"
                     (Z.to_nat (decpt - Z.of_nat (String.length ds)))),
          "0", true, "", 0.
        split; [now rewrite !sapp_assoc|].
        split; [destruct ds; [congruence|discriminate]|].
        split; [now rewrite all_chars_app, D, Z0|].
        repeat split. discriminate.
      * exists (substring 0 (Z.to_nat decpt) ds),
          (substring (Z.to_nat decpt)
                     (Z.to_nat (Z.of_nat (String.length ds) - decpt)) ds),
          true, "", 0.
        split; [now rewrite !sapp_assoc, ?sapp_nil_r|].
        split.
        { destruct ds as [|c r]; [congruence|].
          destruct (Z.to_nat decpt) as [|n] eqn:E; [lia|].
          rewrite substring_head. discriminate. }
        split; [apply Sb|]. split; [apply Sb|].
        repeat split. discriminate.
  - destruct (exponent_text (decpt - 1)) as [Ce [v Pv]].
    set (expo := "e" ++ (if decpt - 1 <? 0 then "-" else "+")
                     ++ (if Z.abs (decpt - 1) <? 10 then "0" else "")
                     ++ of_Z (Z.abs (decpt - 1))) in *.
    exists (substring 0 1 ds),
      (if 1 <? Z.of_nat (String.length ds)
       then substring 1 (Z.to_nat (Z.of_nat (String.length ds) - 1)) ds
       else ""),
      (1 <? Z.of_nat (String.length ds)), expo, v.
    split.
    { destruct (1 <? Z.of_nat (String.length ds)); reflexivity. }
    split.
    { destruct ds as [|c r]; [congruence|].
      change 1%nat with (S 0). rewrite substring_head. discriminate. }
    split; [apply Sb|].
    split; [destruct (1 <? Z.of_nat (String.length ds)); [apply Sb|reflexivity]|].
    split; [intros ->; reflexivity|].
    split; [exact Ce|]. split; [split; reflexivity|exact Pv].
Qed.

(** What [repr] writes, [float] reads as some float. *)
Lemma of_string_repr f : exists g, of_string (repr f) = Some g.
Proof.
  destruct f as [s|s| |s m e].
  - destruct s; eexists; reflexivity.
  - destruct s; eexists; reflexivity.
  - eexists; reflexivity.
  - unfold repr.
    destruct (match e with
              | Z.neg k => (Z.pos m, Z.pos (2 ^ k))
              | _ => (Z.pos m * 2 ^ e, 1)
              end) as [num den].
    destruct (shortest_search 17 _ num den (decpt_of num den) 1) as [D k].
    destruct (strip_zeros 20 D k) as [D' k'].
    destruct (of_Z_digits D') as [Nd Dd].
    destruct (layout_parts (of_Z D') (Z.of_nat (String.length (of_Z D')) + k')
                Nd Dd)
      as [ip [fp [point [expo [x [L [Ni [Di [Df [Pf [Ce [He Px]]]]]]]]]]]].
    rewrite L.
    eexists. apply (of_string_decimal_exp s ip fp point expo x); assumption.
Qed.

(** [str] of an int reads as a float. *)
Lemma of_string_of_int z : exists g, of_string (Dec.of_int z) = Some g.
Proof.
  unfold Dec.of_int. destruct (z <? 0).
  - destruct (of_Z_digits (- z)) as [N D].
    pose proof (of_string_decimal true (of_Z (- z)) "" false N D eq_refl
                  (fun _ => eq_refl)) as H.
    cbn [sign_str append] in H. rewrite sapp_nil_r in H.
    cbn [append] in H. eexists. exact H.
  - destruct (of_Z_digits z) as [N D].
    pose proof (of_string_decimal false (of_Z z) "" false N D eq_refl
                  (fun _ => eq_refl)) as H.
    cbn [sign_str append] in H. rewrite sapp_nil_r in H.
    eexists. exact H.
Qed.

End NumberText.

(** ** Valid action records *)

Section ValidRecordFacts.

Import Py PyStr Client.

Lemma small_int_cases z :
  -1 <= z <= 6 ->
  z = -1 \/ z = 0 \/ z = 1 \/ z = 2 \/ z = 3 \/ z = 4 \/ z = 5 \/ z = 6.
Proof. lia. Qed.

(** The ints of a valid record are floats of the same value. *)
Lemma small_int_float z :
  -1 <= z <= 6 ->
  exists f, PyFloat.of_int z = Some f
            /\ PyFloat.is_finite f = true
            /\ (PyFloat.to_Q f == inject_Z z)%Q.
Proof.
  intro H. apply small_int_cases in H.
  repeat (destruct H as [->|H];
          [eexists; split; [reflexivity|split; reflexivity]|]).
  subst. eexists; split; [reflexivity|split; reflexivity].
Qed.

Lemma small_scalar_finite a : small_scalar a -> finite_number a = true.
Proof.
  destruct a as [|b|z|f|s]; cbn [small_scalar]; try tauto.
  - intros _. destruct b; reflexivity.
  - intro H. destruct (small_int_float z H) as [f [E [F _]]].
    unfold finite_number. cbn [as_float]. now rewrite E.
Qed.

(** The float written for a scalar of a valid record has the scalar's
    value. *)
Lemma small_scalar_value a f q :
  small_scalar a ->
  as_float a = Some f -> num_of a = Some (XFin q) ->
  (PyFloat.to_Q f == q)%Q.
Proof.
  destruct a as [|b|z|g|s]; cbn [small_scalar as_float num_of]; try tauto.
  - intros _ E [= <-]. destruct b; injection E as <-; reflexivity.
  - intros H E [= <-]. destruct (small_int_float z H) as [f' [E' [_ V]]].
    congruence.
  - intros _ [= ->] N.
    destruct f as [s|s| |s m e]; try discriminate; injection N as <-;
      reflexivity.
Qed.

Lemma real_within_small lo hi a :
  -1 <= lo -> hi <= 6 -> real_within lo hi a = true -> small_scalar a.
Proof.
  intros L H. destruct a as [|b|z|f|s]; cbn [real_within small_scalar];
    try discriminate.
  - intro B. apply andb_prop in B. destruct B as [B1 B2].
    apply Z.leb_le in B1, B2. lia.
  - intro B. apply andb_prop in B. destruct B as [B _].
    apply andb_prop in B. tauto.
Qed.

Lemma real_token a lo hi :
  real_within lo hi a = true -> token (str a) = true.
Proof.
  destruct a as [|b|z|f|s]; cbn [real_within str]; try discriminate; intros _.
  - destruct (of_int_numeric z). now apply numeric_nonempty_token.
  - destruct (repr_numeric f). now apply numeric_nonempty_token.
Qed.

Lemma valid_field_key k v : valid_field k v = true -> In k action_fields.
Proof.
  unfold valid_field, action_fields.
  repeat match goal with
         | |- context [String.eqb k ?s] =>
             destruct (String.eqb_spec k s); [subst; simpl; tauto|]
         end.
  cbn [orb]. discriminate.
Qed.

(** A field in its range can be written and taken apart again. *)
Lemma valid_field_entry_ok k v :
  valid_field k v = true ->
  entry_ok (k, v)
  /\ match v with VScalar a => small_scalar a | VList _ => True end.
Proof.
  intro V. pose proof (valid_field_key k v V) as I.
  assert (T : token k = true).
  { unfold action_fields in I. simpl in I.
    repeat (destruct I as [<-|I]; [reflexivity|]). destruct I. }
  unfold entry_ok. cbn [fst snd]. rewrite T.
  unfold valid_field in V.
  repeat match type of V with
         | context [String.eqb k ?s] => destruct (String.eqb k s)
         end; cbn [orb] in V; try discriminate.
  all: first
    [ solve [ destruct v as [a|l]; [|discriminate];
              assert (S : small_scalar a)
                by (refine (real_within_small _ _ a _ _ V); lia);
              split; [split; [reflexivity|now apply small_scalar_finite]
                     |exact S] ]
    | solve [ destruct v as [[|b|z|f|s]|l]; try discriminate;
              [ split; [split; [reflexivity|destruct b; reflexivity]|exact Logic.I]
              | assert (S : small_scalar (AInt z))
                  by (apply andb_prop in V; destruct V as [V1 V2];
                      apply Z.leb_le in V1, V2; cbn; lia);
                split; [split; [reflexivity|now apply small_scalar_finite]
                       |exact S] ] ]
    | solve [ destruct v as [[|b|z|f|s]|l]; try discriminate;
              assert (S : small_scalar (AInt z))
                by (apply andb_prop in V; destruct V as [V1 V2];
                    apply Z.leb_le in V1, V2; cbn; lia);
              split; [split; [reflexivity|now apply small_scalar_finite]
                     |exact S] ]
    | destruct v as [a|l];
      [ assert (S : small_scalar a)
          by (refine (real_within_small _ _ a _ _ V); lia);
        split; [split; [reflexivity|now apply small_scalar_finite]|exact S]
      | split; [|exact Logic.I]; split; [reflexivity|];
        rewrite forallb_forall in V; apply Forall_forall;
        intros x Ix; eapply real_token; exact (V x Ix) ] ].
Qed.

Lemma get_in k v d : get k d = Some v -> In (k, v) d.
Proof.
  induction d as [|[k' v'] r IH]; simpl; [discriminate|].
  destruct (String.eqb_spec k k') as [->|N].
  - intros [= ->]. now left.
  - intro H. right. auto.
Qed.

Lemma in_get k v d : NoDup (keys d) -> In (k, v) d -> get k d = Some v.
Proof.
  unfold keys.
  induction d as [|[k' v'] r IH]; simpl; [tauto|].
  intros ND [E|I].
  - injection E as -> ->. now rewrite String.eqb_refl.
  - inversion ND as [|? ? NI ND']; subst.
    destruct (String.eqb_spec k k') as [->|N]; [|auto].
    exfalso. apply NI. apply in_map_iff. now exists (k', v).
Qed.

(** A valid record holds the seven fields once each, and each in its
    range. *)
Lemma valid_actions_spec d :
  valid_actions d = true ->
  d <> []
  /\ NoDup (keys d)
  /\ Forall (fun kv => valid_field (fst kv) (snd kv) = true) d.
Proof.
  unfold valid_actions. intro H. apply andb_prop in H. destruct H as [L F].
  apply Nat.eqb_eq in L. rewrite forallb_forall in F.
  assert (Inc : incl action_fields (keys d)).
  { intros k I. specialize (F k I).
    destruct (get k d) as [v|] eqn:G; [|discriminate].
    apply get_in in G. unfold keys. apply in_map_iff. now exists (k, v). }
  assert (Len : (List.length (keys d) <= List.length action_fields)%nat).
  { unfold keys. rewrite length_map, L. simpl. lia. }
  pose proof (NoDup_incl_NoDup action_fields_NoDup Len Inc) as ND.
  pose proof (NoDup_length_incl action_fields_NoDup Len Inc) as Inc'.
  split; [destruct d; [discriminate|discriminate]|]. split; [exact ND|].
  apply Forall_forall. intros [k v] I. cbn [fst snd].
  assert (Ik : In k action_fields).
  { apply Inc'. unfold keys. apply in_map_iff. now exists (k, v). }
  specialize (F k Ik). rewrite (in_get k v d ND I) in F. exact F.
Qed.

End ValidRecordFacts.

(** ** Writing a record and reading it back *)

Section RoundTrip.

Import Py PyStr Client.
Local Open Scope py_scope.

Lemma groups_ok d : Forall entry_ok d -> exists s, groups d = Ok s.
Proof.
  induction 1 as [|[k v] r [_ E] _ [s IH]]; [now exists ""|].
  cbn [groups]. rewrite IH. cbn [snd] in E.
  destruct v as [a|l]; cbn [field_text].
  - destruct (format_3f_number a E) as [f [neg [n [_ [_ [-> _]]]]]].
    cbn [rbind]. eexists. reflexivity.
  - cbn [rbind]. eexists. reflexivity.
Qed.

Lemma read_fields_rel d : forall fields,
  read_fields d = Ok fields ->
  Forall2 (fun kv kt => fst kt = fst kv /\ field_reads (snd kv) (snd kt))
          d fields.
Proof.
  induction d as [|[k v] rest IH]; intros fields R.
  - injection R as <-. constructor.
  - rewrite read_fields_cons in R.
    destruct (match v with
              | VScalar a => t <~ format_3f a; Ok [t]
              | VList [] => Ok match rest with [] => [] | _ :: _ => [""] end
              | VList ((_ :: _) as l) => Ok (map str l)
              end) as [toks|e] eqn:T; cbn [rbind] in R; [|discriminate].
    destruct (read_fields rest) as [fs|e] eqn:Rr; cbn [rbind] in R;
      [|discriminate].
    injection R as <-. constructor; [|now apply IH].
    cbn [fst snd]. split; [reflexivity|].
    destruct v as [a|[|x l]]; cbn [field_reads].
    + destruct (format_3f a) as [t|e]; cbn [rbind] in T; [|discriminate].
      injection T as <-. now exists t.
    + injection T as <-. destruct rest; [now left|now right].
    + injection T as <-. now left.
Qed.

Lemma tail_of_cases d : tail_of d = "" \/ tail_of d = " ".
Proof.
  induction d as [|[k v] rest IH]; [now left|].
  destruct rest as [|kv2 r].
  - destruct v as [a|[|x l]]; simpl; auto.
  - assert (tail_of ((k, v) :: kv2 :: r) = tail_of (kv2 :: r)) as ->
        by (destruct v as [a|[|x l]]; reflexivity).
    exact IH.
Qed.

Lemma token_ends_plain s : token s = true -> ends_plain s = true.
Proof.
  intro T. destruct (token_facts _ T) as [P [c [r [E _]]]].
  destruct (string_last_cases s) as [->|[a [x ->]]]; [discriminate|].
  unfold ends_plain. rewrite last_char_app. cbn [last_char].
  now apply all_chars_last in P.
Qed.

Lemma ends_plain_app a b : ends_plain b = true -> ends_plain (a ++ b) = true.
Proof.
  unfold ends_plain. rewrite last_char_app.
  destruct (last_char b); [auto|discriminate].
Qed.

Lemma ends_plain_join sep toks :
  toks <> [] -> Forall (fun t => token t = true) toks ->
  ends_plain (join sep toks) = true.
Proof.
  intros NE F. induction F as [|t r T F IH]; [congruence|].
  destruct r as [|u r']; [now apply token_ends_plain|].
  change (join sep (t :: u :: r')) with (t ++ sep ++ join sep (u :: r')).
  apply ends_plain_app, ends_plain_app, IH. discriminate.
Qed.

(** The tokens of the fields of an encoded record are plain, and its
    last segment ends with a plain character. *)
Lemma read_fields_plain d : forall fields,
  Forall entry_ok d ->
  read_fields d = Ok fields ->
  Forall (fun kt => token (fst kt) = true
                    /\ Forall (fun t => all_chars plain t = true) (snd kt))
         fields
  /\ (d <> [] -> ends_plain (join ")(" (map segment fields)) = true).
Proof.
  induction d as [|[k v] rest IH]; intros fields E R.
  - injection R as <-. split; [constructor|congruence].
  - inversion E as [|? ? [Tk Ev] E']; subst. cbn [fst snd] in Tk, Ev.
    rewrite read_fields_cons in R.
    destruct (match v with
              | VScalar a => t <~ format_3f a; Ok [t]
              | VList [] => Ok match rest with [] => [] | _ :: _ => [""] end
              | VList ((_ :: _) as l) => Ok (map str l)
              end) as [toks|e] eqn:T; cbn [rbind] in R; [|discriminate].
    destruct (read_fields rest) as [fs|e] eqn:Rr; cbn [rbind] in R;
      [|discriminate].
    injection R as <-. destruct (IH fs E' eq_refl) as [IH1 IH2].
    (* the tokens of this field are tokens, or the one empty token *)
    assert (Tt : Forall (fun t => token t = true) toks
                 \/ (toks = [""] /\ rest <> [])).
    { destruct v as [a|[|x l]].
      - destruct (format_3f_number a Ev) as [f [neg [n [_ [N [Ef _]]]]]].
        rewrite Ef in T. cbn [rbind] in T. injection T as <-.
        left. constructor; [|constructor].
        destruct (format_3f_text neg n N) as [A [B _]].
        now apply numeric_nonempty_token.
      - injection T as <-. destruct rest; [left; constructor|right].
        split; [reflexivity|discriminate].
      - injection T as <-. left.
        change (Forall (fun t => token t = true) (map str (x :: l))).
        now apply Forall_map. }
    assert (Tp : Forall (fun t => all_chars plain t = true) toks).
    { destruct Tt as [Tt|[-> _]]; [|repeat constructor].
      eapply Forall_impl; [|exact Tt]. intros t Ht. now apply token_facts. }
    split; [constructor; [split; assumption|exact IH1]|].
    intros _. destruct fs as [|f1 fs1].
    + (* the last field *)
      assert (rest = []) as -> by (destruct rest as [|[k2 v2] r2]; [reflexivity|];
        rewrite read_fields_cons in Rr;
        destruct (match v2 with
                  | VScalar a => t <~ format_3f a; Ok [t]
                  | VList [] => Ok match r2 with [] => [] | _ :: _ => [""] end
                  | VList ((_ :: _) as l) => Ok (map str l)
                  end); cbn [rbind] in Rr; [|discriminate];
        destruct (read_fields r2); discriminate).
      cbn [map join]. unfold segment. cbn [fst snd].
      destruct Tt as [Tt|[_ C]]; [|congruence].
      apply ends_plain_join; [discriminate|]. constructor; assumption.
    + change (join ")(" (map segment ((k, toks) :: f1 :: fs1)))
        with (segment (k, toks) ++ ")(" ++ join ")(" (map segment (f1 :: fs1))).
      apply ends_plain_app, ends_plain_app, IH2.
      destruct rest; [discriminate|discriminate].
Qed.

(** Each field of the record is found again under its key, decoded from
    the tokens read for it. *)
Lemma get_decoded d fields :
  Forall2 (fun kv kt => fst kt = fst kv /\ field_reads (snd kv) (snd kt))
          d fields ->
  forall k v,
    get k d = Some v ->
    exists toks,
      field_reads v toks
      /\ get k (map decoded fields) = Some (fst (destringify_list toks)).
Proof.
  induction 1 as [|[k0 v0] [k1 toks] d' fs [Ek Rd] _ IH]; intros k v G;
    [discriminate|].
  cbn [fst snd] in Ek, Rd. subst k1. cbn [map get decoded fst snd] in *.
  destruct (String.eqb k k0).
  - injection G as <-. now exists toks.
  - now apply IH.
Qed.

Lemma destringify_each_reread l :
  fst (destringify_each (map str l)) = map reread l.
Proof.
  induction l as [|x r IH]; [reflexivity|].
  cbn [map destringify_each]. unfold reread at 1.
  destruct (destringify_str (str x)) as [a p].
  destruct (destringify_each (map str r)) as [b q].
  cbn [fst] in *. now rewrite IH.
Qed.

Lemma destringify_str_float t g :
  t <> "" -> PyFloat.of_string t = Some g ->
  destringify_str t = (AFloat g, []).
Proof.
  intros N E. unfold destringify_str. rewrite E.
  destruct t; [congruence|reflexivity].
Qed.

Lemma keys_decoded fields : keys (map decoded fields) = map fst fields.
Proof. unfold keys. rewrite map_map. reflexivity. Qed.

(** The elements of a valid list are read back as floats. *)
Lemma reread_float x lo hi :
  real_within lo hi x = true -> exists g, reread x = AFloat g.
Proof.
  intro R. pose proof (real_token x lo hi R) as T.
  assert (N : str x <> "").
  { destruct (token_facts _ T) as [_ [c [r [E _]]]]. rewrite E. discriminate. }
  assert (P : exists g, PyFloat.of_string (str x) = Some g).
  { destruct x as [|b|z|f|s]; try discriminate R; cbn [str].
    - apply of_string_of_int.
    - apply of_string_repr. }
  destruct P as [g P]. exists g. unfold reread.
  now rewrite (destringify_str_float _ g N P).
Qed.

Lemma valid_list_elements k l :
  valid_field k (VList l) = true ->
  Forall (fun x => exists g, reread x = AFloat g) l.
Proof.
  unfold valid_field.
  repeat match goal with
         | |- context [String.eqb k ?s] => destruct (String.eqb k s)
         end; cbn [orb]; try discriminate.
  all: intro V; rewrite forallb_forall in V; apply Forall_forall;
    intros x Ix; eapply reread_float; exact (V x Ix).
Qed.

End RoundTrip.

(** ** Order of numbers *)

Section NumberOrder.

Import Py Client.
Local Open Scope py_scope.

Lemma scalar_lt_num a b x y :
  num_of a = Some x -> num_of b = Some y -> scalar_lt a b = Ok (xlt x y).
Proof. intros A B. unfold scalar_lt, xlt. now rewrite A, B. Qed.

Lemma scalar_lt_ok a b r :
  scalar_lt a b = Ok r ->
  (exists x y, num_of a = Some x /\ num_of b = Some y /\ r = xlt x y)
  \/ (exists s t, a = AStr s /\ b = AStr t).
Proof.
  unfold scalar_lt, xlt.
  destruct (num_of a) as [x|] eqn:A, (num_of b) as [y|] eqn:B.
  - intros [= <-]. left. now exists x, y.
  - destruct a, b; try discriminate; intros _; right; eauto.
  - destruct a, b; try discriminate; intros _; right; eauto.
  - destruct a, b; try discriminate; intros _; right; eauto.
Qed.

Lemma scalar_lt_raise a b e :
  scalar_lt a b = Raise e ->
  e = TypeError /\ (number a = false \/ number b = false).
Proof.
  unfold scalar_lt, number.
  destruct (num_of a) as [x|] eqn:A, (num_of b) as [y|] eqn:B;
    try discriminate.
  - destruct a, b; try discriminate; intros [= <-]; auto.
  - destruct a, b; try discriminate; intros [= <-]; auto.
  - destruct a, b; try discriminate; intros [= <-]; auto.
Qed.

Lemma number_num a : number a = true -> exists x, num_of a = Some x.
Proof. unfold number. destruct (num_of a); [eauto|discriminate]. Qed.

Lemma xlt_nan_l y : xlt XNan y = false.
Proof. reflexivity. Qed.

Lemma xlt_nan_r x : xlt x XNan = false.
Proof. now destruct x. Qed.

(** [x < y <= z] and [x <= y < z] on numbers that are not NaN. *)
Lemma xlt_le_trans x y z :
  not_nan x = true -> not_nan y = true -> not_nan z = true ->
  xlt x y = true -> xlt z y = false -> xlt x z = true.
Proof.
  unfold xlt.
  destruct x as [|s|p], y as [|t|q], z as [|u|r]; try discriminate;
    intros _ _ _; cbn [xcompare];
    try (destruct s); try (destruct t); try (destruct u);
    try discriminate; try reflexivity.
  destruct (Qcompare_spec p q) as [E|L|G]; try discriminate. intros _.
  destruct (Qcompare_spec r q) as [E'|L'|G']; try discriminate; intros _.
  - rewrite E' . destruct (Qcompare_spec p q) as [E2|L2|G2]; auto.
    + rewrite E2 in L. now apply Qlt_irrefl in L.
    + exfalso. apply (Qlt_irrefl p). now apply Qlt_trans with q.
  - destruct (Qcompare_spec p r) as [E2|L2|G2]; auto.
    + exfalso. rewrite E2 in L. apply (Qlt_irrefl r). now apply Qlt_trans with q.
    + exfalso. apply (Qlt_irrefl p).
      apply Qlt_trans with q; [assumption|]. now apply Qlt_trans with r.
Qed.

Lemma xlt_asym x y : xlt x y = true -> xlt y x = false.
Proof.
  unfold xlt.
  destruct x as [|s|p], y as [|t|q]; cbn [xcompare];
    try (destruct s); try (destruct t); try discriminate; try reflexivity.
  destruct (Qcompare_spec p q) as [E|L|G]; try discriminate. intros _.
  destruct (Qcompare_spec q p) as [E2|L2|G2]; auto.
  exfalso. apply (Qlt_irrefl p). now apply Qlt_trans with q.
Qed.

(** [y <= x] and [z <= y] give [z <= x]. *)
Lemma xlt_false_trans x y z :
  not_nan x = true -> not_nan y = true -> not_nan z = true ->
  xlt x y = false -> xlt y z = false -> xlt x z = false.
Proof.
  intros X Y Z A B.
  destruct (xlt x z) eqn:C; [|reflexivity].
  rewrite (xlt_le_trans x z y X Z Y C B) in A. discriminate.
Qed.

Lemma ordered_num a :
  ordered a = true -> exists x, num_of a = Some x /\ not_nan x = true.
Proof. unfold ordered. destruct (num_of a); [eauto|discriminate]. Qed.

Lemma ordered_number a : ordered a = true -> number a = true.
Proof. unfold ordered, number. now destruct (num_of a). Qed.

(** *** [min] and [max] *)

Lemma min_from_numbers l : forall best m,
  min_from best l = Ok m -> number m = true ->
  number best = true /\ Forall (fun y => number y = true) l.
Proof.
  induction l as [|x r IH]; intros best m; cbn [min_from].
  - intros [= ->] N. auto.
  - unfold rbind. destruct (scalar_lt x best) as [b|] eqn:E; [|discriminate].
    intros H N. destruct (IH _ _ H N) as [Nb Nr].
    destruct (scalar_lt_ok _ _ _ E) as [[u [v [U [V _]]]]|[s [t [-> ->]]]].
    + split; [unfold number; now rewrite V|].
      constructor; [unfold number; now rewrite U|exact Nr].
    + destruct b; discriminate.
Qed.

Lemma max_from_numbers l : forall best m,
  max_from best l = Ok m -> number m = true ->
  number best = true /\ Forall (fun y => number y = true) l.
Proof.
  induction l as [|x r IH]; intros best m; cbn [max_from].
  - intros [= ->] N. auto.
  - unfold rbind, scalar_gt.
    destruct (scalar_lt best x) as [b|] eqn:E; [|discriminate].
    intros H N. destruct (IH _ _ H N) as [Nb Nr].
    destruct (scalar_lt_ok _ _ _ E) as [[u [v [U [V _]]]]|[s [t [-> ->]]]].
    + split; [unfold number; now rewrite U|].
      constructor; [unfold number; now rewrite V|exact Nr].
    + destruct b; discriminate.
Qed.

Lemma min_from_total l : forall best,
  number best = true -> Forall (fun y => number y = true) l ->
  exists m, min_from best l = Ok m /\ number m = true.
Proof.
  induction l as [|x r IH]; intros best Nb F; cbn [min_from].
  - eauto.
  - inversion F as [|? ? Nx Fr]; subst.
    destruct (number_num _ Nx) as [u U], (number_num _ Nb) as [v V].
    rewrite (scalar_lt_num _ _ _ _ U V). cbn [rbind].
    apply IH; [|assumption]. now destruct (xlt u v).
Qed.

Lemma max_from_total l : forall best,
  number best = true -> Forall (fun y => number y = true) l ->
  exists m, max_from best l = Ok m /\ number m = true.
Proof.
  induction l as [|x r IH]; intros best Nb F; cbn [max_from].
  - eauto.
  - inversion F as [|? ? Nx Fr]; subst.
    destruct (number_num _ Nx) as [u U], (number_num _ Nb) as [v V].
    unfold scalar_gt. rewrite (scalar_lt_num _ _ _ _ V U). cbn [rbind].
    apply IH; [|assumption]. now destruct (xlt v u).
Qed.

(** With a NaN in hand, [min] and [max] keep it. *)
Lemma min_from_nan l : forall best m,
  is_nan best = true -> min_from best l = Ok m -> m = best.
Proof.
  induction l as [|x r IH]; intros best m Nb; cbn [min_from].
  - now intros [= ->].
  - unfold rbind. destruct (scalar_lt x best) as [b|] eqn:E; [|discriminate].
    assert (b = false) as ->.
    { unfold is_nan in Nb.
      destruct (scalar_lt_ok _ _ _ E) as [[u [v [U [V ->]]]]|[s [t [-> ->]]]].
      - rewrite V in Nb. destruct v; try discriminate. apply xlt_nan_r.
      - discriminate. }
    now apply IH.
Qed.

Lemma max_from_nan l : forall best m,
  is_nan best = true -> max_from best l = Ok m -> m = best.
Proof.
  induction l as [|x r IH]; intros best m Nb; cbn [max_from].
  - now intros [= ->].
  - unfold rbind, scalar_gt.
    destruct (scalar_lt best x) as [b|] eqn:E; [|discriminate].
    assert (b = false) as ->.
    { unfold is_nan in Nb.
      destruct (scalar_lt_ok _ _ _ E) as [[u [v [U [V ->]]]]|[s [t [-> ->]]]].
      - rewrite U in Nb. destruct u; try discriminate. reflexivity.
      - discriminate. }
    now apply IH.
Qed.

(** No element is below a bound that the minimum is not below. *)
Lemma min_from_lower B l : forall best m u,
  not_nan B = true ->
  Forall (fun y => ordered y = true) (best :: l) ->
  min_from best l = Ok m -> num_of m = Some u -> xlt u B = false ->
  Forall (fun y => exists v, num_of y = Some v /\ not_nan v = true
                             /\ xlt v B = false) (best :: l).
Proof.
  intro best. revert best.
  induction l as [|x r IH]; intros best m u NB F; cbn [min_from].
  - intros [= ->] U L. inversion F as [|? ? Ob _]; subst.
    destruct (ordered_num _ Ob) as [v [V Nv]].
    constructor; [|constructor]. exists v. rewrite U in V. injection V as <-.
    auto.
  - inversion F as [|? ? Ob F']; subst. inversion F' as [|? ? Ox Fr]; subst.
    destruct (ordered_num _ Ob) as [vb [Vb Nb]].
    destruct (ordered_num _ Ox) as [vx [Vx Nx]].
    rewrite (scalar_lt_num _ _ _ _ Vx Vb). cbn [rbind].
    intros H U L.
    destruct (xlt vx vb) eqn:C.
    + assert (G : Forall (fun y => ordered y = true) (x :: r))
        by now constructor.
      pose proof (IH x m u NB G H U L) as R.
      inversion R as [|? ? [v [V [Nv Lv]]] Rr]; subst.
      rewrite Vx in V. injection V as <-.
      constructor; [|now constructor; [exists vx|]].
      exists vb. split; [assumption|split; [assumption|]].
      destruct (xlt vb B) eqn:D; [|reflexivity].
      rewrite (xlt_le_trans vx vb B Nx Nb NB C (xlt_asym _ _ D)) in Lv.
      discriminate.
    + assert (G : Forall (fun y => ordered y = true) (best :: r))
        by now constructor.
      pose proof (IH best m u NB G H U L) as R.
      inversion R as [|? ? [v [V [Nv Lv]]] Rr]; subst.
      rewrite Vb in V. injection V as <-.
      constructor; [now exists vb|].
      constructor; [|assumption].
      exists vx. split; [assumption|split; [assumption|]].
      destruct (xlt vx B) eqn:D; [|reflexivity].
      rewrite (xlt_le_trans vx B vb Nx NB Nb D Lv) in C. discriminate.
Qed.

(** No element is above a bound that the maximum is not above. *)
Lemma max_from_upper B l : forall best m u,
  not_nan B = true ->
  Forall (fun y => ordered y = true) (best :: l) ->
  max_from best l = Ok m -> num_of m = Some u -> xlt B u = false ->
  Forall (fun y => exists v, num_of y = Some v /\ not_nan v = true
                             /\ xlt B v = false) (best :: l).
Proof.
  intro best. revert best.
  induction l as [|x r IH]; intros best m u NB F; cbn [max_from].
  - intros [= ->] U L. inversion F as [|? ? Ob _]; subst.
    destruct (ordered_num _ Ob) as [v [V Nv]].
    constructor; [|constructor]. exists v. rewrite U in V. injection V as <-.
    auto.
  - inversion F as [|? ? Ob F']; subst. inversion F' as [|? ? Ox Fr]; subst.
    destruct (ordered_num _ Ob) as [vb [Vb Nb]].
    destruct (ordered_num _ Ox) as [vx [Vx Nx]].
    unfold scalar_gt. rewrite (scalar_lt_num _ _ _ _ Vb Vx). cbn [rbind].
    intros H U L.
    destruct (xlt vb vx) eqn:C.
    + assert (G : Forall (fun y => ordered y = true) (x :: r))
        by now constructor.
      pose proof (IH x m u NB G H U L) as R.
      inversion R as [|? ? [v [V [Nv Lv]]] Rr]; subst.
      rewrite Vx in V. injection V as <-.
      constructor; [|now constructor; [exists vx|]].
      exists vb. split; [assumption|split; [assumption|]].
      destruct (xlt B vb) eqn:D; [|reflexivity].
      rewrite (xlt_le_trans B vb vx NB Nb Nx D (xlt_asym _ _ C)) in Lv.
      discriminate.
    + assert (G : Forall (fun y => ordered y = true) (best :: r))
        by now constructor.
      pose proof (IH best m u NB G H U L) as R.
      inversion R as [|? ? [v [V [Nv Lv]]] Rr]; subst.
      rewrite Vb in V. injection V as <-.
      constructor; [now exists vb|].
      constructor; [|assumption].
      exists vx. split; [assumption|split; [assumption|]].
      destruct (xlt B vx) eqn:D; [|reflexivity].
      rewrite (xlt_le_trans B vx vb NB Nx Nb D C) in Lv. discriminate.
Qed.

Lemma between_in_range lo hi a v :
  num_of a = Some v -> not_nan v = true ->
  xlt v (XFin (inject_Z lo)) = false ->
  xlt (XFin (inject_Z hi)) v = false ->
  in_range lo hi a = true.
Proof.
  intros V N L H. unfold in_range, within. rewrite V.
  destruct v as [|s|q]; [discriminate| |].
  - destruct s; discriminate.
  - unfold xlt in L, H. cbn [xcompare] in L, H.
    apply andb_true_iff. split; apply Qle_bool_iff.
    + destruct (Qcompare_spec q (inject_Z lo)) as [E|C|C];
        try discriminate.
      * rewrite E. apply Qle_refl.
      * now apply Qlt_le_weak.
    + destruct (Qcompare_spec (inject_Z hi) q) as [E|C|C];
        try discriminate.
      * rewrite E. apply Qle_refl.
      * now apply Qlt_le_weak.
Qed.

Lemma in_range_between lo hi a :
  in_range lo hi a = true ->
  exists q, num_of a = Some (XFin q)
            /\ xlt (XFin q) (XFin (inject_Z lo)) = false
            /\ xlt (XFin (inject_Z hi)) (XFin q) = false.
Proof.
  unfold in_range, within.
  destruct (num_of a) as [[|s|q]|]; try discriminate.
  intro H. apply andb_true_iff in H. destruct H as [L U].
  apply Qle_bool_iff in L, U. exists q. split; [reflexivity|].
  unfold xlt. cbn [xcompare]. split.
  - destruct (Qcompare_spec q (inject_Z lo)) as [E|C|C]; auto.
    exfalso. apply (Qlt_irrefl q). now apply Qlt_le_trans with (inject_Z lo).
  - destruct (Qcompare_spec (inject_Z hi) q) as [E|C|C]; auto.
    exfalso. apply (Qlt_irrefl q). now apply Qle_lt_trans with (inject_Z hi).
Qed.

End NumberOrder.

(** ** Validation: what [limit_actions] raises, keeps and guarantees *)

Section MoreValidation.

Import Py Client.
Local Open Scope py_scope.

Lemma updates_fixed us : forall d,
  (forall k f, In (k, f) us -> exists v, get k d = Some v /\ f v = Ok v) ->
  updates us d = (d, Ok tt).
Proof.
  induction us as [|[k f] r IH]; intros d H; [reflexivity|].
  rewrite updates_cons.
  destruct (H k f (or_introl eq_refl)) as [v [G F]].
  rewrite G, F, (set_get_id _ _ _ G).
  apply IH. intros k' f' I. apply H. now right.
Qed.

Lemma updates_raise us :
  NoDup (map fst us) ->
  forall d e,
    snd (updates us d) = Raise e ->
    exists k f,
      In (k, f) us
      /\ ((get k d = None /\ e = KeyError k)
          \/ exists v, get k d = Some v /\ f v = Raise e).
Proof.
  induction us as [|[k f] r IH]; intros ND d e.
  - discriminate.
  - cbn [map fst] in ND. inversion ND as [|? ? NI ND']; subst.
    rewrite updates_cons.
    destruct (get k d) as [v|] eqn:G.
    + destruct (f v) as [v'|e'] eqn:F.
      * intro H. destruct (IH ND' _ _ H) as [k2 [f2 [I R]]].
        exists k2, f2. split; [now right|].
        assert (N : k2 <> k).
        { intros ->. apply NI. apply in_map_iff. now exists (k, f2). }
        now rewrite (get_set_other _ _ _ _ N) in R.
      * cbn [snd]. intros [= <-]. exists k, f. split; [now left|].
        right. now exists v.
    + cbn [snd]. intros [= <-]. exists k, f. split; [now left|]. now left.
Qed.

Lemma num_of_int z : num_of (AInt z) = Some (XFin (inject_Z z)).
Proof. reflexivity. Qed.

Lemma limit_action_raise v lo hi e :
  limit_action v (AInt lo) (AInt hi) = Raise e ->
  e = TypeError /\ number_value v = false.
Proof.
  unfold limit_action, lt, gt, scalar_gt. destruct v as [a|l].
  - cbn [number_value]. unfold rbind.
    destruct (scalar_lt a (AInt lo)) as [b|e1] eqn:E1.
    + destruct b; [discriminate|].
      destruct (scalar_lt (AInt hi) a) as [c|e2] eqn:E2.
      * destruct c; discriminate.
      * intros [= <-]. destruct (scalar_lt_raise _ _ _ E2) as [-> [N|N]];
          [discriminate|auto].
    + intros [= <-]. destruct (scalar_lt_raise _ _ _ E1) as [-> [N|N]];
        [auto|discriminate].
  - intros [= <-]. auto.
Qed.

Lemma limit_action_ok v lo hi v' :
  limit_action v (AInt lo) (AInt hi) = Ok v' ->
  exists a x,
    v = VScalar a /\ num_of a = Some x
    /\ v' = if xlt x (XFin (inject_Z lo)) then VScalar (AInt lo)
            else if xlt (XFin (inject_Z hi)) x then VScalar (AInt hi)
                 else v.
Proof.
  unfold limit_action, lt, gt, scalar_gt. destruct v as [a|l]; [|discriminate].
  unfold rbind.
  destruct (scalar_lt a (AInt lo)) as [b|] eqn:E1; [|discriminate].
  destruct (scalar_lt_ok _ _ _ E1) as [[x [y [X [Y ->]]]]|[s [t [_ T]]]];
    [|discriminate].
  rewrite num_of_int in Y. injection Y as <-.
  intro H. exists a, x. split; [reflexivity|split; [assumption|]].
  destruct (xlt x (XFin (inject_Z lo))); [now injection H as <-|].
  rewrite (scalar_lt_num _ _ _ _ (num_of_int hi) X) in H.
  destruct (xlt (XFin (inject_Z hi)) x); now injection H as <-.
Qed.

Lemma min_from_raise l : forall best e,
  min_from best l = Raise e -> e = TypeError.
Proof.
  induction l as [|x r IH]; intros best e; cbn [min_from]; [discriminate|].
  unfold rbind. destruct (scalar_lt x best) as [b|e1] eqn:E.
  - apply IH.
  - intros [= <-]. now destruct (scalar_lt_raise _ _ _ E).
Qed.

Lemma max_from_raise l : forall best e,
  max_from best l = Raise e -> e = TypeError.
Proof.
  induction l as [|x r IH]; intros best e; cbn [max_from]; [discriminate|].
  unfold rbind, scalar_gt. destruct (scalar_lt best x) as [b|e1] eqn:E.
  - apply IH.
  - intros [= <-]. now destruct (scalar_lt_raise _ _ _ E).
Qed.

(** A [focus] list of numbers is never the cause of an exception. *)
Lemma keep_focus_numbers x l :
  Forall (fun y => number y = true) (x :: l) ->
  exists v', keep_focus (VList (x :: l)) = Ok v'.
Proof.
  intro F. inversion F as [|? ? Nx Fl]; subst.
  unfold keep_focus, min, max.
  destruct (min_from_total l x Nx Fl) as [lo [-> Nlo]].
  destruct (max_from_total l x Nx Fl) as [hi [-> Nhi]].
  cbn [rbind].
  destruct (number_num _ Nlo) as [u U], (number_num _ Nhi) as [w W].
  rewrite (scalar_lt_num _ _ _ _ U (num_of_int _)). cbn [rbind].
  destruct (xlt u _); [eauto|].
  unfold scalar_gt. rewrite (scalar_lt_num _ _ _ _ (num_of_int _) W).
  cbn [rbind]. destruct (xlt _ w); eauto.
Qed.

Lemma keep_focus_raise v e :
  keep_focus v = Raise e ->
  (e = ValueError /\ v = VList [])
  \/ (e = TypeError
      /\ exists l, v = VList l
                   /\ existsb (fun y => negb (number y)) l = true).
Proof.
  destruct v as [a|[|x l]]; [discriminate|cbn; intros [= <-]; auto|].
  intro H. right.
  assert (T : e = TypeError).
  { revert H. unfold keep_focus, min, max, rbind.
    destruct (min_from x l) as [lo|e1] eqn:M.
    - destruct (scalar_lt lo (AInt (-180))) as [b|e2] eqn:E2.
      + destruct b; [discriminate|].
        destruct (max_from x l) as [hi|e3] eqn:X.
        * unfold scalar_gt.
          destruct (scalar_lt (AInt 180) hi) as [c|e4] eqn:E4.
          -- destruct c; discriminate.
          -- intros [= <-]. now destruct (scalar_lt_raise _ _ _ E4).
        * intros [= <-]. eapply max_from_raise; eauto.
      + intros [= <-]. now destruct (scalar_lt_raise _ _ _ E2).
    - intros [= <-]. eapply min_from_raise; eauto. }
  split; [assumption|]. exists (x :: l). split; [reflexivity|].
  destruct (existsb (fun y => negb (number y)) (x :: l)) eqn:E;
    [reflexivity|exfalso].
  assert (F : Forall (fun y => number y = true) (x :: l)).
  { apply Forall_forall. intros y I.
    destruct (number y) eqn:N; [reflexivity|exfalso].
    assert (existsb (fun y => negb (number y)) (x :: l) = true).
    { apply existsb_exists. exists y. now rewrite N. }
    congruence. }
  destruct (keep_focus_numbers x l F) as [v' K]. congruence.
Qed.

Lemma keep_focus_ok v v' :
  keep_focus v = Ok v' ->
  v' = VScalar (AInt 0)
  \/ exists x l,
       v = VList (x :: l) /\ v' = v
       /\ Forall (fun y => number y = true) (x :: l)
       /\ (Forall (fun y => ordered y = true) (x :: l) ->
           Forall (fun y => in_range (-180) 180 y = true) (x :: l)).
Proof.
  destruct v as [a|[|x l]]; [cbn; intros [= <-]; auto|discriminate|].
  unfold keep_focus, min, max, rbind.
  destruct (min_from x l) as [lo|] eqn:M; [|discriminate].
  destruct (scalar_lt lo (AInt (-180))) as [b|] eqn:E1; [|discriminate].
  destruct b; [intros [= <-]; auto|].
  destruct (max_from x l) as [hi|] eqn:X; [|discriminate].
  unfold scalar_gt.
  destruct (scalar_lt (AInt 180) hi) as [c|] eqn:E2; [|discriminate].
  destruct c; [intros [= <-]; auto|].
  intros [= <-]. right. exists x, l.
  split; [reflexivity|split; [reflexivity|]].
  destruct (scalar_lt_ok _ _ _ E1) as [[u [y [U [Y L]]]]|[s [t [_ T]]]];
    [|discriminate].
  destruct (scalar_lt_ok _ _ _ E2) as [[y' [w [Y' [W H]]]]|[s [t [T _]]]];
    [|discriminate].
  rewrite num_of_int in Y, Y'. injection Y as <-. injection Y' as <-.
  assert (Nlo : number lo = true) by (unfold number; now rewrite U).
  split.
  - destruct (min_from_numbers _ _ _ M Nlo). now constructor.
  - intro O.
    pose proof (min_from_lower (XFin (inject_Z (-180))) l x lo u
                  eq_refl O M U (eq_sym L)) as A.
    pose proof (max_from_upper (XFin (inject_Z 180)) l x hi w
                  eq_refl O X W (eq_sym H)) as B.
    apply Forall_forall. intros z I.
    rewrite Forall_forall in A, B.
    destruct (A z I) as [v [V [Nv Lv]]], (B z I) as [v2 [V2 [_ Hv]]].
    rewrite V in V2. injection V2 as <-.
    eapply between_in_range; eauto.
Qed.

Lemma field_rule_of k :
  In k action_fields -> exists f, In (k, f) field_rules.
Proof.
  rewrite <- field_rules_keys. intro I. apply in_map_iff in I.
  destruct I as [[k' f] [E I]]. cbn in E. subst. eauto.
Qed.

End MoreValidation.

(* ================================================================== *)
(** * The claims *)

Section Claims.

Import Py Client Environment.
Local Open Scope py_scope.

(** C2 (as the code has it).  In [connect_to_server] every receive
    timeout lowers a counter that starts at 3 and is never set back.
    The server restart is called exactly when the counter reaches zero:
    once, at the third timeout since the handshake began, and at no
    later timeout.  The loop never hands a failure to its caller on a
    timeout: it goes on waiting, returns on the first reply holding the
    identification marker, and ends otherwise only when a send fails or
    a datagram cannot be decoded.  After three timeouts the restart
    comes right after the third, before the next send, and the loop
    goes on with the counter at zero. *)
Theorem connect_restarts_once_at_third_timeout sid port answers :
  restarts (fst (connect_to_server sid port answers))
  = (if (3 <=? timeouts answers)%nat then 1 else 0)%nat
  /\ match snd (connect_to_server sid port answers) with
     | Connected => existsb identifies answers = true
     | Waiting t => t = 3 - Z.of_nat (timeouts answers)
                    /\ existsb ends answers = false
     | Exited c => c = -1 /\ existsb send_fails answers = true
     | Raised e => e = UnicodeDecodeError
                   /\ existsb undecodable answers = true
     end
  /\ (forall n,
         restarts (fst (connect_to_server sid port (repeat timeout n)))
         = (if (3 <=? n)%nat then 1 else 0)%nat
         /\ snd (connect_to_server sid port (repeat timeout n))
            = Waiting (3 - Z.of_nat n))
  /\ (let initmsg := Sendto (sid ++ "(init " ++ sensor_angles ++ ")") in
      let waiting :=
        Print ("Waiting for server on port " ++ Dec.of_int port) in
      connect_to_server sid port (timeout :: timeout :: timeout :: answers)
      = (([initmsg; waiting; initmsg; waiting; initmsg; waiting;
           Print "Server didn't answer, sending restart signal";
           ServerRestart]
            ++ fst (connect_loop sid port 0 answers))%list,
         snd (connect_loop sid port 0 answers))
      /\ restarts (fst (connect_loop sid port 0 answers)) = 0%nat).
Proof.
  unfold connect_to_server. split; [|split; [|split]]; cycle 3.
  { split.
    - cbn [connect_loop timeout send_fails recv].
      change (3 - 1 - 1 - 1) with 0. change (3 - 1 - 1 =? 0) with false.
      change (3 - 1 =? 0) with false. change (0 =? 0) with true.
      destruct (connect_loop sid port 0 answers) as [ev st]. reflexivity.
    - rewrite connect_loop_restarts. reflexivity. }
  - rewrite connect_loop_restarts.
    destruct (Nat.leb_spec 3 (timeouts answers)); zbool.
  - apply connect_loop_status.
  - intro n. split.
    + rewrite connect_loop_restarts, timeouts_repeat.
      destruct (Nat.leb_spec 3 n); zbool.
    + pose proof (connect_loop_status sid port (repeat timeout n) 3) as H.
      rewrite timeouts_repeat in H.
      destruct (snd (connect_loop sid port 3 (repeat timeout n))) eqn:E.
      * exfalso. clear E. induction n; simpl in H; [discriminate|auto].
      * exfalso. destruct H as [_ H]. clear E.
        induction n; simpl in H; [discriminate|auto].
      * exfalso. destruct H as [_ H]. clear E.
        induction n; simpl in H; [discriminate|auto].
      * destruct H as [-> _]. reflexivity.
Qed.

(** C2, the claim as stated fails: after six timeouts in a row the
    restart has been called once, not twice, and the counter stands at
    -3, not at a value set back to 3. *)
Lemma connect_six_timeouts_single_restart :
  restarts (fst (connect_to_server "SCR" 3001 (repeat timeout 6))) <> 2%nat
  /\ restarts (fst (connect_to_server "SCR" 3001 (repeat timeout 6))) = 1%nat
  /\ snd (connect_to_server "SCR" 3001 (repeat timeout 6)) = Waiting (-3).
Proof. vm_compute. repeat split; discriminate. Qed.

(** C3, the failing input: on an action record whose [focus] is the
    empty list, [limit_actions] raises [ValueError] (from [min]) after
    it has clamped the other six fields. *)
Theorem limit_actions_empty_focus_raises :
  snd (limit_actions actions_empty_focus) = Raise ValueError
  /\ get "focus" (fst (limit_actions actions_empty_focus)) = Some (VList []).
Proof. vm_compute. split; reflexivity. Qed.

(** C4.  On a record with steer 5, gear 9, meta 2 and focus [200],
    whose brake, accel and clutch are numbers in [0,1],
    [limit_actions] returns and leaves steer = 1, gear = 0, meta = 0,
    focus = 0, and brake, accel and clutch as they were.  In general,
    after [limit_actions] has returned, a steer with a value lies in
    [-1,1], brake, accel and clutch lie in [0,1], gear is the gear
    given if that was one of -1..6 and 0 otherwise, meta is the meta
    given if that was 0 or 1 and 0 otherwise.  The clamping is exact:
    steer, brake, accel and clutch held numbers, and each now holds
    the lower bound (-1 for steer, 0 for the others) if the number was
    below it, else the upper bound 1 if the number was above it, else
    the number itself, as it was: a number within the bounds is not
    touched, an infinity goes to the bound on its side, a NaN stays. *)
Theorem limit_actions_clamps :
  (forall (d : dict) (b a c : value),
      get "steer" d = Some (VScalar (AInt 5)) ->
      get "gear" d = Some (VScalar (AInt 9)) ->
      get "meta" d = Some (VScalar (AInt 2)) ->
      get "focus" d = Some (VList [AInt 200]) ->
      get "brake" d = Some b -> within 0 1 b = true ->
      get "accel" d = Some a -> within 0 1 a = true ->
      get "clutch" d = Some c -> within 0 1 c = true ->
      let d' := fst (limit_actions d) in
      snd (limit_actions d) = Ok tt
      /\ get "steer" d' = Some (VScalar (AInt 1))
      /\ get "gear" d' = Some (VScalar (AInt 0))
      /\ get "meta" d' = Some (VScalar (AInt 0))
      /\ get "focus" d' = Some (VScalar (AInt 0))
      /\ get "brake" d' = Some b
      /\ get "accel" d' = Some a
      /\ get "clutch" d' = Some c)
  /\
  (forall (d : dict),
      snd (limit_actions d) = Ok tt ->
      let d' := fst (limit_actions d) in
      (forall k lo hi x q,
          In (k, (lo, hi)) clamp_bounds ->
          get k d' = Some (VScalar x) -> num_of x = Some (XFin q) ->
          (inject_Z lo <= q <= inject_Z hi)%Q)
      /\ (exists g, get "gear" d = Some g /\
            get "gear" d' = Some (if in_ints g [-1; 0; 1; 2; 3; 4; 5; 6]
                                  then g else VScalar (AInt 0)))
      /\ (exists m, get "meta" d = Some m /\
            get "meta" d' = Some (if in_ints m [0; 1]
                                  then m else VScalar (AInt 0))))
  /\
  (forall (d : dict),
      snd (limit_actions d) = Ok tt ->
      let d' := fst (limit_actions d) in
      exists s b a c,
        (get "steer" d = Some (VScalar s) /\ number s = true
         /\ get "steer" d' = Some (VScalar (clamped (-1) 1 s)))
        /\ (get "brake" d = Some (VScalar b) /\ number b = true
            /\ get "brake" d' = Some (VScalar (clamped 0 1 b)))
        /\ (get "accel" d = Some (VScalar a) /\ number a = true
            /\ get "accel" d' = Some (VScalar (clamped 0 1 a)))
        /\ (get "clutch" d = Some (VScalar c) /\ number c = true
            /\ get "clutch" d' = Some (VScalar (clamped 0 1 c))))
  /\
  (forall (lo hi : Z) (a : scalar),
      lo <= hi ->
      (forall q, num_of a = Some (XFin q) ->
                 ((q < inject_Z lo)%Q -> clamped lo hi a = AInt lo)
                 /\ ((inject_Z hi < q)%Q -> clamped lo hi a = AInt hi)
                 /\ ((inject_Z lo <= q <= inject_Z hi)%Q ->
                     clamped lo hi a = a))
      /\ (forall neg, num_of a = Some (XInf neg) ->
                      clamped lo hi a = AInt (if neg then lo else hi))
      /\ (num_of a = Some XNan -> clamped lo hi a = a)).
Proof.
  assert (ND : NoDup (map fst field_rules))
    by (rewrite field_rules_keys; apply action_fields_NoDup).
  split; [|split; [|split]].
  - intros d b a c Gs Gg Gm Gf Gb Wb Ga Wa Gc Wc d'. subst d'.
    rewrite limit_actions_updates.
    assert (A : Forall (fun kf => exists v v', get (fst kf) d = Some v
                                    /\ snd kf v = Ok v') field_rules).
    { unfold field_rules. repeat constructor; cbn [fst snd].
      - exists (VScalar (AInt 5)), (VScalar (AInt 1)). split; [exact Gs|reflexivity].
      - exists b, b. split; [exact Gb|now apply limit_action_within].
      - exists a, a. split; [exact Ga|now apply limit_action_within].
      - exists c, c. split; [exact Gc|now apply limit_action_within].
      - exists (VScalar (AInt 9)), (VScalar (AInt 0)). split; [exact Gg|reflexivity].
      - exists (VScalar (AInt 2)), (VScalar (AInt 0)). split; [exact Gm|reflexivity].
      - exists (VList [AInt 200]), (VScalar (AInt 0)). split; [exact Gf|reflexivity]. }
    destruct (updates_ok field_rules ND d A) as [S R].
    split; [exact S|].
    assert (P : forall k f v v', In (k, f) field_rules -> get k d = Some v ->
                f v = Ok v' -> get k (fst (updates field_rules d)) = Some v').
    { intros k f v v' I G F. destruct (R k f I) as [w [w' [G1 [F1 G2]]]].
      congruence. }
    repeat split.
    + eapply (P "steer"); [left; reflexivity|exact Gs|reflexivity].
    + eapply (P "gear"); [do 4 right; left; reflexivity|exact Gg|reflexivity].
    + eapply (P "meta"); [do 5 right; left; reflexivity|exact Gm|reflexivity].
    + eapply (P "focus"); [do 6 right; left; reflexivity|exact Gf|reflexivity].
    + eapply (P "brake"); [right; left; reflexivity|exact Gb|].
      now apply limit_action_within.
    + eapply (P "accel"); [do 2 right; left; reflexivity|exact Ga|].
      now apply limit_action_within.
    + eapply (P "clutch"); [do 3 right; left; reflexivity|exact Gc|].
      now apply limit_action_within.
  - intros d S d'. subst d'. rewrite limit_actions_updates in S |- *.
    pose proof (updates_inv field_rules ND d S) as R.
    split; [|split].
    + intros k lo hi x q I G N.
      assert (exists f, In (k, f) field_rules
                        /\ f = (fun v => limit_action v (AInt lo) (AInt hi))
                        /\ lo <= hi) as [f [If [-> L]]].
      { unfold clamp_bounds in I. simpl in I.
        destruct I as [E|[E|[E|[E|[]]]]]; inversion E; subst;
          eexists; (split; [|split; [reflexivity|lia]]); simpl; auto. }
      destruct (R k _ If) as [w [w' [G1 [F1 G2]]]].
      rewrite G in G2. injection G2 as <-.
      eapply limit_action_range; eauto.
    + destruct (R "gear" _ ltac:(do 4 right; left; reflexivity))
        as [w [w' [G1 [F1 G2]]]].
      exists w. split; [exact G1|]. unfold keep_if_in in F1. congruence.
    + destruct (R "meta" _ ltac:(do 5 right; left; reflexivity))
        as [w [w' [G1 [F1 G2]]]].
      exists w. split; [exact G1|]. unfold keep_if_in in F1. congruence.
  - intros d S d'. subst d'. rewrite limit_actions_updates in S |- *.
    pose proof (updates_inv field_rules ND d S) as R.
    assert (C : forall k lo hi,
               In (k, fun v => limit_action v (AInt lo) (AInt hi))
                  field_rules ->
               exists x,
                 get k d = Some (VScalar x) /\ number x = true
                 /\ get k (fst (updates field_rules d))
                    = Some (VScalar (clamped lo hi x))).
    { intros k lo hi I. destruct (R k _ I) as [w [w' [G1 [F1 G2]]]].
      destruct (limit_action_ok _ _ _ _ F1) as [x [n [-> [N E]]]].
      exists x. split; [exact G1|]. split; [unfold number; now rewrite N|].
      rewrite G2, E. unfold clamped. rewrite N.
      destruct (xlt n (XFin (inject_Z lo))); [reflexivity|].
      destruct (xlt (XFin (inject_Z hi)) n); reflexivity. }
    destruct (C "steer" (-1) 1 ltac:(left; reflexivity)) as [s Hs].
    destruct (C "brake" 0 1 ltac:(right; left; reflexivity)) as [b Hb].
    destruct (C "accel" 0 1 ltac:(do 2 right; left; reflexivity)) as [a Ha].
    destruct (C "clutch" 0 1 ltac:(do 3 right; left; reflexivity)) as [c Hc].
    exists s, b, a, c. auto.
  - intros lo hi a L. unfold clamped. split; [|split].
    + intros q ->. unfold xlt. cbn [xcompare]. split; [|split].
      * intro H. now rewrite (proj1 (Qlt_alt _ _) H).
      * intro H.
        destruct (Qcompare_spec q (inject_Z lo)) as [E|C|C].
        -- exfalso. rewrite E in H. apply (Qlt_irrefl (inject_Z hi)).
           apply Qlt_le_trans with (inject_Z lo); [assumption|].
           now rewrite <- Zle_Qle.
        -- exfalso. apply (Qlt_irrefl q).
           apply Qlt_trans with (inject_Z lo); [assumption|].
           apply Qle_lt_trans with (inject_Z hi); [|assumption].
           now rewrite <- Zle_Qle.
        -- now rewrite (proj1 (Qlt_alt _ _) H).
      * intros [A B].
        destruct (Qcompare_spec q (inject_Z lo)) as [E|C|C].
        -- destruct (Qcompare_spec (inject_Z hi) q) as [E'|C'|C'];
             try reflexivity.
           exfalso. apply (Qlt_irrefl q).
           now apply Qle_lt_trans with (inject_Z hi).
        -- exfalso. apply (Qlt_irrefl q).
           now apply Qlt_le_trans with (inject_Z lo).
        -- destruct (Qcompare_spec (inject_Z hi) q) as [E'|C'|C'];
             try reflexivity.
           exfalso. apply (Qlt_irrefl q).
           now apply Qle_lt_trans with (inject_Z hi).
    + intros neg ->. unfold xlt. cbn [xcompare]. now destruct neg.
    + intros ->. reflexivity.
Qed.

(** C4 at the record [{steer: 5, gear: 9, meta: 2, focus: [200]}] with
    brake, accel and clutch 0. *)
Lemma limit_actions_clamps_witness :
  snd (limit_actions actions_out_of_range) = Ok tt
  /\ get "steer" (fst (limit_actions actions_out_of_range))
     = Some (VScalar (AInt 1))
  /\ get "gear" (fst (limit_actions actions_out_of_range))
     = Some (VScalar (AInt 0))
  /\ get "meta" (fst (limit_actions actions_out_of_range))
     = Some (VScalar (AInt 0))
  /\ get "focus" (fst (limit_actions actions_out_of_range))
     = Some (VScalar (AInt 0)).
Proof.
  destruct (proj1 limit_actions_clamps actions_out_of_range
              (VScalar (AInt 0)) (VScalar (AInt 0)) (VScalar (AInt 0)))
    as [H1 [H2 [H3 [H4 [H5 _]]]]]; try reflexivity.
  repeat split; assumption.
Defined.

(** C8.  Validating twice is validating once: run on the record the
    first call left behind, [limit_actions] leaves that record as it is
    and ends as the first call did. *)
Theorem limit_actions_idempotent (d : dict) :
  limit_actions (fst (limit_actions d)) = limit_actions d.
Proof.
  rewrite !limit_actions_updates.
  apply updates_idempotent.
  - rewrite field_rules_keys. apply action_fields_NoDup.
  - apply field_rules_idempotent.
Qed.

(** C10.  [limit_actions] leaves every key other than steer, brake,
    accel, clutch, gear, meta and focus with the value it had, and the
    keys of the record and their order as they were. *)
Theorem limit_actions_frame (d : dict) (k : string) :
  ~ In k action_fields ->
  get k (fst (limit_actions d)) = get k d
  /\ keys (fst (limit_actions d)) = keys d.
Proof.
  intro N. rewrite limit_actions_updates. split.
  - apply updates_get_other. now rewrite field_rules_keys.
  - apply updates_keys.
Qed.

(** C10 at a record with an extra key, and on a call that raises. *)
Lemma limit_actions_frame_witness :
  get "extra" (fst (limit_actions (("extra", VScalar (AInt 7))
                                     :: actions_out_of_range)))
  = Some (VScalar (AInt 7))
  /\ keys (fst (limit_actions (("extra", VScalar (AInt 7))
                                 :: actions_out_of_range)))
     = "extra" :: action_fields.
Proof.
  destruct (limit_actions_frame
              (("extra", VScalar (AInt 7)) :: actions_out_of_range) "extra")
    as [H1 H2].
  - unfold action_fields. simpl. intuition discriminate.
  - split; [exact H1|exact H2].
Defined.

(** C7.  [check_sensors] calls [restart_race] exactly when the absolute
    value of a numeric [trackPos] exceeds 1 (an infinite value does, a
    NaN does not): it does at 1.5 and does not at 0.9. *)
Theorem check_sensors_restarts_iff_off_track :
  (forall (gui : bool) (sensors : dict) (a : scalar) (x : xnum),
      get "trackPos" sensors = Some (VScalar a) ->
      num_of a = Some x ->
      (check_sensors gui sensors
       = Ok (Print "out of track!" :: restart_race gui)
       <-> exceeds_one x)
      /\ (check_sensors gui sensors = Ok [] <-> ~ exceeds_one x))
  /\ (forall gui,
         check_sensors gui [("trackPos", VScalar (AFloat float_1_5))]
         = Ok (Print "out of track!" :: restart_race gui))
  /\ (forall gui,
         check_sensors gui [("trackPos", VScalar (AFloat float_0_9))]
         = Ok []).
Proof.
  split; [exact check_sensors_numeric|split; intros []; reflexivity].
Qed.

(** C7 at [trackPos] 1.5, with and without the interactive display. *)
Lemma check_sensors_restarts_witness :
  check_sensors true [("trackPos", VScalar (AFloat float_1_5))]
  = Ok [Print "out of track!"; ClientSendRestartRequest; ClientRestart]
  /\ check_sensors false [("trackPos", VScalar (AFloat float_1_5))]
     = Ok [Print "out of track!"; ServerRestart; ClientRestart].
Proof.
  split.
  - apply (proj2 (proj1 (proj1 check_sensors_restarts_iff_off_track
                           true [("trackPos", VScalar (AFloat float_1_5))]
                           (AFloat float_1_5)
                           (XFin (PyFloat.to_Q float_1_5))
                           eq_refl eq_refl))).
    reflexivity.
  - apply (proj2 (proj1 (proj1 check_sensors_restarts_iff_off_track
                           false [("trackPos", VScalar (AFloat float_1_5))]
                           (AFloat float_1_5)
                           (XFin (PyFloat.to_Q float_1_5))
                           eq_refl eq_refl))).
    reflexivity.
Defined.



(** C1 (as the code has it).  [parse_server_string] strips white space,
    drops one more character, strips a leading "(" and a trailing ")",
    splits on ")(", splits each segment on spaces into a key and its
    tokens and decodes the tokens: text that writes fields with distinct
    token keys and plain tokens between parentheses, followed by any
    one character, decodes to those fields.  So
    "(angle 0.1)(track 1.0 2.0 3.0)" followed by one terminator
    character gives [{angle: 0.1, track: [1.0, 2.0, 3.0]}].  Only that
    one character is stripped: followed by "***identified***" and a
    newline, the text gives as last element of [track] the string
    "3.0)***identified**". *)
Theorem parse_server_string_one_terminator :
  (forall fields c,
      wire_fields fields = true ->
      parse_server_string
        ("(" ++ PyStr.join ")(" (map segment fields) ++ ")" ++ String c "")
      = Ok (map decoded fields, flat_map decoded_log fields))
  /\ (forall c,
         parse_server_string ("(angle 0.1)(track 1.0 2.0 3.0)" ++ String c "")
         = Ok (sensors_example, []))
  /\ parse_server_string datagram_with_marker
     = Ok ([("angle", VScalar (AFloat float_0_1));
            ("track", VList [AFloat float_1; AFloat float_2;
                             AStr "3.0)***identified**"])],
           [Print "Could not find a value in 3.0)***identified**"]).
Proof.
  split; [exact decode_wire_fields|]. split.
  - intro c.
    exact (decode_wire_fields
             [("angle", ["0.1"]); ("track", ["1.0"; "2.0"; "3.0"])] c
             eq_refl).
  - vm_compute. reflexivity.
Qed.

(** C1 at the example datagram ended by a NUL character. *)
Lemma parse_server_string_one_terminator_witness :
  parse_server_string ("(angle 0.1)(track 1.0 2.0 3.0)" ++ String zero "")
  = Ok (sensors_example, []).
Proof.
  exact (proj1 parse_server_string_one_terminator
           [("angle", ["0.1"]); ("track", ["1.0"; "2.0"; "3.0"])] zero
           eq_refl).
Defined.

(** C1, the claim as stated fails: with the marker and the newline
    after it the decoded record is not
    [{angle: 0.1, track: [1.0, 2.0, 3.0]}]. *)
Lemma parse_server_string_keeps_marker :
  parse_server_string datagram_with_marker
  = Ok ([("angle", VScalar (AFloat float_0_1));
         ("track", VList [AFloat float_1; AFloat float_2;
                          AStr "3.0)***identified**"])],
        [Print "Could not find a value in 3.0)***identified**"])
  /\ parse_server_string datagram_with_marker <> Ok (sensors_example, [])
  /\ get "track" [("angle", VScalar (AFloat float_0_1));
                  ("track", VList [AFloat float_1; AFloat float_2;
                                   AStr "3.0)***identified**"])]
     <> get "track" sensors_example.
Proof.
  assert (E : parse_server_string datagram_with_marker
              = Ok ([("angle", VScalar (AFloat float_0_1));
                     ("track", VList [AFloat float_1; AFloat float_2;
                                      AStr "3.0)***identified**"])],
                    [Print "Could not find a value in 3.0)***identified**"]))
    by (vm_compute; reflexivity).
  split; [exact E|]. split.
  - rewrite E. discriminate.
  - discriminate.
Qed.

(** C5 (as the code has it).  Decoding never fails.  When the remainder
    of a segment is one token that is not numeric, [destringify] prints
    "Could not find a value in" and the token, and the token is kept as
    a string in the record that is returned. *)
Theorem parse_server_string_keeps_raw_token :
  (forall s, exists r, parse_server_string s = Ok r)
  /\ (forall key tok c,
         token key = true -> token tok = true ->
         PyFloat.of_string tok = None ->
         parse_server_string ("(" ++ key ++ " " ++ tok ++ ")" ++ String c "")
         = Ok ([(key, VScalar (AStr tok))],
               [Print ("Could not find a value in " ++ tok)])).
Proof.
  split.
  - intro s. unfold parse_server_string. apply parse_loop_total.
  - intros key tok c K T N.
    assert (W : wire_fields [(key, [tok])] = true).
    { unfold wire_fields. cbn [map fst snd distinct existsb negb andb forallb].
      rewrite K. cbn [andb].
      destruct (token_facts _ T) as [P [c1 [r [E Pc]]]].
      rewrite P. cbn [andb PyStr.join segment fst snd].
      unfold ends_plain. rewrite !last_char_app.
      destruct (string_last_cases tok) as [->|[a [x ->]]]; [discriminate|].
      rewrite last_char_app. cbn [last_char].
      now apply all_chars_last in P. }
    pose proof (decode_wire_fields [(key, [tok])] c W) as H.
    cbn [map PyStr.join segment fst snd] in H.
    replace ("(" ++ key ++ " " ++ tok ++ ")" ++ String c "")
      with ("(" ++ (key ++ " " ++ tok) ++ ")" ++ String c "")
      by (now rewrite !sapp_assoc).
    rewrite H. unfold decoded, decoded_log.
    cbn [map flat_map fst snd destringify_list].
    unfold destringify_str. rewrite N.
    destruct (token_facts _ T) as [_ [c1 [r [-> _]]]].
    cbn [fst snd app]. reflexivity.
Qed.

(** C5 at the segment [(angle abc)] ended by a NUL character. *)
Lemma parse_server_string_keeps_raw_token_witness :
  parse_server_string ("(" ++ "angle" ++ " " ++ "abc" ++ ")" ++ String zero "")
  = Ok ([("angle", VScalar (AStr "abc"))],
        [Print ("Could not find a value in " ++ "abc")]).
Proof.
  apply (proj2 parse_server_string_keeps_raw_token "angle" "abc" zero);
    reflexivity.
Defined.

(** C5, the claim as stated fails: the datagram [(angle abc)] ended by
    a NUL character is decoded without failure, and [angle] holds the
    string "abc". *)
Lemma parse_server_string_raw_token_kept :
  parse_server_string ("(angle abc)" ++ String zero "")
  = Ok ([("angle", VScalar (AStr "abc"))],
        [Print "Could not find a value in abc"])
  /\ ~ (exists e,
           parse_server_string ("(angle abc)" ++ String zero "") = Raise e).
Proof.
  assert (E : parse_server_string ("(angle abc)" ++ String zero "")
              = Ok ([("angle", VScalar (AStr "abc"))],
                    [Print "Could not find a value in abc"]))
    by (vm_compute; reflexivity).
  split; [exact E|]. intros [e H]. rewrite E in H. discriminate.
Qed.

(** C6 (as the code has it).  A valid action record is encoded, and the
    text decodes to a record with the same keys in the same order.  A
    scalar field comes back as the float nearest to a number of
    thousandths that differs from the field's value by at most half a
    thousandth.  A list of two or more elements comes back as the list,
    of the same length and in the same order, of the floats read from
    the [str] of its elements.  A list of one element comes back as a
    scalar, the float read from the [str] of the element, not as a
    list. *)
Theorem roundtrip_valid_actions (d : dict) :
  valid_actions d = true ->
  exists s d' log,
    encode_actions d = Ok s
    /\ parse_server_string s = Ok (d', log)
    /\ keys d' = keys d
    /\ (forall k a q,
          get k d = Some (VScalar a) -> num_of a = Some (XFin q) ->
          exists neg n,
            0 <= n
            /\ get k d'
               = Some (VScalar (AFloat (PyFloat.of_decimal neg n (-3))))
            /\ (Qabs (Qmake (cond_Zopp neg n) 1000 - q) <= 1 # 2000)%Q)
    /\ (forall k l,
          get k d = Some (VList l) -> (2 <= List.length l)%nat ->
          get k d' = Some (VList (map reread l))
          /\ List.length (map reread l) = List.length l
          /\ Forall (fun y => exists g, y = AFloat g) (map reread l))
    /\ (forall k x,
          get k d = Some (VList [x]) ->
          get k d' = Some (VScalar (reread x))
          /\ exists g, reread x = AFloat g).
Proof.
  intro V. destruct (valid_actions_spec d V) as [NE [ND Fv]].
  assert (Fe : Forall entry_ok d).
  { eapply Forall_impl; [|exact Fv]. intros [k v] H.
    now apply valid_field_entry_ok. }
  destruct (groups_ok d Fe) as [s G].
  destruct (groups_wire d s NE G) as [fields [Rf [Kf Es]]].
  destruct (read_fields_plain d fields Fe Rf) as [Ft Ep].
  pose proof (read_fields_rel d fields Rf) as F2.
  assert (NEf : fields <> []).
  { intros ->. destruct d; [congruence|discriminate]. }
  assert (NDf : NoDup (map fst fields)) by (now rewrite Kf).
  destruct (decode_fields fields (tail_of d) NEf (tail_of_cases d) NDf Ft
              (Ep NE)) as [D _].
  rewrite <- Es in D.
  exists s, (map decoded fields), (flat_map decoded_log fields).
  split; [now rewrite encode_actions_groups|]. split; [exact D|].
  split; [now rewrite keys_decoded|]. split; [|split].
  - intros k a q Gk Nq.
    destruct (get_decoded d fields F2 k _ Gk) as [toks [[t [Et ->]] Gd]].
    pose proof (get_in _ _ _ Gk) as Ik.
    rewrite Forall_forall in Fv. specialize (Fv _ Ik). cbn [fst snd] in Fv.
    destruct (valid_field_entry_ok _ _ Fv) as [[_ Fn] Sm]. cbn [snd] in Fn.
    destruct (format_3f_number a Fn) as [f [neg [n [Af [N [Ef C]]]]]].
    exists neg, n. split; [exact N|].
    rewrite Ef in Et.
    assert (Dt : destringify_str t
                 = (AFloat (PyFloat.of_decimal neg n (-3)), [])).
    { injection Et as <-.
      destruct (format_3f_text neg n N) as [_ [Nt _]].
      apply destringify_str_float; [exact Nt|].
      now apply of_string_format_3f. }
    split.
    + rewrite Gd. cbn [destringify_list]. now rewrite Dt.
    + rewrite <- (small_scalar_value a f q Sm Af Nq). exact C.
  - intros k l Gk Ln.
    destruct (get_decoded d fields F2 k _ Gk) as [toks [Rd Gd]].
    cbn [field_reads] in Rd.
    destruct Rd as [->|[-> _]]; [|simpl in Ln; lia].
    pose proof (get_in _ _ _ Gk) as Ik.
    rewrite Forall_forall in Fv. specialize (Fv _ Ik). cbn [fst snd] in Fv.
    split; [|split; [apply length_map|]];
      [|apply Forall_map; exact (valid_list_elements _ _ Fv)].
    rewrite Gd. destruct l as [|x [|y r]]; try (simpl in Ln; lia).
    rewrite <- destringify_each_reread.
    cbn [map destringify_list].
    destruct (destringify_each (str x :: str y :: map str r)). reflexivity.
  - intros k x Gk.
    destruct (get_decoded d fields F2 k _ Gk) as [toks [Rd Gd]].
    cbn [field_reads] in Rd.
    destruct Rd as [->|[C _]]; [|discriminate].
    pose proof (get_in _ _ _ Gk) as Ik.
    rewrite Forall_forall in Fv. specialize (Fv _ Ik). cbn [fst snd] in Fv.
    pose proof (valid_list_elements _ _ Fv) as Fl.
    split; [|now inversion Fl].
    rewrite Gd. cbn [map destringify_list]. unfold reread.
    destruct (destringify_str (str x)). reflexivity.
Qed.

(** C6 at a valid record with three focus angles. *)
Lemma roundtrip_valid_actions_witness :
  exists s d' log,
    encode_actions actions_three_focus = Ok s
    /\ parse_server_string s = Ok (d', log)
    /\ keys d' = keys actions_three_focus.
Proof.
  destruct (roundtrip_valid_actions actions_three_focus eq_refl)
    as [s [d' [log [E [P [K _]]]]]].
  exists s, d', log. repeat split; assumption.
Defined.

(** C6, the claim as stated fails: the valid record whose [focus] is the
    list [90.0] is encoded as
    "(steer 0.000)...(focus 90.0)", and decoding that text gives
    [focus] the scalar 90.0: the field is no longer a sequence, its
    length is not kept. *)
Lemma roundtrip_single_focus_collapses :
  valid_actions actions_single_focus = true
  /\ get "focus" actions_single_focus
     = Some (VList [AFloat (S754_finite false 6333186975989760 (-46))])
  /\ match encode_actions actions_single_focus with
     | Ok s =>
         match parse_server_string s with
         | Ok (d', _) =>
             get "focus" d'
             = Some (VScalar (AFloat (S754_finite false 6333186975989760 (-46))))
         | Raise _ => False
         end
     | Raise _ => False
     end.
Proof. vm_compute. repeat split. Qed.

End Claims.

(* ================================================================== *)
(** * Further properties of the bridge *)


(** ** Validation and encoding together *)

Section ValidatedText.

Import Py Client.
Local Open Scope py_scope.

Lemma format_3f_as_float a :
  format_3f a
  = match as_float a with
    | Some f => Ok (PyFloat.format_3f f)
    | None => Raise (match a with
                     | AInt _ => OverflowError
                     | _ => TypeError
                     end)
    end.
Proof.
  destruct a as [|b|z|f|s]; cbn [format_3f as_float]; try reflexivity.
  now destruct b.
Qed.

Lemma groups_writable d :
  (exists s, groups d = Ok s)
  <-> forallb (fun kv => writable (snd kv)) d = true.
Proof.
  induction d as [|[k v] r IH]; cbn [groups forallb snd].
  - split; eauto.
  - split.
    + intros [s H]. unfold rbind in H.
      destruct (field_text v) as [t|] eqn:T; [|discriminate].
      destruct (groups r) as [g|] eqn:G; [|discriminate].
      apply andb_true_iff. split; [|apply IH; eauto].
      destruct v as [a|l]; [|reflexivity].
      cbn [field_text] in T. rewrite format_3f_as_float in T.
      cbn [writable]. now destruct (as_float a).
    + intro H. apply andb_true_iff in H. destruct H as [W R].
      apply IH in R. destruct R as [g ->].
      destruct v as [a|l]; cbn [field_text rbind].
      * rewrite format_3f_as_float. cbn [writable] in W.
        destruct (as_float a); [cbn [rbind]; eauto|discriminate].
      * eauto.
Qed.

Lemma groups_first_unwritable d1 : forall k a d2,
  forallb (fun kv => writable (snd kv)) d1 = true ->
  writable (VScalar a) = false ->
  groups (d1 ++ (k, VScalar a) :: d2)%list
  = Raise (match a with AInt _ => OverflowError | _ => TypeError end).
Proof.
  induction d1 as [|[k1 v1] r IH]; intros k a d2 W U.
  - cbn [app groups field_text]. rewrite format_3f_as_float.
    cbn [writable] in U. now destruct (as_float a).
  - cbn [forallb snd] in W. apply andb_true_iff in W. destruct W as [W1 Wr].
    cbn [app groups]. rewrite (IH k a d2 Wr U).
    destruct v1 as [a1|l1]; cbn [field_text rbind]; [|reflexivity].
    rewrite format_3f_as_float. cbn [writable] in W1.
    now destruct (as_float a1).
Qed.

Lemma xlt_ints a b :
  xlt (XFin (inject_Z a)) (XFin (inject_Z b)) = (a <? b).
Proof.
  unfold xlt. cbn [xcompare]. rewrite Qcompare_inject_Z.
  unfold Z.ltb. now destruct (a ?= b).
Qed.

Lemma bounded_writable lo hi a x :
  -1 <= lo -> hi <= 6 -> num_of a = Some x ->
  xlt x (XFin (inject_Z lo)) = false ->
  xlt (XFin (inject_Z hi)) x = false ->
  writable (VScalar a) = true.
Proof.
  intros L H N A B. destruct a as [|b|z|f|s]; try discriminate.
  - now destruct b.
  - cbn in N. injection N as <-. rewrite xlt_ints in A, B.
    apply Z.ltb_ge in A, B.
    destruct (small_int_float z ltac:(lia)) as [f [F _]].
    cbn [writable as_float]. now rewrite F.
  - reflexivity.
Qed.

Lemma in_ints_writable l v :
  Forall (fun z => -1 <= z <= 6) l ->
  in_ints v l = true -> writable v = true.
Proof.
  intros F I. destruct v as [a|l']; [|reflexivity].
  cbn [in_ints] in I. apply existsb_exists in I.
  destruct I as [z [Iz E]]. rewrite Forall_forall in F.
  specialize (F z Iz).
  destruct a as [|b|z'|f|s]; try discriminate.
  - now destruct b.
  - unfold scalar_eq in E. cbn [num_of xcompare] in E.
    rewrite Qcompare_inject_Z in E.
    destruct (Z.compare_spec z z') as [<-|?|?]; try discriminate.
    destruct (small_int_float z F) as [f [Ff _]].
    cbn [writable as_float]. now rewrite Ff.
  - reflexivity.
Qed.

(** What a rule of [limit_actions] leaves can be written. *)
Lemma field_rule_writable k f v v' :
  In (k, f) field_rules -> f v = Ok v' -> writable v' = true.
Proof.
  intros I F.
  assert (C : forall lo hi, -1 <= lo -> lo <= hi -> hi <= 6 ->
              limit_action v (AInt lo) (AInt hi) = Ok v' ->
              writable v' = true).
  { intros lo hi A B C H.
    destruct (limit_action_ok _ _ _ _ H) as [a [x [-> [X ->]]]].
    destruct (xlt x (XFin (inject_Z lo))) eqn:E1.
    - destruct (small_int_float lo ltac:(lia)) as [g [G _]].
      cbn [writable as_float]. now rewrite G.
    - destruct (xlt (XFin (inject_Z hi)) x) eqn:E2.
      + destruct (small_int_float hi ltac:(lia)) as [g [G _]].
        cbn [writable as_float]. now rewrite G.
      + eapply bounded_writable with (lo := lo) (hi := hi); eauto; lia. }
  assert (K : forall l, Forall (fun z => -1 <= z <= 6) l ->
              keep_if_in l v = Ok v' -> writable v' = true).
  { intros l Fl H. unfold keep_if_in in H. injection H as <-.
    destruct (in_ints v l) eqn:E; [|reflexivity].
    eapply in_ints_writable; eauto. }
  unfold field_rules in I. cbn [In] in I.
  destruct I as [E|[E|[E|[E|[E|[E|[E|[]]]]]]]]; inversion E; subst f.
  - apply (C (-1) 1); [lia|lia|lia|exact F].
  - apply (C 0 1); [lia|lia|lia|exact F].
  - apply (C 0 1); [lia|lia|lia|exact F].
  - apply (C 0 1); [lia|lia|lia|exact F].
  - eapply K; [|exact F]. repeat constructor; lia.
  - eapply K; [|exact F]. repeat constructor; lia.
  - destruct (keep_focus_ok _ _ F) as [->|[x [l [-> [-> _]]]]]; reflexivity.
Qed.

End ValidatedText.

(** ** Records that validation leaves alone *)

Section ValidUnchanged.

Import Py Client.
Local Open Scope py_scope.

Lemma min_from_in l : forall best m,
  min_from best l = Ok m -> In m (best :: l).
Proof.
  induction l as [|x r IH]; intros best m; cbn [min_from].
  - intros [= ->]. now left.
  - unfold rbind. destruct (scalar_lt x best) as [b|]; [|discriminate].
    intro H. apply IH in H. destruct b; cbn [In] in *; intuition.
Qed.

Lemma max_from_in l : forall best m,
  max_from best l = Ok m -> In m (best :: l).
Proof.
  induction l as [|x r IH]; intros best m; cbn [max_from].
  - intros [= ->]. now left.
  - unfold rbind. destruct (scalar_gt x best) as [b|]; [|discriminate].
    intro H. apply IH in H. destruct b; cbn [In] in *; intuition.
Qed.

Lemma in_range_number lo hi a : in_range lo hi a = true -> number a = true.
Proof.
  intro H. destruct (in_range_between _ _ _ H) as [q [N _]].
  unfold number. now rewrite N.
Qed.

Lemma keep_focus_in_range x l :
  Forall (fun y => in_range (-180) 180 y = true) (x :: l) ->
  keep_focus (VList (x :: l)) = Ok (VList (x :: l)).
Proof.
  intro F.
  assert (N : Forall (fun y => number y = true) (x :: l)).
  { eapply Forall_impl; [|exact F]. intros a. apply in_range_number. }
  inversion N as [|? ? Nx Nl]; subst.
  unfold keep_focus, min, max.
  destruct (min_from_total l x Nx Nl) as [lo [M _]].
  destruct (max_from_total l x Nx Nl) as [hi [X _]].
  rewrite M, X. cbn [rbind].
  rewrite Forall_forall in F.
  destruct (in_range_between _ _ _ (F _ (min_from_in _ _ _ M)))
    as [q [Q [L _]]].
  destruct (in_range_between _ _ _ (F _ (max_from_in _ _ _ X)))
    as [r [R [_ H]]].
  rewrite (scalar_lt_num _ _ _ _ Q (num_of_int _)), L. cbn [rbind].
  unfold scalar_gt.
  rewrite (scalar_lt_num _ _ _ _ (num_of_int _) R), H. reflexivity.
Qed.

Lemma real_within_in_range lo hi a :
  real_within lo hi a = true -> in_range lo hi a = true.
Proof.
  unfold real_within, in_range, within.
  destruct a as [|b|z|f|s]; try discriminate.
  - intro H. apply andb_true_iff in H. destruct H as [L U].
    cbn [num_of]. apply andb_true_iff.
    split; apply Qle_bool_iff; rewrite <- Zle_Qle; lia.
  - intro H. apply andb_true_iff in H. destruct H as [H U].
    apply andb_true_iff in H. destruct H as [Fi L].
    destruct f; try discriminate; cbn [num_of]; now rewrite L, U.
Qed.

Lemma small_int_in_ints z l :
  In z l -> in_ints (VScalar (AInt z)) l = true.
Proof.
  intro I. cbn [in_ints]. apply existsb_exists. exists z.
  split; [assumption|]. unfold scalar_eq. cbn [num_of xcompare].
  rewrite Qcompare_inject_Z. now rewrite Z.compare_refl.
Qed.

(** A rule of [limit_actions] leaves a valid field as it is, but for a
    [focus] that is the float zero or the empty list. *)
Lemma field_rule_valid k f v :
  In (k, f) field_rules -> valid_field k v = true ->
  (k = "focus" -> focus_kept v = true) ->
  f v = Ok v.
Proof.
  intros I V K. unfold field_rules in I. cbn [In] in I.
  destruct I as [E|[E|[E|[E|[E|[E|[E|[]]]]]]]]; inversion E; subst k f;
    clear E; cbn in V.
  - destruct v as [a|]; [|discriminate].
    apply limit_action_within. now apply real_within_in_range in V.
  - destruct v as [a|]; [|discriminate].
    apply limit_action_within. now apply real_within_in_range in V.
  - destruct v as [a|]; [|discriminate].
    apply limit_action_within. now apply real_within_in_range in V.
  - destruct v as [a|]; [|discriminate].
    apply limit_action_within. now apply real_within_in_range in V.
  - destruct v as [[| |z| |]|]; try discriminate.
    unfold keep_if_in. rewrite small_int_in_ints; [reflexivity|].
    apply andb_true_iff in V. destruct V as [A B].
    apply Z.leb_le in A, B.
    destruct (small_int_cases z ltac:(lia))
      as [->|[->|[->|[->|[->|[->|[->| ->]]]]]]]; cbn; tauto.
  - destruct v as [[|b|z| |]|]; try discriminate.
    + now destruct b.
    + unfold keep_if_in. rewrite small_int_in_ints; [reflexivity|].
      apply andb_true_iff in V. destruct V as [A B].
      apply Z.leb_le in A, B.
      assert (z = 0 \/ z = 1) as [->| ->] by lia; cbn; tauto.
  - specialize (K eq_refl). destruct v as [a|[|x l]]; try discriminate.
    + destruct a as [| |z| |]; try discriminate.
      destruct z; try discriminate. reflexivity.
    + apply keep_focus_in_range.
      apply Forall_forall. intros y Iy.
      apply real_within_in_range.
      change (forallb (real_within (-180) 180) (x :: l) = true) in V.
      rewrite forallb_forall in V. now apply V.
Qed.

(** A valid record is a fixed point of the rules. *)
Lemma updates_valid_fixed d :
  valid_actions d = true ->
  (exists v, get "focus" d = Some v /\ focus_kept v = true) ->
  updates field_rules d = (d, Ok tt).
Proof.
  intros V [fv [Gf Kf]].
  apply updates_fixed. intros k f I.
  unfold valid_actions in V. apply andb_true_iff in V. destruct V as [_ V].
  rewrite forallb_forall in V.
  assert (Ik : In k action_fields).
  { rewrite <- field_rules_keys. apply in_map_iff. now exists (k, f). }
  specialize (V k Ik). destruct (get k d) as [v|] eqn:G; [|discriminate].
  exists v. split; [reflexivity|].
  apply (field_rule_valid k f v I V).
  intros ->. rewrite Gf in G. now injection G as <-.
Qed.

End ValidUnchanged.

(** ** Properties of validation and encoding *)

Section ValidationProperties.

Import Py Client.
Local Open Scope py_scope.

(** X1.  What [limit_actions] raises.  A [KeyError] names one of the
    seven fields, which the record lacks; a [ValueError] comes from an
    empty [focus] list and from nothing else; a [TypeError] comes from
    a steer, brake, accel or clutch that is not a number, or from a
    [focus] list that holds something that is not a number; nothing
    else is raised.  A record that lacks one of the seven fields is
    never validated, and one that lacks [steer] is left untouched. *)
Theorem limit_actions_raises :
  (forall d e,
      snd (limit_actions d) = Raise e ->
      match e with
      | KeyError k => In k action_fields /\ get k d = None
      | ValueError => get "focus" d = Some (VList [])
      | TypeError =>
          (exists k v, In k (map fst clamp_bounds)
                       /\ get k d = Some v /\ number_value v = false)
          \/ (exists l, get "focus" d = Some (VList l)
                        /\ existsb (fun y => negb (number y)) l = true)
      | _ => False
      end)
  /\ (forall d k,
         In k action_fields -> get k d = None ->
         exists e, snd (limit_actions d) = Raise e)
  /\ (forall d,
         get "steer" d = None ->
         limit_actions d = (d, Raise (KeyError "steer"))).
Proof.
  assert (ND : NoDup (map fst field_rules))
    by (rewrite field_rules_keys; apply action_fields_NoDup).
  split; [|split].
  - intros d e H. rewrite limit_actions_updates in H.
    destruct (updates_raise _ ND _ _ H) as [k [f [I [[G ->]|[v [G F]]]]]].
    + split; [|assumption]. rewrite <- field_rules_keys.
      apply in_map_iff. now exists (k, f).
    + assert (C : forall lo hi,
                 limit_action v (AInt lo) (AInt hi) = Raise e ->
                 In k (map fst clamp_bounds) ->
                 match e with
                 | KeyError k => In k action_fields /\ get k d = None
                 | ValueError => get "focus" d = Some (VList [])
                 | TypeError =>
                     (exists k v, In k (map fst clamp_bounds)
                                  /\ get k d = Some v
                                  /\ number_value v = false)
                     \/ (exists l, get "focus" d = Some (VList l)
                                   /\ existsb (fun y => negb (number y)) l
                                      = true)
                 | _ => False
                 end).
      { intros lo hi R Ik. destruct (limit_action_raise _ _ _ _ R) as [-> N].
        left. now exists k, v. }
      unfold field_rules in I. cbn [In] in I.
      destruct I as [E|[E|[E|[E|[E|[E|[E|[]]]]]]]]; inversion E; subst k f;
        clear E.
      * eapply C; [exact F|]. cbn. auto.
      * eapply C; [exact F|]. cbn. auto.
      * eapply C; [exact F|]. cbn. auto.
      * eapply C; [exact F|]. cbn. auto.
      * discriminate.
      * discriminate.
      * destruct (keep_focus_raise _ _ F) as [[-> ->]|[-> [l [-> X]]]].
        -- exact G.
        -- right. now exists l.
  - intros d k I G.
    destruct (snd (limit_actions d)) as [[]|e] eqn:S; [exfalso|eauto].
    rewrite limit_actions_updates in S.
    destruct (field_rule_of k I) as [f If].
    destruct (updates_inv field_rules ND d S k f If) as [v [_ [G' _]]].
    congruence.
  - intros d G. rewrite limit_actions_updates.
    unfold field_rules. rewrite updates_cons, G. reflexivity.
Qed.

(** X1 at the empty record. *)
Lemma limit_actions_raises_witness :
  limit_actions [] = ([], Raise (KeyError "steer")).
Proof.
  apply (proj2 (proj2 limit_actions_raises) []). reflexivity.
Defined.

(** X2.  [limit_actions] leaves a valid record as it is, every field
    with the value and the type it had, provided its [focus] is the
    int 0 or a list that is not empty. *)
Theorem limit_actions_valid_unchanged (d : dict) :
  valid_actions d = true ->
  (exists v, get "focus" d = Some v /\ focus_kept v = true) ->
  limit_actions d = (d, Ok tt).
Proof.
  intros V F. rewrite limit_actions_updates. now apply updates_valid_fixed.
Qed.

(** X2 at a valid record whose [focus] is [-90.0, 0.0, 90.0]. *)
Lemma limit_actions_valid_unchanged_witness :
  limit_actions actions_three_focus = (actions_three_focus, Ok tt).
Proof.
  apply limit_actions_valid_unchanged.
  - reflexivity.
  - eexists. split; reflexivity.
Defined.

(** X3.  After [limit_actions] has returned, each of steer, brake,
    accel and clutch holds a number within its bounds, or the NaN it
    held before: an infinity is clamped to the bound, a NaN is not
    clamped. *)
Theorem limit_actions_bounds_or_nan (d : dict) (k : string) (lo hi : Z) :
  In (k, (lo, hi)) clamp_bounds ->
  snd (limit_actions d) = Ok tt ->
  exists a a',
    get k d = Some (VScalar a)
    /\ get k (fst (limit_actions d)) = Some (VScalar a')
    /\ ((is_nan a = true /\ a' = a) \/ in_range lo hi a' = true)
    /\ (is_nan a = true -> a' = a)
    /\ (forall s, a = AFloat (S754_infinity s) ->
                  a' = AInt (if s then lo else hi)).
Proof.
  intros I S. rewrite limit_actions_updates in S |- *.
  assert (ND : NoDup (map fst field_rules))
    by (rewrite field_rules_keys; apply action_fields_NoDup).
  assert (exists f, In (k, f) field_rules
                    /\ f = (fun v => limit_action v (AInt lo) (AInt hi))
                    /\ lo <= hi) as [f [If [-> L]]].
  { unfold clamp_bounds in I. simpl in I.
    destruct I as [E|[E|[E|[E|[]]]]]; inversion E; subst;
      eexists; (split; [|split; [reflexivity|lia]]); simpl; auto. }
  destruct (updates_inv field_rules ND d S k _ If) as [v [v' [G [F G']]]].
  destruct (limit_action_ok _ _ _ _ F) as [a [x [-> [X E]]]].
  assert (Rlo : in_range lo hi (AInt lo) = true).
  { unfold in_range, within. cbn [num_of]. apply andb_true_iff.
    split; apply Qle_bool_iff; rewrite <- Zle_Qle; lia. }
  assert (Rhi : in_range lo hi (AInt hi) = true).
  { unfold in_range, within. cbn [num_of]. apply andb_true_iff.
    split; apply Qle_bool_iff; rewrite <- Zle_Qle; lia. }
  destruct x as [|s|q].
  - (* a NaN *)
    unfold xlt in E. cbn [xcompare] in E. subst v'.
    exists a, a. split; [assumption|split; [assumption|]].
    assert (N : is_nan a = true) by (unfold is_nan; now rewrite X).
    split; [now left|split; [reflexivity|]].
    intros s ->. discriminate.
  - (* an infinity *)
    assert (a = AFloat (S754_infinity s)) as ->.
    { destruct a as [|b|z|f|t]; try discriminate.
      destruct f; try discriminate. cbn in X. now injection X as ->. }
    exists (AFloat (S754_infinity s)), (AInt (if s then lo else hi)).
    split; [assumption|].
    assert (v' = VScalar (AInt (if s then lo else hi))) as ->.
    { subst v'. now destruct s. }
    split; [assumption|].
    split; [right; now destruct s|].
    split; [discriminate|]. now intros s' [= <-].
  - (* a value *)
    assert (Nn : is_nan a = false) by (unfold is_nan; now rewrite X).
    assert (Ni : forall s, a <> AFloat (S754_infinity s)).
    { intros s ->. discriminate. }
    destruct (xlt (XFin q) (XFin (inject_Z lo))) eqn:E1.
    + subst v'. exists a, (AInt lo).
      split; [assumption|split; [assumption|]].
      split; [now right|]. split; [congruence|].
      intros s Hs. now destruct (Ni s).
    + destruct (xlt (XFin (inject_Z hi)) (XFin q)) eqn:E2.
      * subst v'. exists a, (AInt hi).
        split; [assumption|split; [assumption|]].
        split; [now right|]. split; [congruence|].
        intros s Hs. now destruct (Ni s).
      * subst v'. exists a, a.
        split; [assumption|split; [assumption|]].
        split; [right; eapply between_in_range; eauto|].
        split; [reflexivity|].
        intros s Hs. now destruct (Ni s).
Qed.

(** X3 at a record whose [steer] is a NaN. *)
Lemma limit_actions_bounds_or_nan_witness :
  exists a a',
    get "steer" actions_nan = Some (VScalar a)
    /\ get "steer" (fst (limit_actions actions_nan)) = Some (VScalar a')
    /\ ((is_nan a = true /\ a' = a) \/ in_range (-1) 1 a' = true)
    /\ (is_nan a = true -> a' = a)
    /\ (forall s, a = AFloat (S754_infinity s) ->
                  a' = AInt (if s then -1 else 1)).
Proof.
  apply (limit_actions_bounds_or_nan actions_nan "steer" (-1) 1).
  - left. reflexivity.
  - vm_compute. reflexivity.
Defined.

(** X4.  After [limit_actions] has returned, [focus] is the int 0 or
    the list it was, which is then not empty and holds numbers only;
    when none of them is a NaN, each lies in [-180, 180].  A list
    whose first element is a NaN is kept whatever follows it. *)
Theorem limit_actions_focus_after (d : dict) :
  snd (limit_actions d) = Ok tt ->
  exists f,
    get "focus" d = Some f
    /\ (get "focus" (fst (limit_actions d)) = Some (VScalar (AInt 0))
        \/ exists x l,
             f = VList (x :: l)
             /\ get "focus" (fst (limit_actions d)) = Some f
             /\ Forall (fun y => number y = true) (x :: l)
             /\ (Forall (fun y => ordered y = true) (x :: l) ->
                 Forall (fun y => in_range (-180) 180 y = true) (x :: l)))
    /\ (forall x l,
           f = VList (x :: l) -> is_nan x = true ->
           get "focus" (fst (limit_actions d)) = Some f).
Proof.
  intro S. rewrite limit_actions_updates in S |- *.
  assert (ND : NoDup (map fst field_rules))
    by (rewrite field_rules_keys; apply action_fields_NoDup).
  destruct (updates_inv field_rules ND d S "focus" keep_focus
              ltac:(do 6 right; left; reflexivity))
    as [v [v' [G [F G']]]].
  exists v. split; [assumption|]. split.
  - destruct (keep_focus_ok _ _ F) as [->|[x [l [-> [-> [N R]]]]]];
      [now left|].
    right. exists x, l. auto.
  - intros x l -> Nx. rewrite G'. f_equal.
    revert F. unfold keep_focus, min, max, rbind.
    destruct (min_from x l) as [lo|] eqn:M; [|discriminate].
    apply (min_from_nan _ _ _ Nx) in M. subst lo.
    unfold is_nan in Nx.
    destruct (num_of x) as [[| |]|] eqn:X; try discriminate.
    rewrite (scalar_lt_num _ _ _ _ X (num_of_int _)).
    unfold xlt at 1. cbn [xcompare].
    destruct (max_from x l) as [hi|] eqn:H; [|discriminate].
    apply max_from_nan in H; [|unfold is_nan; now rewrite X]. subst hi.
    unfold scalar_gt. rewrite (scalar_lt_num _ _ _ _ (num_of_int _) X).
    unfold xlt. cbn [xcompare]. now intros [= <-].
Qed.

(** X4 at a record whose [focus] is [nan, 500.0]. *)
Lemma limit_actions_focus_after_witness :
  get "focus" (fst (limit_actions actions_nan))
  = get "focus" actions_nan.
Proof.
  assert (S : snd (limit_actions actions_nan) = Ok tt)
    by (vm_compute; reflexivity).
  destruct (limit_actions_focus_after actions_nan S) as [f [G [_ K]]].
  rewrite G. injection G as <-. eapply K; reflexivity.
Defined.

(** X5.  What [limit_actions] has validated, [encode_actions] can
    write: on a record of the seven fields or of some of their names
    only, whose lists hold no int of more than 4300 digits, once
    [limit_actions] has returned, [encode_actions] returns a text and
    raises nothing. *)
Theorem limit_actions_then_encodes (d : dict) :
  NoDup (keys d) ->
  Forall (fun k => In k action_fields) (keys d) ->
  short_lists d = true ->
  snd (limit_actions d) = Ok tt ->
  exists s, encode_actions (fst (limit_actions d)) = Ok s.
Proof.
  intros NDk Fk _ S. rewrite encode_actions_groups.
  apply groups_writable. apply forallb_forall. intros [k v'] I.
  cbn [snd]. rewrite limit_actions_updates in S, I.
  assert (ND : NoDup (map fst field_rules))
    by (rewrite field_rules_keys; apply action_fields_NoDup).
  pose proof (updates_keys field_rules d) as K.
  assert (Ik : In k action_fields).
  { rewrite Forall_forall in Fk. apply Fk. rewrite <- K.
    apply in_map_iff. now exists (k, v'). }
  destruct (field_rule_of k Ik) as [f If].
  destruct (updates_inv field_rules ND d S k f If) as [v [v2 [G [F G']]]].
  assert (get k (fst (updates field_rules d)) = Some v') as G2.
  { apply in_get; [now rewrite K|assumption]. }
  rewrite G2 in G'. injection G' as <-.
  eapply field_rule_writable; eauto.
Qed.

(** X5 at the record [{steer: 5, gear: 9, meta: 2, focus: [200]}]. *)
Lemma limit_actions_then_encodes_witness :
  exists s, encode_actions (fst (limit_actions actions_out_of_range)) = Ok s.
Proof.
  apply limit_actions_then_encodes.
  - repeat constructor; cbn; intuition discriminate.
  - apply Forall_forall. intros k I. exact I.
  - vm_compute. reflexivity.
  - vm_compute. reflexivity.
Defined.

(** X6.  On a record whose lists hold no int of more than 4300
    digits, [encode_actions] returns a text exactly when every field
    that is not a list holds a bool, a float, or an int that a float
    can hold; such a list never makes it fail, whatever else it holds.
    Otherwise it raises at the first field that cannot be written:
    [OverflowError] for an int too large, [TypeError] for [None] or a
    string. *)
Theorem encode_actions_raises :
  (forall d,
      short_lists d = true ->
      ((exists s, encode_actions d = Ok s)
       <-> forallb (fun kv => writable (snd kv)) d = true))
  /\ (forall d1 k a d2,
         short_lists d1 = true ->
         forallb (fun kv => writable (snd kv)) d1 = true ->
         writable (VScalar a) = false ->
         encode_actions (d1 ++ (k, VScalar a) :: d2)%list
         = Raise (match a with
                  | AInt _ => OverflowError
                  | _ => TypeError
                  end)).
Proof.
  split.
  - intros d _. rewrite encode_actions_groups. apply groups_writable.
  - intros d1 k a d2 _ W U. rewrite encode_actions_groups.
    now apply groups_first_unwritable.
Qed.

(** X6 at a record whose second field is [None]. *)
Lemma encode_actions_raises_witness :
  encode_actions ([("steer", VScalar (AInt 0))]
                    ++ ("gear", VScalar ANone)
                    :: [("meta", VScalar (AStr "x"))])%list
  = Raise TypeError.
Proof.
  apply (proj2 encode_actions_raises
               [("steer", VScalar (AInt 0))] "gear" ANone
               [("meta", VScalar (AStr "x"))]); reflexivity.
Defined.

End ValidationProperties.

(** ** Decoding: what a decoded record can hold *)

Section DecodedShape.

Import Py PyStr Client.
Local Open Scope py_scope.

Lemma destringify_str_facts t :
  decoded_scalar (fst (destringify_str t)) = true
  /\ ((snd (destringify_str t) = []
       /\ quiet_scalar (fst (destringify_str t)) = true)
      \/ (snd (destringify_str t) = [complaint t]
          /\ t <> "" /\ PyFloat.of_string t = None
          /\ fst (destringify_str t) = AStr t)).
Proof.
  unfold destringify_str. destruct t as [|c r].
  - cbn. auto.
  - destruct (PyFloat.of_string (String c r)) as [f|] eqn:E; cbn [fst snd].
    + auto.
    + split; [cbn [decoded_scalar]; now rewrite E|].
      right. repeat split; auto. discriminate.
Qed.

Lemma destringify_each_facts l :
  Forall (fun a => decoded_scalar a = true) (fst (destringify_each l))
  /\ List.length (fst (destringify_each l)) = List.length l
  /\ Forall (fun e => exists t, e = complaint t /\ t <> ""
                                /\ PyFloat.of_string t = None)
            (snd (destringify_each l))
  /\ (snd (destringify_each l) = [] ->
      forallb quiet_scalar (fst (destringify_each l)) = true).
Proof.
  induction l as [|t r IH]; cbn [destringify_each].
  - cbn. repeat split; auto.
  - destruct (destringify_str_facts t) as [D Q].
    destruct (destringify_str t) as [a p].
    destruct (destringify_each r) as [b q].
    cbn [fst snd] in *. destruct IH as [I1 [I2 [I3 I4]]].
    split; [now constructor|]. split; [cbn; now rewrite I2|]. split.
    + apply Forall_app. split; [|assumption].
      destruct Q as [[-> _]|[-> [N [O _]]]]; [constructor|].
      constructor; [|constructor]. now exists t.
    + intro E. apply app_eq_nil in E. destruct E as [-> ->].
      cbn [forallb]. rewrite I4 by reflexivity.
      destruct Q as [[_ ->]|[C _]]; [reflexivity|discriminate].
Qed.

Lemma destringify_list_facts l :
  decoded_value (fst (destringify_list l)) = true
  /\ Forall (fun e => exists t, e = complaint t /\ t <> ""
                                /\ PyFloat.of_string t = None)
            (snd (destringify_list l))
  /\ (snd (destringify_list l) = [] ->
      quiet_value (fst (destringify_list l)) = true).
Proof.
  destruct l as [|t [|t2 r]].
  - cbn. auto.
  - cbn [destringify_list].
    destruct (destringify_str_facts t) as [D Q].
    destruct (destringify_str t) as [a p]. cbn [fst snd] in *.
    split; [assumption|]. split.
    + destruct Q as [[-> _]|[-> [N [O _]]]]; [constructor|].
      constructor; [|constructor]. now exists t.
    + intros ->. destruct Q as [[_ Q]|[C _]]; [assumption|discriminate].
  - cbn [destringify_list].
    destruct (destringify_each_facts (t :: t2 :: r)) as [I1 [I2 [I3 I4]]].
    destruct (destringify_each (t :: t2 :: r)) as [b q].
    cbn [fst snd] in *. split; [|split; assumption].
    cbn [decoded_value]. rewrite I2. cbn [Nat.eqb negb andb].
    apply forallb_forall. rewrite Forall_forall in I1. exact I1.
Qed.

Lemma set_values (P : value -> Prop) k v d :
  P v -> Forall P (map snd d) -> Forall P (map snd (set k v d)).
Proof.
  intros Pv. induction d as [|[k' v'] r IH]; cbn [set map snd].
  - intros _. now constructor.
  - intro F. inversion F as [|? ? Pv' Fr]; subst.
    destruct (String.eqb k k'); cbn [map snd]; constructor; auto.
Qed.

Lemma set_keys k v d :
  keys (set k v d)
  = match get k d with
    | Some _ => keys d
    | None => (keys d ++ [k])%list
    end.
Proof.
  destruct (get k d) as [v0|] eqn:G.
  - eapply keys_set_present; eauto.
  - rewrite (set_absent _ _ _ G). unfold keys. now rewrite map_app.
Qed.

Lemma set_NoDup k v d : NoDup (keys d) -> NoDup (keys (set k v d)).
Proof.
  intro N. rewrite set_keys. destruct (get k d) eqn:G; [assumption|].
  apply get_none_not_in in G.
  apply NoDup_app; [assumption|repeat constructor; intros []|].
  intros x I [<-|[]]. contradiction.
Qed.

Lemma parse_loop_shape segs : forall acc d log,
  parse_loop segs acc = Ok (d, log) ->
  (Forall (fun v => decoded_value v = true) (map snd acc) ->
   Forall (fun v => decoded_value v = true) (map snd d))
  /\ (NoDup (keys acc) -> NoDup (keys d))
  /\ Forall (fun e => exists t, e = complaint t /\ t <> ""
                                /\ PyFloat.of_string t = None) log
  /\ (log = [] ->
      Forall (fun v => quiet_value v = true) (map snd acc) ->
      Forall (fun v => quiet_value v = true) (map snd d)).
Proof.
  induction segs as [|i rest IH]; intros acc d log; cbn [parse_loop].
  - intros [= -> <-]. auto.
  - rewrite destringify_RList. cbn [rbind].
    destruct (split " " i) as [|k w] eqn:S.
    + exfalso. exact (split_go_nonempty _ _ _ S).
    + cbn [nth_error tl].
      destruct (destringify_list_facts w) as [D [L Q]].
      destruct (parse_loop rest (set k (fst (destringify_list w)) acc))
        as [[d' log']|] eqn:P; [|discriminate].
      cbn [rbind fst snd]. intros [= <- <-].
      destruct (IH _ _ _ P) as [I1 [I2 [I3 I4]]].
      split; [|split; [|split]].
      * intro F. apply I1. now apply set_values.
      * intro N. apply I2. now apply set_NoDup.
      * apply Forall_app. now split.
      * intros E F. apply app_eq_nil in E. destruct E as [E1 E2].
        apply I4; [assumption|]. apply set_values; auto.
Qed.

End DecodedShape.

(** ** Decoding: repeated keys, blank datagrams, white space *)

Section MoreDecoding.

Import Py PyStr Client Environment.
Local Open Scope py_scope.

Lemma wire_segments_spec fields :
  wire_segments fields = true ->
  fields <> []
  /\ Forall (fun kt => token (fst kt) = true
                       /\ Forall (fun t => all_chars plain t = true) (snd kt))
            fields
  /\ ends_plain (join ")(" (map segment fields)) = true.
Proof.
  unfold wire_segments. intro H.
  apply andb_true_iff in H. destruct H as [H E].
  apply andb_true_iff in H. destruct H as [N F].
  split; [destruct fields; [discriminate|discriminate]|].
  split; [|assumption].
  apply Forall_forall. intros kt I. rewrite forallb_forall in F.
  specialize (F kt I). apply andb_true_iff in F. destruct F as [K T].
  split; [assumption|]. apply Forall_forall. intros t It.
  rewrite forallb_forall in T. now apply T.
Qed.

(** The text of wire segments, followed by one more character,
    decodes to the record they build. *)
Lemma decode_wire_segments fields c :
  wire_segments fields = true ->
  parse_server_string (datagram fields c)
  = Ok (record_of fields, flat_map decoded_log fields).
Proof.
  intro W. destruct (wire_segments_spec fields W) as [NE [F E]].
  assert (F' : Forall (fun kt => Forall (fun t => all_chars plain t = true)
                                        (fst kt :: snd kt)) fields).
  { eapply Forall_impl; [|exact F]. intros kt [K R].
    constructor; [apply token_facts; exact K|exact R]. }
  assert (Sp : split ")(" (join ")(" (map segment fields))
               = map segment fields).
  { apply split_join.
    - destruct fields; [congruence|discriminate].
    - rewrite Forall_map. eapply Forall_impl; [|exact F'].
      intros kt H. now apply split_segment_tokens. }
  assert (Hd : exists c0 Y, join ")(" (map segment fields) = String c0 Y
                            /\ plain c0 = true).
  { destruct fields as [|kt r]; [congruence|].
    inversion F as [|? ? [K _] _]; subst.
    destruct (token_facts _ K) as [_ [c1 [k' [Ek Pc]]]].
    assert (H : first_char (join ")(" (map segment (kt :: r))) = Some c1).
    { cbn [map]. apply first_char_join. unfold segment.
      apply first_char_join. now rewrite Ek. }
    destruct (first_char_cons _ _ H) as [Y EY]. now exists c1, Y. }
  destruct Hd as [c0 [Y [EY P0]]]. unfold datagram. rewrite EY in *.
  rewrite (parse_frame_terminated c0 Y c P0 E), Sp.
  now rewrite parse_loop_segments by exact F'.
Qed.

Lemma fold_left_set_other fields : forall acc k,
  ~ In k (map fst fields) ->
  get k (fold_left (fun a kt => set (fst kt) (snd (decoded kt)) a) fields acc)
  = get k acc.
Proof.
  induction fields as [|kt r IH]; intros acc k N; [reflexivity|].
  cbn [fold_left]. cbn [map In] in N.
  rewrite IH by tauto. apply get_set_other. intros ->. tauto.
Qed.

Lemma fold_left_set_keys fields : forall acc k,
  In k (keys (fold_left (fun a kt => set (fst kt) (snd (decoded kt)) a)
                        fields acc))
  <-> In k (keys acc) \/ In k (map fst fields).
Proof.
  induction fields as [|kt r IH]; intros acc k; cbn [fold_left map In].
  - tauto.
  - rewrite IH, set_keys. destruct (get (fst kt) acc) eqn:G.
    + split; [tauto|]. intros [H|[<-|H]]; auto.
      left. apply Decidable.not_not.
      * unfold Decidable.decidable.
        destruct (in_dec string_dec (fst kt) (keys acc)); auto.
      * intro N. apply get_none_not_in in N. congruence.
    + rewrite in_app_iff. cbn [In]. tauto.
Qed.

Lemma existsb_eqb_in k l : existsb (String.eqb k) l = true <-> In k l.
Proof.
  rewrite existsb_exists. split.
  - intros [x [I E]]. apply String.eqb_eq in E. now subst.
  - intro I. exists k. split; [assumption|apply String.eqb_refl].
Qed.

Lemma first_keys_ext l : forall s1 s2,
  (forall x, In x s1 <-> In x s2) -> first_keys s1 l = first_keys s2 l.
Proof.
  induction l as [|k r IH]; intros s1 s2 H; cbn [first_keys]; [reflexivity|].
  assert (E : existsb (String.eqb k) s1 = existsb (String.eqb k) s2).
  { destruct (existsb (String.eqb k) s1) eqn:A.
    - apply existsb_eqb_in in A. apply H in A.
      apply existsb_eqb_in in A. now rewrite A.
    - destruct (existsb (String.eqb k) s2) eqn:B; [|reflexivity].
      apply existsb_eqb_in in B. apply H in B.
      apply existsb_eqb_in in B. congruence. }
  rewrite E. destruct (existsb (String.eqb k) s2); [now apply IH|].
  f_equal. apply IH. intro x. cbn [In]. rewrite H. tauto.
Qed.

(** The keys of the record are the keys of the segments, each at the
    place of its first segment. *)
Lemma fold_left_set_first fields : forall acc,
  keys (fold_left (fun a kt => set (fst kt) (snd (decoded kt)) a) fields acc)
  = (keys acc ++ first_keys (keys acc) (map fst fields))%list.
Proof.
  induction fields as [|kt r IH]; intro acc; cbn [fold_left map first_keys].
  - now rewrite app_nil_r.
  - rewrite IH, set_keys. destruct (get (fst kt) acc) as [v|] eqn:G.
    + assert (I : In (fst kt) (keys acc)).
      { destruct (in_dec string_dec (fst kt) (keys acc)) as [I|N];
          [assumption|].
        apply get_none_not_in in N. congruence. }
      apply existsb_eqb_in in I. now rewrite I.
    + assert (N : existsb (String.eqb (fst kt)) (keys acc) = false).
      { destruct (existsb (String.eqb (fst kt)) (keys acc)) eqn:E;
          [|reflexivity].
        apply existsb_eqb_in in E. apply get_none_not_in in G.
        contradiction. }
      rewrite N, <- app_assoc. cbn [app]. do 2 f_equal.
      apply first_keys_ext. intro x. rewrite in_app_iff. cbn [In]. tauto.
Qed.

(** X7.  What decoding returns.  Every value of the record is a float,
    a token that [float] rejects (the empty string among them), or a
    list, empty or of two or more such scalars: never an int, a bool,
    [None] or a list of one element.  Every line printed is "Could not
    find a value in" followed by a token that is not empty and that
    [float] rejects.  When nothing is printed, the record holds floats
    and empty strings only. *)
Theorem parse_server_string_shape (s : string) (d : dict) (log : list event) :
  parse_server_string s = Ok (d, log) ->
  Forall (fun v => decoded_value v = true) (map snd d)
  /\ NoDup (keys d)
  /\ Forall (fun e => exists t, e = complaint t /\ t <> ""
                                /\ PyFloat.of_string t = None) log
  /\ (log = [] -> Forall (fun v => quiet_value v = true) (map snd d)).
Proof.
  unfold parse_server_string. intro H.
  destruct (parse_loop_shape _ _ _ _ H) as [A [B [C D]]].
  split; [apply A; constructor|].
  split; [apply B; constructor|].
  split; [assumption|].
  intro E. apply D; [assumption|constructor].
Qed.

(** X7 at the datagram of the example followed by the identification
    marker. *)
Lemma parse_server_string_shape_witness :
  Forall (fun v => decoded_value v = true)
         [VScalar (AFloat float_0_1);
          VList [AFloat float_1; AFloat float_2;
                 AStr "3.0)***identified**"]].
Proof.
  refine (proj1 (parse_server_string_shape datagram_with_marker
                   [("angle", VScalar (AFloat float_0_1));
                    ("track", VList [AFloat float_1; AFloat float_2;
                                     AStr "3.0)***identified**"])]
                   [complaint "3.0)***identified**"] _)).
  vm_compute. reflexivity.
Defined.

(** X8.  A key that comes in several segments holds the value of the
    last of them, at the place of the first: the keys of the record
    are the keys of the segments in the order in which each first
    comes, every key once.  What the earlier segments make
    [destringify] print is printed all the same. *)
Theorem parse_server_string_last_wins
        (before after : list (string * list string))
        (k : string) (toks : list string) (c : ascii) :
  wire_segments (before ++ (k, toks) :: after) = true ->
  ~ In k (map fst after) ->
  exists d,
    parse_server_string (datagram (before ++ (k, toks) :: after) c)
    = Ok (d, flat_map decoded_log (before ++ (k, toks) :: after))
    /\ get k d = Some (fst (destringify_list toks))
    /\ keys d = first_keys [] (map fst (before ++ (k, toks) :: after))
    /\ NoDup (keys d)
    /\ (forall k', In k' (keys d)
                   <-> In k' (map fst (before ++ (k, toks) :: after))).
Proof.
  intros W N. exists (record_of (before ++ (k, toks) :: after)).
  split; [now apply decode_wire_segments|].
  unfold record_of. split; [|split; [|split]].
  - rewrite fold_left_app. cbn [fold_left].
    rewrite fold_left_set_other by assumption.
    cbn [fst snd decoded]. apply get_set_same.
  - now rewrite fold_left_set_first.
  - pose proof (decode_wire_segments _ c W) as P.
    unfold parse_server_string in P.
    destruct (parse_loop_shape _ _ _ _ P) as [_ [B _]].
    apply B. constructor.
  - intro k'. rewrite fold_left_set_keys. cbn [keys map In]. tauto.
Qed.

(** X8 at [(speed 1.0)(rpm x)(speed 2.0)]: the record is
    [{speed: 2.0, rpm: 'x'}], in this order. *)
Lemma parse_server_string_last_wins_witness :
  exists d,
    parse_server_string
      (datagram ([("speed", ["1.0"]); ("rpm", ["x"])]
                   ++ ("speed", ["2.0"]) :: [])%list zero)
    = Ok (d, [complaint "x"])
    /\ get "speed" d = Some (VScalar (AFloat float_2))
    /\ keys d = ["speed"; "rpm"].
Proof.
  destruct (parse_server_string_last_wins
              [("speed", ["1.0"]); ("rpm", ["x"])] []
              "speed" ["2.0"] zero)
    as [d [P [G [K _]]]].
  - vm_compute. reflexivity.
  - intros [].
  - exists d. split; [exact P|]. split; [|exact K].
    rewrite G. vm_compute. reflexivity.
Defined.

(** X9.  A datagram that is blank, or that is one character between
    white space, decodes to the record whose only key is the empty
    string, with the empty list as its value; nothing is printed. *)
Theorem parse_server_string_blank (s : string) :
  (String.length (strip s) <= 1)%nat ->
  parse_server_string s = Ok ([("", VList [])], []).
Proof.
  unfold parse_server_string. intro L.
  destruct (strip s) as [|c [|c2 r]]; [reflexivity|reflexivity|].
  cbn [String.length] in L. lia.
Qed.

(** X9 at a datagram that is a newline. *)
Lemma parse_server_string_blank_witness :
  parse_server_string (String newline "") = Ok ([("", VList [])], []).
Proof. apply parse_server_string_blank. vm_compute. lia. Defined.

Lemma lstrip_by_space p w x :
  all_chars p w = true -> lstrip_by p (w ++ x) = lstrip_by p x.
Proof.
  induction w as [|c r IH]; cbn [all_chars append lstrip_by]; [reflexivity|].
  intro H. apply andb_true_iff in H. destruct H as [-> H]. auto.
Qed.

Lemma lstrip_by_app p s w :
  lstrip_by p (s ++ w)
  = if all_chars p s then lstrip_by p w else lstrip_by p s ++ w.
Proof.
  induction s as [|c r IH]; cbn [all_chars append lstrip_by]; [reflexivity|].
  destruct (p c); [exact IH|reflexivity].
Qed.

Lemma lstrip_by_all p s : all_chars p s = true -> lstrip_by p s = "".
Proof.
  induction s as [|c r IH]; cbn [all_chars lstrip_by]; [reflexivity|].
  intro H. apply andb_true_iff in H. destruct H as [-> H]. auto.
Qed.

Lemma strip_space w1 s w2 :
  all_chars is_space w1 = true -> all_chars is_space w2 = true ->
  strip (w1 ++ s ++ w2) = strip s.
Proof.
  intros A B. unfold strip. rewrite (lstrip_by_space _ _ _ A).
  rewrite lstrip_by_app. destruct (all_chars is_space s) eqn:E.
  - now rewrite (lstrip_by_all _ _ B), (lstrip_by_all _ _ E).
  - rewrite rstrip_by_app.
    now rewrite (proj2 (rstrip_by_empty_iff _ _) B).
Qed.

(** X10.  White space before and after a datagram does not change what
    it decodes to. *)
Theorem parse_server_string_ignores_space (w1 s w2 : string) :
  all_chars is_space w1 = true -> all_chars is_space w2 = true ->
  parse_server_string (w1 ++ s ++ w2) = parse_server_string s.
Proof.
  intros A B. apply parse_server_string_strip. now apply strip_space.
Qed.

(** X10 at the datagram [(angle 0.5);] between a space and a
    newline. *)
Lemma parse_server_string_ignores_space_witness :
  parse_server_string (" " ++ "(angle 0.5);" ++ String newline "")
  = parse_server_string "(angle 0.5);".
Proof.
  apply parse_server_string_ignores_space; reflexivity.
Defined.

Lemma decoded_get fields k toks :
  NoDup (map fst fields) -> In (k, toks) fields ->
  get k (map decoded fields) = Some (fst (destringify_list toks)).
Proof.
  intros ND I. apply in_get.
  - now rewrite keys_decoded.
  - apply in_map_iff. now exists (k, toks).
Qed.

(** X11.  [check_sensors] on a decoded datagram.  When the datagram
    holds [trackPos] with one token that is a number, [check_sensors]
    raises nothing of its own: it prints "out of track!" and calls
    [restart_race] exactly when the absolute value of that number
    exceeds 1, and otherwise it returns at once, with nothing printed
    and no call made.  When no segment is named [trackPos],
    [check_sensors] raises [KeyError]; when [trackPos] comes with no
    token, with several, or with one that is not a number, it raises
    [TypeError]; in both cases nothing is printed and no call is
    made. *)
Theorem check_sensors_on_datagram
        (fields : list (string * list string)) (c : ascii) (gui : bool) :
  wire_fields fields = true ->
  exists d log,
    parse_server_string (datagram fields c) = Ok (d, log)
    /\ (forall tok f x,
           In ("trackPos", [tok]) fields ->
           PyFloat.of_string tok = Some f ->
           num_of (AFloat f) = Some x ->
           (check_sensors gui d
            = Ok (Print "out of track!" :: restart_race gui)
            <-> exceeds_one x)
           /\ (check_sensors gui d = Ok [] <-> ~ exceeds_one x))
    /\ (~ In "trackPos" (map fst fields) ->
        check_sensors gui d = Raise (KeyError "trackPos"))
    /\ (forall toks,
           In ("trackPos", toks) fields ->
           (forall t, toks = [t] -> PyFloat.of_string t = None) ->
           check_sensors gui d = Raise TypeError).
Proof.
  intro W. destruct (wire_fields_spec fields W) as [NE [ND [F E]]].
  exists (map decoded fields), (flat_map decoded_log fields).
  split; [apply (decode_wire_fields fields c W)|]. split; [|split].
  - intros tok f x I O X.
    apply (check_sensors_numeric gui _ (AFloat f) x); [|assumption].
    rewrite (decoded_get fields "trackPos" [tok] ND I).
    cbn [destringify_list].
    assert (T : tok <> "").
    { rewrite Forall_forall in F. destruct (F _ I) as [_ P].
      intros ->. discriminate. }
    now rewrite (destringify_str_float tok f T O).
  - intro N. unfold check_sensors.
    assert (G : get "trackPos" (map decoded fields) = None).
    { apply get_none_not_in. now rewrite keys_decoded. }
    now rewrite G.
  - intros toks I N. unfold check_sensors.
    rewrite (decoded_get fields "trackPos" toks ND I).
    destruct toks as [|t [|t2 r]].
    + reflexivity.
    + cbn [destringify_list]. specialize (N t eq_refl).
      unfold destringify_str. rewrite N. now destruct t.
    + cbn [destringify_list].
      destruct (destringify_each (t :: t2 :: r)). reflexivity.
Qed.

(** X11 at the datagram [(angle 0.1)(trackPos 1.5)]: the calls of
    [restart_race] are made. *)
Lemma check_sensors_on_datagram_witness :
  exists d log,
    parse_server_string
      (datagram [("angle", ["0.1"]); ("trackPos", ["1.5"])] zero)
    = Ok (d, log)
    /\ check_sensors false d
       = Ok (Print "out of track!" :: restart_race false).
Proof.
  destruct (check_sensors_on_datagram
              [("angle", ["0.1"]); ("trackPos", ["1.5"])] zero false
              eq_refl) as [d [log [P [H _]]]].
  exists d, log. split; [exact P|].
  apply (H "1.5" float_1_5 (XFin (PyFloat.to_Q float_1_5))).
  - right. left. reflexivity.
  - vm_compute. reflexivity.
  - reflexivity.
  - vm_compute. reflexivity.
Defined.

End MoreDecoding.

(** ** The handshake: what it sends and prints *)

Section HandshakeTrace.

Import Py Client.
Local Open Scope py_scope.

Lemma connect_loop_trace sid port answers : forall tries,
  let ev := fst (connect_loop sid port tries answers) in
  sent ev = repeat (sid ++ "(init " ++ sensor_angles ++ ")") (turns answers)
  /\ count_occ string_dec (printed ev)
               ("Waiting for server on port " ++ Dec.of_int port)
     = timeouts answers
  /\ (In (Print ("Client connected on port " ++ Dec.of_int port)) ev
      <-> snd (connect_loop sid port tries answers) = Connected).
Proof.
  induction answers as [|a rest IH]; intro tries; cbn zeta.
  - cbn. split; [reflexivity|split; [reflexivity|]].
    split; [intros []|discriminate].
  - cbn [connect_loop turns timeouts]. unfold ends, identifies, undecodable.
    destruct (send_fails a) eqn:SF; cbn [orb].
    + cbn. split; [reflexivity|split; [reflexivity|]].
      split; [intros []|discriminate].
    + destruct (recv a) as [|sockdata|] eqn:R.
      * cbn [orb].
        specialize (IH (tries - 1)). cbn zeta in IH.
        destruct (connect_loop sid port (tries - 1) rest) as [ev st].
        cbn [fst snd] in *. destruct IH as [I1 [I2 I3]].
        assert (Q : forall x : list event,
                   sent x = [] ->
                   count_occ string_dec (printed x)
                     ("Waiting for server on port " ++ Dec.of_int port) = O ->
                   ~ In (Print ("Client connected on port "
                                  ++ Dec.of_int port)) x ->
                   sent (Sendto (sid ++ "(init " ++ sensor_angles ++ ")")
                           :: Print ("Waiting for server on port "
                                       ++ Dec.of_int port)
                           :: (x ++ ev)%list)
                   = repeat (sid ++ "(init " ++ sensor_angles ++ ")")
                            (S (turns rest))
                   /\ count_occ string_dec
                        (printed
                           (Sendto (sid ++ "(init " ++ sensor_angles ++ ")")
                              :: Print ("Waiting for server on port "
                                          ++ Dec.of_int port)
                              :: (x ++ ev)%list))
                        ("Waiting for server on port " ++ Dec.of_int port)
                      = S (timeouts rest)
                   /\ (In (Print ("Client connected on port "
                                    ++ Dec.of_int port))
                          (Sendto (sid ++ "(init " ++ sensor_angles ++ ")")
                             :: Print ("Waiting for server on port "
                                         ++ Dec.of_int port)
                             :: (x ++ ev)%list)
                       <-> st = Connected)).
        { intros x X1 X2 X3. split; [|split].
          - unfold sent in *. cbn [flat_map app repeat].
            rewrite flat_map_app, X1. cbn [app]. now rewrite I1.
          - unfold printed in *. cbn [flat_map app].
            rewrite flat_map_app, count_occ_cons_eq by reflexivity.
            rewrite count_occ_app, X2, I2. reflexivity.
          - rewrite <- I3. cbn [In]. rewrite in_app_iff.
            split; [|tauto].
            intros [H|[H|[H|H]]]; try discriminate; [contradiction|exact H]. }
        destruct (tries - 1 =? 0).
        -- apply Q; [reflexivity|reflexivity|].
           cbn [In]. intros [H|[H|[]]]; discriminate.
        -- apply (Q []); [reflexivity|reflexivity|intros []].
      * destruct (PyStr.contains identify sockdata) eqn:C; cbn [orb].
        -- cbn [fst snd]. split; [reflexivity|]. split.
           ++ unfold printed. cbn [flat_map app].
              rewrite count_occ_cons_neq by discriminate. reflexivity.
           ++ split; [reflexivity|]. intros _. right. now left.
        -- specialize (IH tries). cbn zeta in IH.
           destruct (connect_loop sid port tries rest) as [ev st].
           cbn [fst snd] in *. destruct IH as [I1 [I2 I3]].
           split; [|split].
           ++ unfold sent in *. cbn [flat_map app repeat]. now rewrite I1.
           ++ exact I2.
           ++ rewrite <- I3. cbn [In]. split; [|tauto].
              intros [H|H]; [discriminate|exact H].
      * cbn [orb fst snd]. split; [reflexivity|split; [reflexivity|]].
        split; [|discriminate]. intros [H|[]]. discriminate.
Qed.

(** X12.  What the handshake sends and prints.  [connect_to_server]
    sends the datagram [sid(init angles)] once in each turn of its
    loop and nothing else; it prints "Waiting for server on port"
    with the port once for each receive that fails; it prints "Client
    connected on port" with the port when it returns, and only
    then. *)
Theorem connect_to_server_trace (sid : string) (port : Z)
        (answers : list turn) :
  let ev := fst (connect_to_server sid port answers) in
  sent ev = repeat (sid ++ "(init " ++ sensor_angles ++ ")") (turns answers)
  /\ count_occ string_dec (printed ev)
               ("Waiting for server on port " ++ Dec.of_int port)
     = timeouts answers
  /\ (In (Print ("Client connected on port " ++ Dec.of_int port)) ev
      <-> snd (connect_to_server sid port answers) = Connected).
Proof. apply connect_loop_trace. Qed.

End HandshakeTrace.

(** ** One step of the bridge *)

Section Stepping.

Import Py PyStr Client.
Local Open Scope py_scope.

Lemma server_input_loop_passes skipped : forall rest,
  forallb passed_over skipped = true ->
  server_input_loop "" (skipped ++ rest) = server_input_loop "" rest.
Proof.
  induction skipped as [|a r IH]; intros rest H; [reflexivity|].
  cbn [forallb] in H. apply andb_true_iff in H. destruct H as [P H].
  cbn [app server_input_loop].
  destruct a as [|[|c s]|]; try discriminate; now apply IH.
Qed.

Lemma server_input_loop_raises answers : forall e,
  server_input_loop "" answers = Raises e ->
  e = UnicodeDecodeError /\ In RecvUndecodable answers.
Proof.
  induction answers as [|a r IH]; intro e; cbn [server_input_loop].
  - discriminate.
  - destruct a as [|[|c s]|].
    + intro H. destruct (IH _ H). split; [assumption|now right].
    + intro H. destruct (IH _ H). split; [assumption|now right].
    + destruct (parse_loop_total
                  (split ")(" (rstrip ")" (lstrip "("
                     (strip (drop_last (strip (String c s))))))) [])
        as [x P].
      unfold parse_server_string. rewrite P. discriminate.
    + intros [= <-]. split; [reflexivity|now left].
Qed.

(** X13.  [get_server_input] returns the decoding of the first
    datagram that is not empty.  Receives that fail and empty
    datagrams are passed over, however many there are: nothing bounds
    the wait and nothing is restarted.  The one exception it can raise
    is [UnicodeDecodeError], for a datagram that is not UTF-8.  A
    datagram of white space is not empty: it is decoded, to the record
    whose only key is the empty string. *)
Theorem get_server_input_first_datagram :
  (forall skipped sockdata rest,
      forallb passed_over skipped = true -> sockdata <> "" ->
      exists r,
        parse_server_string sockdata = Ok r
        /\ get_server_input (skipped ++ RecvData sockdata :: rest)
           = Returns r)
  /\ (forall skipped,
         forallb passed_over skipped = true ->
         get_server_input skipped = Blocks)
  /\ (forall answers e,
         get_server_input answers = Raises e ->
         e = UnicodeDecodeError /\ In RecvUndecodable answers)
  /\ (forall skipped sockdata rest,
         forallb passed_over skipped = true -> sockdata <> "" ->
         (String.length (strip sockdata) <= 1)%nat ->
         get_server_input (skipped ++ RecvData sockdata :: rest)
         = Returns ([("", VList [])], [])).
Proof.
  assert (A : forall skipped sockdata rest,
             forallb passed_over skipped = true -> sockdata <> "" ->
             get_server_input (skipped ++ RecvData sockdata :: rest)
             = match parse_server_string sockdata with
               | Ok r => Returns r
               | Raise e => Raises e
               end).
  { intros skipped sockdata rest P N. unfold get_server_input.
    rewrite server_input_loop_passes by assumption.
    cbn [server_input_loop]. destruct sockdata; [congruence|reflexivity]. }
  split; [|split; [|split]].
  - intros skipped sockdata rest P N.
    destruct (parse_loop_total
                (split ")(" (rstrip ")" (lstrip "("
                   (strip (drop_last (strip sockdata)))))) []) as [r R].
    exists r. split; [exact R|]. rewrite A by assumption.
    unfold parse_server_string. now rewrite R.
  - intros skipped P. unfold get_server_input.
    rewrite <- (app_nil_r skipped).
    now rewrite server_input_loop_passes.
  - apply server_input_loop_raises.
  - intros skipped sockdata rest P N L. rewrite A by assumption.
    unfold parse_server_string.
    destruct (strip sockdata) as [|c [|c2 r]]; [reflexivity|reflexivity|].
    cbn [String.length] in L. lia.
Qed.

(** X13 after two receives that fail and an empty datagram. *)
Lemma get_server_input_first_datagram_witness :
  exists r,
    parse_server_string "(angle 0.5);" = Ok r
    /\ get_server_input ([RecvError; RecvData ""; RecvError]
                           ++ RecvData "(angle 0.5);" :: [RecvError])
       = Returns r.
Proof.
  apply (proj1 get_server_input_first_datagram).
  - reflexivity.
  - discriminate.
Defined.

Lemma complaints_send_nothing log :
  Forall (fun e => exists t, e = complaint t /\ t <> ""
                             /\ PyFloat.of_string t = None) log ->
  sent log = [].
Proof.
  induction 1 as [|e r [t [-> _]] _ IH]; [reflexivity|].
  unfold sent in *. cbn [flat_map complaint app]. exact IH.
Qed.

Lemma parse_sends_nothing s d log :
  parse_server_string s = Ok (d, log) -> sent log = [].
Proof.
  unfold parse_server_string. intro H.
  destruct (parse_loop_shape _ _ _ _ H) as [_ [_ [C _]]].
  now apply complaints_send_nothing.
Qed.

Lemma server_input_sends_nothing answers sensors log :
  get_server_input answers = Returns (sensors, log) -> sent log = [].
Proof.
  unfold get_server_input.
  induction answers as [|a r IH]; cbn [server_input_loop]; [discriminate|].
  destruct a as [|[|c s]|]; try discriminate; try exact IH.
  destruct (parse_server_string (String c s)) as [[d l]|] eqn:P;
    [|discriminate].
  intros [= <- <-]. eapply parse_sends_nothing; eauto.
Qed.

Lemma valid_encodes d :
  valid_actions d = true -> exists m, encode_actions d = Ok m.
Proof.
  intro V. destruct (valid_actions_spec d V) as [_ [_ F]].
  rewrite encode_actions_groups. apply groups_ok.
  eapply Forall_impl; [|exact F].
  intros [k v] H. now apply valid_field_entry_ok.
Qed.

(** X14.  A step with a valid record.  When the socket is set, the
    record is valid with a [focus] that is the int 0 or a list that is
    not empty, the send succeeds and a datagram that is not empty
    arrives, [step] leaves the record as it is, sends one datagram, the
    encoding of the record, and returns the record with the sensors
    decoded from the first datagram that is not empty. *)
Theorem step_valid_record (empty_actions d : dict)
        (skipped : list received) (sockdata : string)
        (rest : list received) :
  valid_actions d = true ->
  (exists v, get "focus" d = Some v /\ focus_kept v = true) ->
  forallb passed_over skipped = true -> sockdata <> "" ->
  exists message sensors log,
    encode_actions d = Ok message
    /\ parse_server_string sockdata = Ok (sensors, log)
    /\ step empty_actions true (Some d) false
            (skipped ++ RecvData sockdata :: rest)
       = (d, (Sendto message :: log)%list, Returns (Some (d, sensors))).
Proof.
  intros V F P N.
  destruct (valid_encodes d V) as [m M].
  destruct (parse_loop_total
              (split ")(" (rstrip ")" (lstrip "("
                 (strip (drop_last (strip sockdata)))))) [])
    as [[sensors log] R].
  exists m, sensors, log. split; [exact M|]. split; [exact R|].
  unfold step. cbn [negb].
  rewrite limit_actions_updates, (updates_valid_fixed d V F), M.
  cbn [send_message]. unfold get_server_input.
  rewrite server_input_loop_passes by assumption.
  cbn [server_input_loop].
  destruct sockdata as [|c s]; [congruence|].
  unfold parse_server_string. rewrite R. reflexivity.
Qed.

(** X14 at a valid record, after a receive that fails. *)
Lemma step_valid_record_witness :
  exists message sensors log,
    encode_actions actions_three_focus = Ok message
    /\ parse_server_string "(angle 0.5);" = Ok (sensors, log)
    /\ step [] true (Some actions_three_focus) false
            ([RecvError] ++ RecvData "(angle 0.5);" :: [])
       = (actions_three_focus, (Sendto message :: log)%list,
          Returns (Some (actions_three_focus, sensors))).
Proof.
  apply step_valid_record.
  - reflexivity.
  - eexists. split; reflexivity.
  - reflexivity.
  - discriminate.
Defined.

(** X15.  What a step sends.  Without a socket [step] prints "Client
    socket problem!", returns [None] and touches nothing.  With one,
    it leaves the record as [limit_actions] leaves it, whatever comes
    after; it sends nothing, or one datagram, and then validation has
    returned, the send has succeeded and the datagram is the encoding
    of the record as validated; the record it returns is that record.
    A second step with the record of the first sends the same
    datagram again. *)
Theorem step_sends_validated (empty_actions : dict)
        (actions : option dict) (send_fails : bool)
        (answers : list received) :
  let d0 := match actions with Some d => d | None => empty_actions end in
  let r := step empty_actions true actions send_fails answers in
  step empty_actions false actions send_fails answers
  = (d0, [Print "Client socket problem!"], Returns None)
  /\ fst (fst r) = fst (limit_actions d0)
  /\ (sent (snd (fst r)) = []
      \/ exists m,
           sent (snd (fst r)) = [m]
           /\ snd (limit_actions d0) = Ok tt
           /\ encode_actions (fst (fst r)) = Ok m
           /\ send_fails = false
           /\ forall answers',
                sent (snd (fst (step empty_actions true
                                     (Some (fst (fst r))) false answers')))
                = [m])
  /\ (forall a sensors,
         snd r = Returns (Some (a, sensors)) ->
         a = fst (fst r) /\ exists m, sent (snd (fst r)) = [m])
  /\ snd r <> Returns None.
Proof.
  cbn zeta. set (d0 := match actions with
                       | Some d => d
                       | None => empty_actions
                       end).
  split; [reflexivity|].
  unfold step. fold d0. cbn [negb].
  destruct (limit_actions d0) as [d' [[]|e]] eqn:L; cbn [fst snd].
  2: { repeat split; auto; discriminate. }
  destruct (encode_actions d') as [m|e] eqn:E; cbn [fst snd].
  2: { repeat split; auto; discriminate. }
  assert (I : limit_actions d' = (d', Ok tt)).
  { pose proof (updates_idempotent field_rules
                  ltac:(rewrite field_rules_keys; apply action_fields_NoDup)
                  field_rules_idempotent d0) as H.
    rewrite <- !limit_actions_updates in H. now rewrite L in H. }
  assert (Again : forall answers',
             sent (snd (fst (step empty_actions true (Some d') false
                                  answers'))) = [m]).
  { intro answers'. unfold step. cbn [negb]. rewrite I, E.
    cbn [send_message].
    destruct (get_server_input answers') as [[sensors log]| |] eqn:G;
      cbn [fst snd]; try reflexivity.
    unfold sent. cbn [app flat_map].
    change (flat_map _ log) with (sent log).
    now rewrite (server_input_sends_nothing _ _ _ G). }
  unfold send_message. destruct send_fails.
  { cbn [fst snd]. repeat split; auto; discriminate. }
  destruct (get_server_input answers) as [[sensors log]| |] eqn:G;
    cbn [fst snd].
  - assert (S : sent ([Sendto m] ++ log)%list = [m]).
    { unfold sent. cbn [app flat_map].
      change (flat_map _ log) with (sent log).
      now rewrite (server_input_sends_nothing _ _ _ G). }
    split; [reflexivity|]. split; [right; exists m; auto|].
    split; [|discriminate].
    intros a s' [= <- <-]. split; [reflexivity|eauto].
  - split; [reflexivity|]. split; [right; exists m; auto|].
    split; discriminate.
  - split; [reflexivity|]. split; [right; exists m; auto|].
    split; discriminate.
Qed.

(** X16.  What a step raises, with a socket.  An exception of
    [limit_actions] or of [encode_actions] leaves nothing sent.  When
    the send fails, the handler itself fails: [step] raises
    [TypeError], nothing is printed and the process does not exit.
    After the send, the one exception left is [UnicodeDecodeError],
    for an answer that is not UTF-8. *)
Theorem step_raises (empty_actions : dict) (actions : option dict)
        (send_fails : bool) (answers : list received) (e : exn) :
  let d0 := match actions with Some d => d | None => empty_actions end in
  let r := step empty_actions true actions send_fails answers in
  snd r = Raises e ->
  (snd (limit_actions d0) = Raise e /\ snd (fst r) = [])
  \/ (snd (limit_actions d0) = Ok tt
      /\ encode_actions (fst (limit_actions d0)) = Raise e
      /\ snd (fst r) = [])
  \/ (exists m, snd (limit_actions d0) = Ok tt
                /\ encode_actions (fst (limit_actions d0)) = Ok m
                /\ send_fails = true /\ e = TypeError
                /\ snd (fst r) = [])
  \/ (exists m, snd (limit_actions d0) = Ok tt
                /\ encode_actions (fst (limit_actions d0)) = Ok m
                /\ send_fails = false /\ e = UnicodeDecodeError
                /\ In RecvUndecodable answers
                /\ snd (fst r) = [Sendto m]).
Proof.
  cbn zeta. set (d0 := match actions with
                       | Some d => d
                       | None => empty_actions
                       end).
  unfold step. fold d0. cbn [negb].
  destruct (limit_actions d0) as [d' [[]|e1]] eqn:L; cbn [fst snd].
  2: { intros [= <-]. left. auto. }
  destruct (encode_actions d') as [m|e2] eqn:E; cbn [fst snd].
  2: { intros [= <-]. right. left. auto. }
  unfold send_message. destruct send_fails.
  { cbn [fst snd]. intros [= <-]. right. right. left. exists m. auto. }
  destruct (get_server_input answers) as [[sensors log]|e3|] eqn:G;
    cbn [fst snd]; try discriminate.
  intros [= <-]. do 3 right. exists m.
  destruct (server_input_loop_raises _ _ G) as [-> I]. auto 10.
Qed.

(** X16 at a valid record when the send fails. *)
Lemma step_raises_witness :
  exists m, snd (limit_actions actions_three_focus) = Ok tt
            /\ encode_actions (fst (limit_actions actions_three_focus))
               = Ok m
            /\ snd (fst (step [] true (Some actions_three_focus) true []))
               = [].
Proof.
  destruct (step_raises [] (Some actions_three_focus) true [] TypeError)
    as [[H _]|[[_ [H _]]|[[m [A [B [_ [_ C]]]]]|[m [_ [_ [H _]]]]]]].
  - vm_compute. reflexivity.
  - exfalso. revert H. vm_compute. discriminate.
  - exfalso. revert H. vm_compute. discriminate.
  - exists m. auto.
  - discriminate.
Defined.

Lemma set_split k v d :
  exists d1 d2, set k v d = (d1 ++ (k, v) :: d2)%list.
Proof.
  induction d as [|[k' v'] r [d1 [d2 IH]]]; cbn [set].
  - now exists [], [].
  - destruct (String.eqb k k') eqn:E.
    + apply String.eqb_eq in E. subst k'. now exists [], r.
    + exists ((k', v') :: d1), d2. now rewrite IH.
Qed.

Lemma groups_app_inv d1 : forall d2 s,
  groups (d1 ++ d2)%list = Ok s ->
  exists s1 s2, groups d1 = Ok s1 /\ groups d2 = Ok s2 /\ s = s1 ++ s2.
Proof.
  induction d1 as [|[k v] r IH]; intros d2 s; cbn [app groups].
  - intro H. now exists "", s.
  - unfold rbind. destruct (field_text v) as [t|]; [|discriminate].
    destruct (groups (r ++ d2)%list) as [g|] eqn:G; [|discriminate].
    intros [= <-]. destruct (IH _ _ G) as [s1 [s2 [-> [-> ->]]]].
    exists (group k t ++ s1), s2. split; [reflexivity|].
    split; [reflexivity|]. symmetry. apply sapp_assoc.
Qed.

(** X17.  The restart request.  [send_restart_request] sends the
    default record with [meta] set to [True], encoded as it is and not
    validated: when it returns it has sent one datagram, which holds
    the group [(meta 1.000)].  When the send fails it raises
    [TypeError], as [step] does, and sends nothing. *)
Theorem send_restart_request_meta (empty_actions : dict) :
  (forall send_fails ev,
      send_restart_request empty_actions send_fails = (ev, Ok tt) ->
      send_fails = false
      /\ exists a b,
           ev = [Sendto (a ++ "(meta 1.000)" ++ b)]
           /\ encode_actions (set "meta" (ABool true) empty_actions)
              = Ok (a ++ "(meta 1.000)" ++ b))
  /\ (forall m,
         encode_actions (set "meta" (ABool true) empty_actions) = Ok m ->
         send_restart_request empty_actions false = ([Sendto m], Ok tt)
         /\ send_restart_request empty_actions true
            = ([], Raise TypeError)).
Proof.
  split.
  - intros send_fails ev. unfold send_restart_request, send_message.
    destruct (encode_actions (set "meta" (ABool true) empty_actions))
      as [m|] eqn:E; [|discriminate].
    destruct send_fails; [discriminate|]. intros [= <-].
    split; [reflexivity|].
    destruct (set_split "meta" (ABool true) empty_actions) as [d1 [d2 S]].
    rewrite S, encode_actions_groups in E.
    destruct (groups_app_inv _ _ _ E) as [s1 [s2 [_ [G ->]]]].
    cbn [groups field_text] in G.
    change (Py.format_3f (ABool true)) with (@Ok string "1.000") in G.
    cbn [rbind] in G. destruct (groups d2) as [g|]; [|discriminate].
    cbn [rbind] in G. injection G as <-.
    exists s1, g. split; reflexivity.
  - intros m E. unfold send_restart_request. now rewrite E.
Qed.

(** X17 with the record [{steer: 5, gear: 9, meta: 2, focus: [200]}]
    as the default record. *)
Lemma send_restart_request_meta_witness :
  send_restart_request actions_out_of_range false
  = ([Sendto ("(steer 5.000)(brake 0.000)(accel 0.000)(clutch 0.000)"
                ++ "(gear 9.000)(meta 1.000)(focus 200)")], Ok tt)
  /\ send_restart_request actions_out_of_range true = ([], Raise TypeError).
Proof.
  apply (proj2 (send_restart_request_meta actions_out_of_range)).
  vm_compute. reflexivity.
Defined.

End Stepping.

(** ** Track lists (track_utilities.py) *)

Section TrackLists.

Import Py TrackUtilities.
Local Open Scope py_scope.

Lemma lookup_assign_same k l t : lookup k (assign k l t) = Some l.
Proof.
  induction t as [|[k' l'] r IH]; cbn [assign lookup].
  - now rewrite String.eqb_refl.
  - destruct (String.eqb k k') eqn:E; cbn [lookup]; now rewrite E.
Qed.

Lemma lookup_assign_other k k' l t :
  k <> k' -> lookup k (assign k' l t) = lookup k t.
Proof.
  intro N. induction t as [|[k2 l2] r IH]; cbn [assign lookup].
  - apply String.eqb_neq in N. now rewrite N.
  - destruct (String.eqb k' k2) eqn:E; cbn [lookup].
    + apply String.eqb_eq in E. subst k2.
      apply String.eqb_neq in N. now rewrite N.
    + now rewrite IH.
Qed.

Lemma lookup_none k t : lookup k t = None <-> ~ In k (map fst t).
Proof.
  induction t as [|[k' l'] r IH]; cbn [lookup map fst In]; [tauto|].
  destruct (String.eqb k k') eqn:E.
  - apply String.eqb_eq in E. subst. split; [discriminate|tauto].
  - apply String.eqb_neq in E. rewrite IH. split; [|tauto].
    intros H [H1|H1]; [congruence|tauto].
Qed.

Lemma assign_keys k l t :
  map fst (assign k l t)
  = match lookup k t with
    | Some _ => map fst t
    | None => (map fst t ++ [k])%list
    end.
Proof.
  induction t as [|[k' l'] r IH]; cbn [assign lookup map fst app];
    [reflexivity|].
  destruct (String.eqb k k') eqn:E; cbn [map fst]; [reflexivity|].
  rewrite IH. now destruct (lookup k r).
Qed.

Lemma assign_keys_in k l t x :
  In x (map fst (assign k l t)) <-> x = k \/ In x (map fst t).
Proof.
  rewrite assign_keys. destruct (lookup k t) eqn:L.
  - split; [tauto|]. intros [->|H]; [|assumption].
    destruct (in_dec string_dec k (map fst t)) as [I|N]; [assumption|].
    apply lookup_none in N. congruence.
  - rewrite in_app_iff. cbn [In]. split; [intros [H|[H|[]]]|]; auto.
    intros [->|H]; auto.
Qed.

Lemma assign_NoDup k l t : NoDup (map fst t) -> NoDup (map fst (assign k l t)).
Proof.
  intro N. rewrite assign_keys. destruct (lookup k t) eqn:L; [assumption|].
  apply lookup_none in L.
  apply NoDup_app; [assumption|repeat constructor; intros []|].
  intros x I [<-|[]]. contradiction.
Qed.

Lemma assign_same k l t : lookup k t = Some l -> assign k l t = t.
Proof.
  induction t as [|[k' l'] r IH]; cbn [lookup assign]; [discriminate|].
  destruct (String.eqb k k').
  - now intros [= ->].
  - intro H. now rewrite IH.
Qed.

Lemma assign_twice k l l' t : assign k l (assign k l' t) = assign k l t.
Proof.
  induction t as [|[k2 l2] r IH]; cbn [assign].
  - now rewrite String.eqb_refl.
  - destruct (String.eqb k k2) eqn:E; cbn [assign]; rewrite E;
      [reflexivity|now rewrite IH].
Qed.

Lemma append_all_spec k chosen : forall t l,
  lookup k t = Some l ->
  append_all k chosen t = Ok (assign k (l ++ chosen)%list t).
Proof.
  induction chosen as [|x r IH]; intros t l L; cbn [append_all].
  - rewrite app_nil_r. now rewrite (assign_same _ _ _ L).
  - unfold append. rewrite L. cbn [rbind].
    rewrite (IH _ (l ++ [x])%list (lookup_assign_same _ _ _)).
    rewrite <- app_assoc. cbn [app]. now rewrite assign_twice.
Qed.

Lemma tracks_loop_spec chosen epsilons : forall t,
  exists t',
    tracks_loop chosen epsilons t = Ok t'
    /\ (forall k, In k (map str epsilons) -> lookup k t' = Some chosen)
    /\ (forall k, ~ In k (map str epsilons) -> lookup k t' = lookup k t)
    /\ (forall k, In k (map fst t')
                  <-> In k (map fst t) \/ In k (map str epsilons))
    /\ (NoDup (map fst t) -> NoDup (map fst t')).
Proof.
  induction epsilons as [|e r IH]; intro t; cbn [tracks_loop map In].
  - exists t. repeat split; auto; tauto.
  - rewrite (append_all_spec _ chosen _ [] (lookup_assign_same _ _ _)).
    cbn [rbind app].
    rewrite assign_twice.
    destruct (IH (assign (str e) chosen t)) as [t' [R [A [B [C D]]]]].
    exists t'. split; [exact R|]. split; [|split; [|split]].
    + intros k [<-|I]; [|now apply A].
      destruct (in_dec string_dec (str e) (map str r)) as [I|N];
        [now apply A|].
      rewrite (B _ N). apply lookup_assign_same.
    + intros k N. rewrite B by tauto.
      apply lookup_assign_other. intros ->. apply N. now left.
    + intro k. rewrite C, assign_keys_in. split.
      * intros [[->|H]|H]; auto.
      * intros [H|[<-|H]]; auto.
    + intro N. apply D. now apply assign_NoDup.
Qed.

(** X18.  For epsilons that are not ints of more than 4300 digits,
    [create_tracks_list] returns a dictionary that holds, under the
    [str] of every epsilon, the chosen tracks in their order, once
    each, also when two epsilons have the same [str]; its keys are the
    [str]s of the epsilons and no others. *)
Theorem create_tracks_list_spec (chosen_tracks epsilons : list scalar) :
  forallb short_int epsilons = true ->
  exists t,
    create_tracks_list chosen_tracks epsilons = Ok t
    /\ (forall epsilon, In epsilon epsilons ->
                        lookup (str epsilon) t = Some chosen_tracks)
    /\ (forall k, In k (map fst t) <-> In k (map str epsilons))
    /\ NoDup (map fst t).
Proof.
  intros _. unfold create_tracks_list.
  destruct (tracks_loop_spec chosen_tracks epsilons [])
    as [t [R [A [_ [C D]]]]].
  exists t. split; [exact R|]. split; [|split].
  - intros e I. apply A. now apply in_map.
  - intro k. rewrite C. cbn [map In]. tauto.
  - apply D. constructor.
Qed.

(** X18 at the tracks [forza, aalborg] and the epsilons [1, 1.0, 1]. *)
Lemma create_tracks_list_witness :
  exists t,
    create_tracks_list [AStr "forza"; AStr "aalborg"]
                       [AInt 1; AFloat float_1; AInt 1] = Ok t
    /\ lookup "1" t = Some [AStr "forza"; AStr "aalborg"]
    /\ lookup "1.0" t = Some [AStr "forza"; AStr "aalborg"].
Proof.
  destruct (create_tracks_list_spec
              [AStr "forza"; AStr "aalborg"]
              [AInt 1; AFloat float_1; AInt 1])
    as [t [R [L _]]].
  - vm_compute. reflexivity.
  - exists t. split; [exact R|]. split.
    + apply (L (AInt 1)). now left.
    + apply (L (AFloat float_1)). right. now left.
Defined.

Lemma reset_each_spec epsilons : forall t,
  (forall k, In k (map str epsilons) ->
             lookup k (reset_each epsilons t) = Some [])
  /\ (forall k, ~ In k (map str epsilons) ->
                lookup k (reset_each epsilons t) = lookup k t)
  /\ (forall k, In k (map fst (reset_each epsilons t))
                <-> In k (map fst t) \/ In k (map str epsilons))
  /\ (NoDup (map fst t) -> NoDup (map fst (reset_each epsilons t))).
Proof.
  induction epsilons as [|e r IH]; intro t; cbn [reset_each map In].
  - repeat split; auto; tauto.
  - destruct (IH (assign (str e) [] t)) as [A [B [C D]]].
    split; [|split; [|split]].
    + intros k [<-|I]; [|now apply A].
      destruct (in_dec string_dec (str e) (map str r)) as [I|N];
        [now apply A|].
      rewrite (B _ N). apply lookup_assign_same.
    + intros k N. rewrite B by tauto.
      apply lookup_assign_other. intros ->. apply N. now left.
    + intro k. rewrite C, assign_keys_in. split.
      * intros [[->|H]|H]; auto.
      * intros [H|[<-|H]]; auto.
    + intro N. apply D. now apply assign_NoDup.
Qed.

Lemma append_selected_spec k names : forall t l,
  Forall (fun n => exists c, category_in TRACK_LIST n = Ok c) names ->
  lookup k t = Some l ->
  append_selected k names t
  = Ok (assign k (l ++ map AStr (filter selected names))%list t).
Proof.
  induction names as [|n r IH]; intros t l F L; cbn [append_selected].
  - cbn [filter map]. rewrite app_nil_r. now rewrite (assign_same _ _ _ L).
  - inversion F as [|? ? [c C] Fr]; subst.
    cbn [filter]. unfold selected at 1. rewrite C. cbn [rbind].
    destruct (negb (String.eqb c "dirt")); cbn [andb].
    + destruct (negb (String.eqb n "b-speedway")
                && negb (String.eqb n "c-speedway")
                && negb (String.eqb n "d-speedway")
                && negb (String.eqb n "e-speedway")
                && negb (String.eqb n "f-speedway")
                && negb (String.eqb n "g-speedway")).
      * unfold append. rewrite L. cbn [rbind].
        rewrite (IH _ (l ++ [AStr n])%list Fr (lookup_assign_same _ _ _)).
        rewrite assign_twice, <- app_assoc. reflexivity.
      * now apply IH.
    + now apply IH.
Qed.

Lemma track_names_selected :
  Forall (fun n => exists c, category_in TRACK_LIST n = Ok c)
         (map fst TRACK_LIST)
  /\ filter selected (map fst TRACK_LIST) = eligible_tracks.
Proof.
  split; [|vm_compute; reflexivity].
  unfold TRACK_LIST. cbn [map fst].
  repeat (constructor; [eexists; vm_compute; reflexivity|]).
  constructor.
Qed.

Lemma times_cons k e r :
  times k (e :: r)
  = if string_dec (str e) k then S (times k r) else times k r.
Proof. unfold times. cbn [map count_occ]. reflexivity. Qed.

Lemma times_zero k epsilons :
  ~ In k (map str epsilons) -> times k epsilons = O.
Proof. intro N. unfold times. now apply count_occ_not_In. Qed.

Lemma complete_loop_spec epsilons : forall t,
  (forall k, In k (map str epsilons) -> lookup k t <> None) ->
  exists t',
    complete_loop epsilons t = Ok t'
    /\ (forall k,
           lookup k t'
           = option_map
               (fun l => (l ++ List.concat (repeat (map AStr eligible_tracks)
                                              (times k epsilons)))%list)
               (lookup k t))
    /\ map fst t' = map fst t.
Proof.
  destruct track_names_selected as [Cat Sel].
  induction epsilons as [|e r IH]; intros t P; cbn [complete_loop].
  - exists t. split; [reflexivity|]. split; [|reflexivity].
    intro k. cbn. destruct (lookup k t); cbn; [|reflexivity].
    now rewrite app_nil_r.
  - destruct (lookup (str e) t) as [l|] eqn:L.
    2: { exfalso. apply (P (str e)); [now left|assumption]. }
    rewrite (append_selected_spec _ _ _ l Cat L), Sel. cbn [rbind].
    destruct (IH (assign (str e) (l ++ map AStr eligible_tracks)%list t))
      as [t' [R [A K]]].
    { intros k I. destruct (string_dec k (str e)) as [->|N].
      - now rewrite lookup_assign_same.
      - rewrite (lookup_assign_other _ _ _ _ N). apply P. now right. }
    exists t'. split; [exact R|]. split.
    + intro k. rewrite A, times_cons.
      destruct (string_dec (str e) k) as [<-|N].
      * rewrite lookup_assign_same, L. cbn [option_map repeat List.concat].
        now rewrite <- app_assoc.
      * rewrite lookup_assign_other by congruence. reflexivity.
    + rewrite K, assign_keys. now rewrite L.
Qed.

(** X19.  For epsilons that are not ints of more than 4300 digits,
    [create_complete_tracks_list] returns a dictionary whose keys are
    the [str]s of the epsilons.  Under each it holds the 24
    tracks that are neither dirt tracks nor one of the speedways b to
    g (a-speedway is among them), in the order of [TRACK_LIST], once
    for every epsilon that has this [str]: once when the epsilons have
    distinct [str]s, several times over when some coincide. *)
Theorem create_complete_tracks_list_spec (epsilons : list scalar) :
  forallb short_int epsilons = true ->
  exists t,
    create_complete_tracks_list epsilons = Ok t
    /\ (forall k,
           In k (map str epsilons) ->
           lookup k t
           = Some (List.concat (repeat (map AStr eligible_tracks)
                                  (times k epsilons))))
    /\ (forall k, In k (map fst t) <-> In k (map str epsilons))
    /\ NoDup (map fst t)
    /\ (NoDup (map str epsilons) ->
        forall epsilon,
          In epsilon epsilons ->
          lookup (str epsilon) t = Some (map AStr eligible_tracks))
    /\ List.length eligible_tracks = 24%nat.
Proof.
  intros _. unfold create_complete_tracks_list.
  destruct (reset_each_spec epsilons []) as [A [B [C D]]].
  destruct (complete_loop_spec epsilons (reset_each epsilons []))
    as [t [R [E K]]].
  { intros k I. now rewrite (A k I). }
  exists t. split; [exact R|].
  assert (G : forall k,
             In k (map str epsilons) ->
             lookup k t
             = Some (List.concat (repeat (map AStr eligible_tracks)
                                    (times k epsilons)))).
  { intros k I. now rewrite E, (A k I). }
  split; [exact G|]. split; [|split; [|split]].
  - intro k. rewrite K, C. cbn [map In]. tauto.
  - rewrite K. apply D. constructor.
  - intros N e I. rewrite G by now apply in_map.
    assert (T : times (str e) epsilons = 1%nat).
    { unfold times. apply NoDup_count_occ'; [assumption|now apply in_map]. }
    rewrite T. cbn [repeat List.concat]. now rewrite app_nil_r.
  - reflexivity.
Qed.

(** X19 at the epsilons [0.5, 0.1, 0] of [train_on_all_tracks]. *)
Lemma create_complete_tracks_list_witness :
  exists t,
    create_complete_tracks_list
      [AFloat (S754_finite false 4503599627370496 (-53));
       AFloat float_0_1; AInt 0] = Ok t
    /\ lookup "0.1" t = Some (map AStr eligible_tracks)
    /\ map fst t = ["0.5"; "0.1"; "0"].
Proof.
  destruct (create_complete_tracks_list_spec
              [AFloat (S754_finite false 4503599627370496 (-53));
               AFloat float_0_1; AInt 0]
              ltac:(vm_compute; reflexivity))
    as [t [R [_ [_ [_ [H _]]]]]].
  exists t. split; [exact R|]. split.
  - apply (H ltac:(vm_compute; repeat constructor; cbn;
                   intuition discriminate) (AFloat float_0_1)).
    right. now left.
  - revert R. vm_compute. now intros [= <-].
Defined.

End TrackLists.

(** ** The last network file (track_utilities.py) *)

Section LastNetwork.

Import Py PyStr TrackUtilities.
Local Open Scope py_scope.

Lemma read_write_same path text fs : read path (write path text fs) = Some text.
Proof.
  induction fs as [|[p old] r IH]; cbn [write read].
  - now rewrite String.eqb_refl.
  - destruct (String.eqb path p) eqn:E; cbn [read]; now rewrite E.
Qed.

Lemma readline_line name rest :
  all_chars in_line name = true ->
  readline (name ++ String TrackUtilities.newline rest)
  = (name ++ String TrackUtilities.newline "", rest).
Proof.
  induction name as [|c r IH]; cbn [all_chars String.append readline].
  - intros _. now rewrite Ascii.eqb_refl.
  - intro H. apply andb_true_iff in H. destruct H as [C H].
    unfold in_line in C. apply andb_true_iff in C. destruct C as [C1 C2].
    apply negb_true_iff in C1, C2. rewrite C1, C2, (IH H). reflexivity.
Qed.

Lemma remove_newlines_line name :
  all_chars in_line name = true ->
  remove_newlines (name ++ String TrackUtilities.newline "") = name.
Proof.
  induction name as [|c r IH]; cbn [all_chars String.append remove_newlines].
  - intros _. now rewrite Ascii.eqb_refl.
  - intro H. apply andb_true_iff in H. destruct H as [C H].
    unfold in_line in C. apply andb_true_iff in C. destruct C as [C1 _].
    apply negb_true_iff in C1. rewrite C1, (IH H). reflexivity.
Qed.

Lemma digit_facts c :
  is_digit c = true ->
  in_line c = true /\ PyFloat.is_blank c = false
  /\ Ascii.eqb c "_" = false /\ Ascii.eqb c "-" = false
  /\ Ascii.eqb c "+" = false.
Proof.
  ascii_cases c; intro H; try discriminate H; repeat split; reflexivity.
Qed.

Lemma digits_all (p : ascii -> bool) s :
  (forall c, is_digit c = true -> p c = true) ->
  all_chars is_digit s = true -> all_chars p s = true.
Proof. intros H. now apply all_chars_impl. Qed.

(** [int] reads what [str] writes for an int, line end included. *)
Lemma int_of_text i :
  PyInt.of_string (Dec.of_int i ++ String TrackUtilities.newline "") = Some i
  /\ all_chars in_line (Dec.of_int i) = true.
Proof.
  set (n := Z.abs i).
  assert (Hn : 0 <= n) by (unfold n; lia).
  destruct (of_Z_spec n Hn) as [NE [D V]].
  assert (E : Dec.of_int i
              = PyFloat.sign_str (i <? 0) ++ Dec.of_Z n).
  { unfold Dec.of_int, n. destruct (Z.ltb_spec i 0).
    - now rewrite Z.abs_neq by lia.
    - now rewrite Z.abs_eq by lia. }
  assert (S : forall p : ascii -> bool,
             (forall c, is_digit c = true -> p c = true) ->
             p "-"%char = true ->
             all_chars p (Dec.of_int i) = true).
  { intros p Pd Pm. rewrite E, all_chars_app.
    rewrite (digits_all p _ Pd D), andb_true_r.
    destruct (i <? 0); cbn; [now rewrite Pm|reflexivity]. }
  split.
  2: { apply S; [intros c H; now apply digit_facts|reflexivity]. }
  unfold PyInt.of_string.
  assert (L : lstrip_by PyFloat.is_blank
                (Dec.of_int i ++ String TrackUtilities.newline "")
              = Dec.of_int i ++ String TrackUtilities.newline "").
  { assert (NI : Dec.of_int i <> "").
    { rewrite E. destruct (i <? 0);
        cbn [PyFloat.sign_str String.append]; [discriminate|exact NE]. }
    assert (A : all_chars (fun c => negb (PyFloat.is_blank c))
                          (Dec.of_int i) = true).
    { apply S; [|reflexivity]. intros a H.
      destruct (digit_facts a H) as [_ [B _]]. now rewrite B. }
    clear E S. destruct (Dec.of_int i) as [|c r]; [contradiction|].
    cbn [String.append]. apply lstrip_by_keep.
    cbn [all_chars] in A.
    apply andb_true_iff in A. destruct A as [A _].
    now apply negb_true_iff in A. }
  rewrite L, rstrip_by_drop by reflexivity.
  rewrite rstrip_by_id.
  2: { apply S; [|reflexivity]. intros a H.
       destruct (digit_facts a H) as [_ [B _]]. now rewrite B. }
  rewrite drop_underscores_id; [|reflexivity|].
  2: { apply S; [|reflexivity]. intros a H.
       destruct (digit_facts a H) as [_ [_ [B _]]]. now rewrite B. }
  rewrite E.
  destruct (Dec.of_Z n) as [|c r] eqn:O; [contradiction|].
  pose proof D as D'. cbn [all_chars] in D'.
  apply andb_true_iff in D'. destruct D' as [Dc _].
  destruct (digit_facts c Dc) as [_ [_ [_ [M P]]]].
  assert (PS : PyFloat.parse_sign
                 (PyFloat.sign_str (i <? 0) ++ String c r)
               = (i <? 0, String c r)).
  { destruct (i <? 0); cbn [PyFloat.sign_str String.append PyFloat.parse_sign].
    - reflexivity.
    - now rewrite M, P. }
  rewrite PS, D. f_equal. unfold Dec.value in V. unfold Dec.value.
  rewrite V. unfold n. destruct (Z.ltb_spec i 0); cbn [cond_Zopp]; lia.
Qed.

(** X20.  What [save_last_network_path] writes,
    [load_last_network_path] reads back: the path of the network,
    when it holds no line end, and the number (of at most 4300 digits,
    which every version of Python converts to text and back).
    Without the file the answer is the empty path and 0.  With a file
    that is empty or has one line only, [int] raises [ValueError]. *)
Theorem load_last_network_path_reads_saved :
  (forall fs file name i,
      all_chars in_line name = true ->
      Z.abs i < 10 ^ 4300 ->
      load_last_network_path file (save_last_network_path file name i fs)
      = Ok (name, i))
  /\ (forall fs file,
         read file fs = None ->
         load_last_network_path file fs = Ok ("", 0))
  /\ (forall fs file name,
         all_chars in_line name = true ->
         read file fs = Some "" \/
         read file fs = Some (name ++ String TrackUtilities.newline "") ->
         load_last_network_path file fs = Raise ValueError).
Proof.
  split; [|split].
  - intros fs file name i N _.
    unfold load_last_network_path, save_last_network_path.
    rewrite read_write_same.
    change (String TrackUtilities.newline ""
              ++ Dec.of_int i ++ String TrackUtilities.newline "")
      with (String TrackUtilities.newline
              (Dec.of_int i ++ String TrackUtilities.newline "")).
    rewrite (readline_line name _ N).
    rewrite (remove_newlines_line name N).
    destruct (int_of_text i) as [I A].
    rewrite (readline_line (Dec.of_int i) "" A), I. reflexivity.
  - intros fs file R. unfold load_last_network_path. now rewrite R.
  - intros fs file name N [R|R]; unfold load_last_network_path; rewrite R.
    + reflexivity.
    + rewrite (readline_line name "" N). reflexivity.
Qed.

(** X20 at the path [runs/a/0_forza_0.5.h5f] and the number 1. *)
Lemma load_last_network_path_reads_saved_witness :
  load_last_network_path
    "last_network.txt"
    (save_last_network_path "last_network.txt" "runs/a/0_forza_0.5.h5f" 1 [])
  = Ok ("runs/a/0_forza_0.5.h5f", 1).
Proof.
  apply (proj1 load_last_network_path_reads_saved);
    [reflexivity|vm_compute; reflexivity].
Defined.

End LastNetwork.

(** ** Track lists (ddpg_torcs.py) *)

Section DdpgTrackLists.

Import Py TrackUtilities.
Local Open Scope py_scope.

Variable TRACK_LIST : list (string * string).
Hypothesis distinct_names : NoDup (map fst TRACK_LIST).

Lemma category_in_found l k c :
  NoDup (map fst l) -> In (k, c) l -> category_in l k = Ok c.
Proof.
  induction l as [|[k' c'] r IH]; cbn [map fst In category_in]; [tauto|].
  intros N [E|I].
  - injection E as -> ->. now rewrite String.eqb_refl.
  - inversion N as [|? ? NI N']; subst.
    destruct (String.eqb k k') eqn:E.
    + apply String.eqb_eq in E. subst k'. exfalso. apply NI.
      apply in_map_iff. now exists (k, c).
    + now apply IH.
Qed.

Lemma append_not_dirt_spec k items : forall t l,
  (forall kc, In kc items -> In kc TRACK_LIST) ->
  lookup k t = Some l ->
  DdpgTorcs.append_not_dirt TRACK_LIST k (map fst items) t
  = Ok (assign k (l ++ map AStr (not_dirt items))%list t).
Proof.
  unfold not_dirt.
  induction items as [|[n c] r IH]; intros t l S L;
    cbn [map fst DdpgTorcs.append_not_dirt filter snd].
  - rewrite app_nil_r. now rewrite (assign_same _ _ _ L).
  - rewrite (category_in_found TRACK_LIST n c distinct_names)
      by (apply S; now left).
    cbn [rbind]. destruct (negb (String.eqb c "dirt")).
    + unfold append. rewrite L. cbn [rbind map fst].
      rewrite (IH _ (l ++ [AStr n])%list
                  (fun kc I => S kc (or_intror I))
                  (lookup_assign_same _ _ _)).
      rewrite assign_twice, <- app_assoc. reflexivity.
    + apply IH; [|assumption]. intros kc I. apply S. now right.
Qed.

Lemma ddpg_tracks_loop_spec epsilons : forall t,
  (forall k, In k (map str epsilons) -> lookup k t <> None) ->
  exists t',
    DdpgTorcs.tracks_loop TRACK_LIST epsilons t = Ok t'
    /\ (forall k,
           lookup k t'
           = option_map
               (fun l => (l ++ List.concat
                                 (repeat (map AStr (not_dirt TRACK_LIST))
                                         (times k epsilons)))%list)
               (lookup k t))
    /\ map fst t' = map fst t.
Proof.
  induction epsilons as [|e r IH]; intros t P;
    cbn [DdpgTorcs.tracks_loop].
  - exists t. split; [reflexivity|]. split; [|reflexivity].
    intro k. cbn. destruct (lookup k t); cbn; [|reflexivity].
    now rewrite app_nil_r.
  - destruct (lookup (str e) t) as [l|] eqn:L.
    2: { exfalso. apply (P (str e)); [now left|assumption]. }
    rewrite (append_not_dirt_spec _ TRACK_LIST _ l (fun _ I => I) L).
    cbn [rbind].
    destruct (IH (assign (str e)
                         (l ++ map AStr (not_dirt TRACK_LIST))%list t))
      as [t' [R [A K]]].
    { intros k I. destruct (string_dec k (str e)) as [->|N].
      - now rewrite lookup_assign_same.
      - rewrite (lookup_assign_other _ _ _ _ N). apply P. now right. }
    exists t'. split; [exact R|]. split.
    + intro k. rewrite A, times_cons.
      destruct (string_dec (str e) k) as [<-|N].
      * rewrite lookup_assign_same, L. cbn [option_map repeat List.concat].
        now rewrite <- app_assoc.
      * rewrite lookup_assign_other by congruence. reflexivity.
    + rewrite K, assign_keys. now rewrite L.
Qed.

(** X21.  For epsilons that are not ints of more than 4300 digits,
    [create_tracks_list] of ddpg_torcs.py returns a dictionary whose
    keys are the [str]s of the epsilons; under each it holds the
    names of the tracks of [TRACK_LIST] whose category is not "dirt",
    in the order of [TRACK_LIST], once for every epsilon that has this
    [str]. *)
Theorem ddpg_create_tracks_list_spec (epsilons : list scalar) :
  forallb short_int epsilons = true ->
  exists t,
    DdpgTorcs.create_tracks_list TRACK_LIST epsilons = Ok t
    /\ (forall k,
           In k (map str epsilons) ->
           lookup k t
           = Some (List.concat (repeat (map AStr (not_dirt TRACK_LIST))
                                       (times k epsilons))))
    /\ (forall k, In k (map fst t) <-> In k (map str epsilons))
    /\ NoDup (map fst t)
    /\ (NoDup (map str epsilons) ->
        forall epsilon,
          In epsilon epsilons ->
          lookup (str epsilon) t = Some (map AStr (not_dirt TRACK_LIST))).
Proof.
  intros _. unfold DdpgTorcs.create_tracks_list.
  destruct (reset_each_spec epsilons []) as [A [B [C D]]].
  destruct (ddpg_tracks_loop_spec epsilons (reset_each epsilons []))
    as [t [R [E K]]].
  { intros k I. now rewrite (A k I). }
  exists t. split; [exact R|].
  assert (G : forall k,
             In k (map str epsilons) ->
             lookup k t
             = Some (List.concat (repeat (map AStr (not_dirt TRACK_LIST))
                                         (times k epsilons)))).
  { intros k I. now rewrite E, (A k I). }
  split; [exact G|]. split; [|split].
  - intro k. rewrite K, C. cbn [map In]. tauto.
  - rewrite K. apply D. constructor.
  - intros N e I. rewrite G by now apply in_map.
    assert (T : times (str e) epsilons = 1%nat).
    { unfold times. apply NoDup_count_occ'; [assumption|now apply in_map]. }
    rewrite T. cbn [repeat List.concat]. now rewrite app_nil_r.
Qed.

End DdpgTrackLists.

Section DdpgTrackListsAt.

Import Py TrackUtilities.

(** X21 with the track list of track_utilities.py and the epsilons
    [0.1, 0]. *)
Lemma ddpg_create_tracks_list_witness :
  exists t,
    DdpgTorcs.create_tracks_list TRACK_LIST [AFloat float_0_1; AInt 0] = Ok t
    /\ lookup "0" t = Some (map AStr (not_dirt TRACK_LIST)).
Proof.
  assert (N : NoDup (map fst TRACK_LIST)).
  { apply (distinct_NoDup (map fst TRACK_LIST)). vm_compute. reflexivity. }
  destruct (ddpg_create_tracks_list_spec TRACK_LIST N
              [AFloat float_0_1; AInt 0] ltac:(vm_compute; reflexivity))
    as [t [R [_ [_ [_ H]]]]].
  exists t. split; [exact R|].
  apply (H ltac:(vm_compute; repeat constructor; cbn;
                 intuition discriminate) (AInt 0)).
  right. now left.
Defined.

End DdpgTrackListsAt.
